(** * LLM exam game: grading core

    A shallow embedding of the grading core of the repository
    (G/llm-exam-game/server.js and G/llm-exam-game-static/public/grader.js):
    the prompt builder, the three provider adapters, the resilient JSON
    extractor [safeJsonParse], the result normaliser and the two
    orchestrators [handleGrade] (server, a CommonJS script in sloppy mode)
    and [gradeAnswer] (browser, an ES module, hence strict).

    The JavaScript run-time the code relies on is modelled first: strings as
    sequences of UTF-16 code units, numbers as IEEE-754 binary64 values
    (Stdlib's [spec_float], with correctly rounded conversions from and to
    decimal text), values as the JSON data model extended with [undefined]
    and with arrays that can carry named properties, property access and
    assignment, the coercions ToBoolean / ToString / ToNumber, JSON.parse
    and JSON.stringify, and thrown exceptions as a completion monad.

    Modelling choices: the normaliser mutates the parsed tree in place; the
    tree comes fresh from JSON.parse and is not shared, so assignments are
    modelled as functional updates. A question is the typed record of the
    question bank. The network is an input: an adapter receives what its
    awaited fetch yields; of the request only the address of the Google
    adapters is built, since encodeURIComponent can raise before anything
    is fetched. File access of handleGrade (the question bank and the notes
    of the set) is an input as well, and either can raise.

    Around the grading core the development also covers, of server.js, the
    sections taken from the notes (extractBooklistSection and
    extractNoteSection), the environment file (loadDotEnv, with process.env
    keeping names and values as C strings), the reading of the request
    (readRequestBody, which destroys the socket of a request that is too
    large, and readJson) and the request listener on the grade route, and,
    of public/app.js of the browser build, renderResult. *)

From Stdlib Require Import List Bool Arith ZArith NArith Lia.
From Stdlib Require Import Ascii String.
From Stdlib Require Import SpecFloat.
Import ListNotations.

Set Warnings "-register-all".
Local Open Scope Z_scope.

(* ================================================================== *)
(** ** Strings: sequences of UTF-16 code units *)
(* ================================================================== *)

Definition char16 := N.
Definition jsstring := list char16.

(** Source literals are written as Rocq strings (UTF-8 bytes) and decoded
    to code units, so the text reads as in the JavaScript source. *)
Definition utf16_of_codepoint (cp : N) : jsstring :=
  if (cp <? 65536)%N then [cp]
  else let c := (cp - 65536)%N in
       [(55296 + c / 1024)%N; (56320 + c mod 1024)%N].

Fixpoint utf16_of_utf8 (bs : list N) : jsstring :=
  match bs with
  | [] => []
  | b0 :: r0 =>
    if (b0 <? 128)%N then b0 :: utf16_of_utf8 r0
    else match r0 with
    | [] => [65533%N]
    | b1 :: r1 =>
      if (b0 <? 224)%N then
        utf16_of_codepoint ((b0 mod 32) * 64 + b1 mod 64)%N ++ utf16_of_utf8 r1
      else match r1 with
      | [] => [65533%N]
      | b2 :: r2 =>
        if (b0 <? 240)%N then
          utf16_of_codepoint ((b0 mod 16) * 4096 + (b1 mod 64) * 64 + b2 mod 64)%N
            ++ utf16_of_utf8 r2
        else match r2 with
        | [] => [65533%N]
        | b3 :: r3 =>
          utf16_of_codepoint
            ((b0 mod 8) * 262144 + (b1 mod 64) * 4096 + (b2 mod 64) * 64 + b3 mod 64)%N
            ++ utf16_of_utf8 r3
        end
      end
    end
  end.

Fixpoint bytes_of_string (s : string) : list N :=
  match s with
  | EmptyString => []
  | String a r => N_of_ascii a :: bytes_of_string r
  end.

Definition js (s : string) : jsstring := utf16_of_utf8 (bytes_of_string s).

(** Named code units used by the source. *)
Definition c_quote : char16 := 34%N.     (* the double quote *)
Definition c_backslash : char16 := 92%N.
Definition c_backtick : char16 := 96%N.
Definition c_lbrace : char16 := 123%N.
Definition c_rbrace : char16 := 125%N.
Definition c_nl : char16 := 10%N.

Fixpoint str_eqb (a b : jsstring) : bool :=
  match a, b with
  | [], [] => true
  | x :: a', y :: b' => (x =? y)%N && str_eqb a' b'
  | _, _ => false
  end.

(** WhiteSpace and LineTerminator of ECMA-262: the set removed by
    String.prototype.trim and matched by the regular expression class \s. *)
Definition isWhiteSpace (c : char16) : bool :=
  ((9 <=? c) && (c <=? 13) || (c =? 32) || (c =? 160) || (c =? 5760)
   || (8192 <=? c) && (c <=? 8202) || (c =? 8232) || (c =? 8233)
   || (c =? 8239) || (c =? 8287) || (c =? 12288) || (c =? 65279))%N.

Fixpoint trimStart (s : jsstring) : jsstring :=
  match s with
  | c :: r => if isWhiteSpace c then trimStart r else s
  | [] => []
  end.

Definition trimEnd (s : jsstring) : jsstring := rev (trimStart (rev s)).

(** String.prototype.trim *)
Definition trim (s : jsstring) : jsstring := trimEnd (trimStart s).

(** String.prototype.startsWith *)
Fixpoint startsWith (s pat : jsstring) {struct pat} : bool :=
  match pat, s with
  | [], _ => true
  | p :: pat', c :: s' => (c =? p)%N && startsWith s' pat'
  | _ :: _, [] => false
  end.

(** String.prototype.indexOf, from position 0; -1 when absent. *)
Fixpoint indexOf_from (i : Z) (s pat : jsstring) : Z :=
  if startsWith s pat then i
  else match s with
       | [] => -1
       | _ :: r => indexOf_from (i + 1) r pat
       end.

Definition indexOf (s pat : jsstring) : Z := indexOf_from 0 s pat.

(** String.prototype.includes *)
Definition includes (s pat : jsstring) : bool := negb (indexOf s pat =? -1).

(** String.prototype.lastIndexOf: the largest index at which [pat] occurs. *)
Fixpoint lastIndexOf_from (i : Z) (s pat : jsstring) : Z :=
  match s with
  | [] => if startsWith s pat then i else -1
  | _ :: r =>
    let later := lastIndexOf_from (i + 1) r pat in
    if later =? -1 then (if startsWith s pat then i else -1) else later
  end.

Definition lastIndexOf (s pat : jsstring) : Z := lastIndexOf_from 0 s pat.

(** String.prototype.slice(a, b) for the arguments the source passes
    (0 <= a and 0 <= b, both within the string). *)
Definition slice (s : jsstring) (a b : Z) : jsstring :=
  firstn (Z.to_nat (b - a)) (skipn (Z.to_nat a) s).

Definition slice_from (s : jsstring) (a : Z) : jsstring := skipn (Z.to_nat a) s.

(** Array.prototype.join on strings. *)
Fixpoint join (sep : jsstring) (parts : list jsstring) : jsstring :=
  match parts with
  | [] => []
  | [p] => p
  | p :: rest => p ++ sep ++ join sep rest
  end.

(** Case mapping of String.prototype.toLowerCase.  The ASCII letters are
    mapped exactly; of the code units outside ASCII only those whose
    lower-case form contains an ASCII letter are mapped (KELVIN SIGN and
    LATIN CAPITAL LETTER I WITH DOT ABOVE), the remaining ones are left in
    place: the source only compares the result with ASCII words, and no
    other code unit lower-cases into ASCII. *)
Definition lowerUnit (c : char16) : jsstring :=
  if ((65 <=? c) && (c <=? 90))%N then [(c + 32)%N]
  else if (c =? 8490)%N then [107%N]
  else if (c =? 304)%N then [105%N; 775%N]
  else [c].

Definition toLowerCase (s : jsstring) : jsstring := flat_map lowerUnit s.

Definition str_length (s : jsstring) : Z := Z.of_nat (List.length s).

(* ================================================================== *)
(** ** Numbers: IEEE-754 binary64 *)
(* ================================================================== *)

Definition num := spec_float.
Definition prec : Z := 53.
Definition emax : Z := 1024.

Definition NaN : num := S754_nan.
Definition pInfinity : num := S754_infinity false.
Definition nInfinity : num := S754_infinity true.
Definition pZero : num := S754_zero false.
Definition nZero : num := S754_zero true.

(** The Number value for an integer (round to nearest, ties to even). *)
Definition num_of_Z (z : Z) : num := binary_normalize prec emax z 0 false.

(** The Number value for the quotient n/d of two positive integers,
    correctly rounded. *)
Definition num_of_ratio (neg : bool) (n d : positive) : num :=
  SFdiv prec emax (S754_finite neg n 0) (S754_finite false d 0).

(** The Number value for the decimal [digits * 10^exp10], [0 <= digits]. *)
Definition num_of_decimal (neg : bool) (digits exp10 : Z) : num :=
  match digits with
  | Zpos p =>
    if 0 <=? exp10 then
      binary_normalize prec emax
        (if neg then - (digits * 10 ^ exp10) else digits * 10 ^ exp10) 0 false
    else num_of_ratio neg p (Z.to_pos (10 ^ (- exp10)))
  | _ => S754_zero neg
  end.

Definition num_isNaN (x : num) : bool :=
  match x with S754_nan => true | _ => false end.

(** Number.isFinite on a Number *)
Definition num_isFinite (x : num) : bool :=
  match x with
  | S754_zero _ | S754_finite _ _ _ => true
  | _ => false
  end.

Definition num_isZero (x : num) : bool :=
  match x with S754_zero _ => true | _ => false end.

Definition num_ltb (a b : num) : bool := SFltb a b.
Definition num_leb (a b : num) : bool := SFleb a b.
Definition num_eqb (a b : num) : bool := SFeqb a b.

(** Math.max and Math.min (ECMA-262 21.3.2.24/25), for two arguments: NaN
    if either is NaN, otherwise the fold of the specification, which treats
    -0 as smaller than +0. *)
Definition max_step (highest number : num) : num :=
  match number, highest with
  | S754_zero false, S754_zero true => pZero
  | _, _ => if num_ltb highest number then number else highest
  end.

Definition Math_max (a b : num) : num :=
  if num_isNaN a || num_isNaN b then NaN
  else max_step (max_step nInfinity a) b.

Definition min_step (lowest number : num) : num :=
  match number, lowest with
  | S754_zero true, S754_zero false => nZero
  | _, _ => if num_ltb number lowest then number else lowest
  end.

Definition Math_min (a b : num) : num :=
  if num_isNaN a || num_isNaN b then NaN
  else min_step (min_step pInfinity a) b.

(** *** Number::toString (radix 10) *)

Definition digit_char (d : Z) : char16 := Z.to_N (48 + d).

Fixpoint decimal_digits_aux (fuel : nat) (z : Z) (acc : jsstring) : jsstring :=
  match fuel with
  | O => acc
  | S f =>
    if z <? 10 then digit_char z :: acc
    else decimal_digits_aux f (z / 10) (digit_char (z mod 10) :: acc)
  end.

(** Decimal digits of a non-negative integer. *)
Definition decimal_digits (z : Z) : jsstring :=
  decimal_digits_aux (S (Z.to_nat (Z.log2 z))) z [].

(** [ge_pow10 n d k]: n/d >= 10^k. *)
Definition ge_pow10 (n d k : Z) : bool :=
  if 0 <=? k then 10 ^ k * d <=? n else d <=? n * 10 ^ (- k).

Fixpoint first_above (fuel : nat) (n d k : Z) : Z :=
  match fuel with
  | O => k
  | S f => if ge_pow10 n d k then first_above f n d (k + 1) else k
  end.

(** The integer [e] with 10^(e-1) <= n/d < 10^e. *)
Definition decimal_exponent (n d : Z) : Z :=
  let dg := Z.log2 n - Z.log2 d in
  first_above 12 n d ((dg - 1) * 30103 / 100000 - 1).

(** Digit generation: the least [k] and an integer [s] of [k] digits such
    that [s * 10^(e-k)] converts back to [x]; the closest such [s], the even
    one on a tie.  Returns [(s, k, e)]. *)
Fixpoint shortest_digits (fuel : nat) (x : num) (n d e k : Z) : Z * Z * Z :=
  let sc := e - k in
  let lo := if 0 <=? sc then n / (d * 10 ^ sc) else (n * 10 ^ (- sc)) / d in
  let hi := lo + 1 in
  let ok c := num_eqb (num_of_decimal false c sc) x in
  let twice := if 0 <=? sc
               then Z.compare (2 * n) ((2 * lo + 1) * 10 ^ sc * d)
               else Z.compare (2 * n * 10 ^ (- sc)) ((2 * lo + 1) * d) in
  let pick c := if c =? 10 ^ k then (10 ^ (k - 1), k, e + 1) else (c, k, e) in
  match fuel with
  | O => pick lo
  | S f =>
    match ok lo, ok hi with
    | true, true =>
      match twice with
      | Lt => pick lo
      | Gt => pick hi
      | Eq => if Z.even lo then pick lo else pick hi
      end
    | true, false => pick lo
    | false, true => pick hi
    | false, false => shortest_digits f x n d e (k + 1)
    end
  end.

Definition zeros (k : Z) : jsstring := repeat 48%N (Z.to_nat k).

(** Layout of Number::toString, given the digits [s] (no trailing zero
    beyond a single digit), their count [k] and the decimal exponent [e]. *)
Definition layout_number (s k e : Z) : jsstring :=
  let ds := decimal_digits s in
  if (k <=? e) && (e <=? 21) then ds ++ zeros (e - k)
  else if (0 <? e) && (e <=? 21) then
    firstn (Z.to_nat e) ds ++ js "." ++ skipn (Z.to_nat e) ds
  else if (-6 <? e) && (e <=? 0) then js "0." ++ zeros (- e) ++ ds
  else
    let x := e - 1 in
    let sign := if x <? 0 then js "-" else js "+" in
    match ds with
    | [c] => c :: js "e" ++ sign ++ decimal_digits (Z.abs x)
    | c :: r => c :: js "." ++ r ++ js "e" ++ sign ++ decimal_digits (Z.abs x)
    | [] => []
    end.

Definition NumberToString (x : num) : jsstring :=
  match x with
  | S754_nan => js "NaN"
  | S754_zero _ => js "0"
  | S754_infinity s => if s then js "-Infinity" else js "Infinity"
  | S754_finite sg m ex =>
    let n := if 0 <=? ex then Zpos m * 2 ^ ex else Zpos m in
    let d := if 0 <=? ex then 1 else 2 ^ (- ex) in
    let e := decimal_exponent n d in
    let '(s, k, e') := shortest_digits 17 (S754_finite false m ex) n d e 1 in
    (if sg then js "-" else []) ++ layout_number s k e'
  end.


(** *** StringToNumber (ECMA-262 7.1.4.1.1) *)

Definition isDigit (c : char16) : bool := ((48 <=? c) && (c <=? 57))%N.

(** Reads a maximal run of decimal digits, continuing the accumulator:
    returns the value, the number of digits read and the rest. *)
Fixpoint read_digits (s : jsstring) (acc cnt : Z) : Z * Z * jsstring :=
  match s with
  | c :: r =>
    if isDigit c then read_digits r (acc * 10 + (Z.of_N c - 48)) (cnt + 1)
    else (acc, cnt, s)
  | [] => (acc, cnt, [])
  end.

(** ExponentPart, optional: [Some (0, s)] when absent, [None] when the
    exponent indicator is not followed by digits. *)
Definition read_exponent (s : jsstring) : option (Z * jsstring) :=
  match s with
  | c :: r =>
    if ((c =? 101) || (c =? 69))%N then
      let '(neg, r') :=
        match r with
        | sg :: r1 => if (sg =? 45)%N then (true, r1)
                      else if (sg =? 43)%N then (false, r1) else (false, r)
        | [] => (false, r)
        end in
      let '(x, cnt, rest) := read_digits r' 0 0 in
      if cnt =? 0 then None else Some (if neg then - x else x, rest)
    else Some (0, s)
  | [] => Some (0, [])
  end.

(** StrUnsignedDecimalLiteral other than Infinity; the whole of [s]. *)
Definition unsigned_decimal (neg : bool) (s : jsstring) : num :=
  let '(i, ci, r1) := read_digits s 0 0 in
  let '(m, cf, r2) :=
    match r1 with
    | c :: r => if (c =? 46)%N then
                  let '(m, cf, r2) := read_digits r i 0 in (m, cf, r2)
                else (i, 0, r1)
    | [] => (i, 0, r1)
    end in
  if (ci =? 0) && (cf =? 0) then NaN
  else match read_exponent r2 with
       | Some (x, []) => num_of_decimal neg m (x - cf)
       | _ => NaN
       end.

Definition digit_in_radix (radix : Z) (c : char16) : option Z :=
  let v := if isDigit c then Z.of_N c - 48
           else if ((97 <=? c) && (c <=? 102))%N then Z.of_N c - 87
           else if ((65 <=? c) && (c <=? 70))%N then Z.of_N c - 55
           else 99 in
  if v <? radix then Some v else None.

Fixpoint read_radix (radix : Z) (s : jsstring) (acc : Z) : option Z :=
  match s with
  | [] => Some acc
  | c :: r => match digit_in_radix radix c with
              | Some v => read_radix radix r (acc * radix + v)
              | None => None
              end
  end.

Definition nonDecimal (radix : Z) (digits : jsstring) : num :=
  match digits with
  | [] => NaN
  | _ => match read_radix radix digits 0 with
         | Some z => num_of_Z z
         | None => NaN
         end
  end.

Definition StringToNumber (str : jsstring) : num :=
  let s := trim str in
  match s with
  | [] => pZero
  | c0 :: r0 =>
    if str_eqb s (js "Infinity") || str_eqb s (js "+Infinity") then pInfinity
    else if str_eqb s (js "-Infinity") then nInfinity
    else if (c0 =? 48)%N then
      match r0 with
      | c1 :: r1 =>
        if ((c1 =? 120) || (c1 =? 88))%N then nonDecimal 16 r1
        else if ((c1 =? 111) || (c1 =? 79))%N then nonDecimal 8 r1
        else if ((c1 =? 98) || (c1 =? 66))%N then nonDecimal 2 r1
        else unsigned_decimal false s
      | [] => unsigned_decimal false s
      end
    else if (c0 =? 45)%N then unsigned_decimal true r0
    else if (c0 =? 43)%N then unsigned_decimal false r0
    else unsigned_decimal false s
  end.


(* ================================================================== *)
(** ** Values, exceptions and coercions *)
(* ================================================================== *)

(** The values the code handles: what JSON.parse builds, plus [undefined].
    An array is an object too and can carry named own properties (the
    normaliser adds some when the model replies with an array). Objects keep
    their properties in insertion order. *)
Inductive value : Type :=
| VUndefined
| VNull
| VBool (b : bool)
| VNumber (n : num)
| VString (s : jsstring)
| VArray (items : list value) (own : list (jsstring * value))
| VObject (props : list (jsstring * value)).

(** What a throw statement or a failing built-in raises. *)
Inductive exn : Type :=
| TypeError
| SyntaxError
| URIError
| Error (message : jsstring).

Inductive completion (A : Type) : Type :=
| Return (a : A)
| Throw (e : exn).
Arguments Return {A} a.
Arguments Throw {A} e.

Definition bind {A B : Type} (c : completion A) (k : A -> completion B)
  : completion B :=
  match c with
  | Return a => k a
  | Throw e => Throw e
  end.

Declare Scope js_scope.
Delimit Scope js_scope with js.
Notation "x <- c ;; k" := (bind c (fun x => k))
  (at level 61, c at next level, right associativity) : js_scope.
Local Open Scope js_scope.

(** ToBoolean *)
Definition truthy (v : value) : bool :=
  match v with
  | VUndefined | VNull => false
  | VBool b => b
  | VNumber n => negb (num_isNaN n || num_isZero n)
  | VString s => match s with [] => false | _ => true end
  | VArray _ _ | VObject _ => true
  end.

Inductive jstype : Type :=
| TUndefined | TObject | TBoolean | TNumber | TString.

(** The typeof operator (no functions, symbols or bigints occur). *)
Definition typeof (v : value) : jstype :=
  match v with
  | VUndefined => TUndefined
  | VNull | VArray _ _ | VObject _ => TObject
  | VBool _ => TBoolean
  | VNumber _ => TNumber
  | VString _ => TString
  end.

Definition jstype_eqb (a b : jstype) : bool :=
  match a, b with
  | TUndefined, TUndefined | TObject, TObject | TBoolean, TBoolean
  | TNumber, TNumber | TString, TString => true
  | _, _ => false
  end.

(** Array.isArray *)
Definition isArray (v : value) : bool :=
  match v with VArray _ _ => true | _ => false end.

Fixpoint assoc (k : jsstring) (props : list (jsstring * value)) : option value :=
  match props with
  | [] => None
  | (k', v) :: r => if str_eqb k k' then Some v else assoc k r
  end.

(** Own property keys are kept in the order JavaScript enumerates them:
    array indices (canonical numeric strings below 2^32 - 1) in ascending
    order first, then the other keys in the order of their creation. *)
Definition array_index (k : jsstring) : option Z :=
  match k with
  | [] => None
  | c :: r =>
    if forallb isDigit k && (negb (c =? 48)%N || match r with [] => true | _ => false end)
    then let '(z, _, _) := read_digits k 0 0 in
         if z <? 4294967295 then Some z else None
    else None
  end.

Definition key_before (k k' : jsstring) : bool :=
  match array_index k, array_index k' with
  | Some i, Some j => i <? j
  | Some _, None => true
  | None, _ => false
  end.

Fixpoint assoc_insert (k : jsstring) (v : value) (props : list (jsstring * value))
  : list (jsstring * value) :=
  match props with
  | [] => [(k, v)]
  | (k', v') :: r =>
    if key_before k k' then (k, v) :: props else (k', v') :: assoc_insert k v r
  end.

Fixpoint assoc_replace (k : jsstring) (v : value) (props : list (jsstring * value))
  : list (jsstring * value) :=
  match props with
  | [] => []
  | (k', v') :: r =>
    if str_eqb k k' then (k, v) :: r else (k', v') :: assoc_replace k v r
  end.

(** Defining or overwriting an own property: an existing key keeps its
    place, a new key is created. *)
Definition assoc_set (k : jsstring) (v : value) (props : list (jsstring * value))
  : list (jsstring * value) :=
  match assoc k props with
  | Some _ => assoc_replace k v props
  | None => assoc_insert k v props
  end.

Definition has_key (k : jsstring) (props : list (jsstring * value)) : bool :=
  match assoc k props with Some _ => true | None => false end.

(** Reading the property named [k] ([o.k] in the source).  Every name the
    source reads is an identifier that no built-in prototype defines, apart
    from "length"; reading from undefined or null throws. *)
Definition Get (o : value) (k : jsstring) : completion value :=
  match o with
  | VUndefined | VNull => Throw TypeError
  | VBool _ | VNumber _ => Return VUndefined
  | VString s =>
    Return (if str_eqb k (js "length") then VNumber (num_of_Z (str_length s))
            else VUndefined)
  | VArray items own =>
    if str_eqb k (js "length")
    then Return (VNumber (num_of_Z (Z.of_nat (List.length items))))
    else Return (match assoc k own with Some v => v | None => VUndefined end)
  | VObject props =>
    Return (match assoc k props with Some v => v | None => VUndefined end)
  end.

(** Optional chaining [o?.k]. *)
Definition GetOpt (o : value) (k : jsstring) : value :=
  match o with
  | VUndefined | VNull => VUndefined
  | _ => match Get o k with Return v => v | Throw _ => VUndefined end
  end.

(** Optional element access [o?.[i]] with a numeric literal index. *)
Definition GetIndexOpt (o : value) (i : nat) : value :=
  match o with
  | VArray items _ => nth i items VUndefined
  | VString s => match nth_error s i with
                 | Some c => VString [c]
                 | None => VUndefined
                 end
  | VObject props =>
    match assoc (decimal_digits (Z.of_nat i)) props with
    | Some v => v
    | None => VUndefined
    end
  | _ => VUndefined
  end.

(** The assignment [o.k = v], for the names the source assigns (none is an
    array index or "length").  On a primitive the assignment is dropped in
    sloppy mode and throws in strict mode. *)
Definition Set_ (strict : bool) (o : value) (k : jsstring) (v : value)
  : completion value :=
  match o with
  | VUndefined | VNull => Throw TypeError
  | VBool _ | VNumber _ | VString _ =>
    if strict then Throw TypeError else Return o
  | VArray items own => Return (VArray items (assoc_set k v own))
  | VObject props => Return (VObject (assoc_set k v props))
  end.

(** ToString.  An ordinary object converts through Object.prototype.toString
    unless an own "toString" property shadows it: JSON data is never
    callable, so OrdinaryToPrimitive then finds no usable method and throws.
    An array converts through join(","), where undefined and null elements
    give the empty string. *)
Fixpoint ToString (v : value) : completion jsstring :=
  match v with
  | VUndefined => Return (js "undefined")
  | VNull => Return (js "null")
  | VBool b => Return (if b then js "true" else js "false")
  | VNumber n => Return (NumberToString n)
  | VString s => Return s
  | VArray items own =>
    if has_key (js "toString") own then Throw TypeError
    else
      (fix joined (l : list value) : completion jsstring :=
         match l with
         | [] => Return []
         | x :: r =>
           sx <- match x with
                 | VUndefined | VNull => Return []
                 | _ => ToString x
                 end ;;
           match r with
           | [] => Return sx
           | _ => sr <- joined r ;; Return (sx ++ js "," ++ sr)
           end
         end) items
  | VObject props =>
    if has_key (js "toString") props then Throw TypeError
    else Return (js "[object Object]")
  end.

(** Array.prototype.join with separator [sep] on an array of values. *)
Fixpoint join_values (sep : jsstring) (l : list value) : completion jsstring :=
  match l with
  | [] => Return []
  | x :: r =>
    sx <- match x with
          | VUndefined | VNull => Return []
          | _ => ToString x
          end ;;
    match r with
    | [] => Return sx
    | _ => sr <- join_values sep r ;; Return (sx ++ sep ++ sr)
    end
  end.

(** ToNumber, what Number(v) computes.  Objects go through ToPrimitive with
    hint number: valueOf yields no primitive, so the string form is used. *)
Definition ToNumber (v : value) : completion num :=
  match v with
  | VUndefined => Return NaN
  | VNull => Return pZero
  | VBool b => Return (if b then num_of_Z 1 else pZero)
  | VNumber n => Return n
  | VString s => Return (StringToNumber s)
  | VArray _ _ | VObject _ => s <- ToString v ;; Return (StringToNumber s)
  end.

(** [a || b] on values. *)
Definition or_else (a b : value) : value := if truthy a then a else b.


(* ================================================================== *)
(** ** JSON.parse *)
(* ================================================================== *)

(** JSON white space: tab, line feed, carriage return, space. *)
Definition isJsonWs (c : char16) : bool :=
  ((c =? 9) || (c =? 10) || (c =? 13) || (c =? 32))%N.

Fixpoint json_skip_ws (s : jsstring) : jsstring :=
  match s with
  | c :: r => if isJsonWs c then json_skip_ws r else s
  | [] => []
  end.

Definition hex_value (c : char16) : option N :=
  if isDigit c then Some (c - 48)%N
  else if ((97 <=? c) && (c <=? 102))%N then Some (c - 87)%N
  else if ((65 <=? c) && (c <=? 70))%N then Some (c - 55)%N
  else None.

Definition hex4 (a b c d : char16) : option char16 :=
  match hex_value a, hex_value b, hex_value c, hex_value d with
  | Some x, Some y, Some z, Some w => Some (((x * 16 + y) * 16 + z) * 16 + w)%N
  | _, _, _, _ => None
  end.

(** The characters of a JSON string, after the opening quote. *)
Fixpoint json_string (s : jsstring) (acc : jsstring) : option (jsstring * jsstring) :=
  match s with
  | [] => None
  | c :: r =>
    if (c =? 34)%N then Some (rev acc, r)
    else if (c =? 92)%N then
      match r with
      | [] => None
      | e :: r1 =>
        if (e =? 34)%N then json_string r1 (34%N :: acc)
        else if (e =? 92)%N then json_string r1 (92%N :: acc)
        else if (e =? 47)%N then json_string r1 (47%N :: acc)
        else if (e =? 98)%N then json_string r1 (8%N :: acc)
        else if (e =? 102)%N then json_string r1 (12%N :: acc)
        else if (e =? 110)%N then json_string r1 (10%N :: acc)
        else if (e =? 114)%N then json_string r1 (13%N :: acc)
        else if (e =? 116)%N then json_string r1 (9%N :: acc)
        else if (e =? 117)%N then
          match r1 with
          | h1 :: h2 :: h3 :: h4 :: r2 =>
            match hex4 h1 h2 h3 h4 with
            | Some u => json_string r2 (u :: acc)
            | None => None
            end
          | _ => None
          end
        else None
      end
    else if (c <? 32)%N then None
    else json_string r (c :: acc)
  end.

(** A JSON number: an optional minus sign, an integer part without leading
    zero, an optional fraction and an optional exponent, each of the latter
    two with at least one digit. *)
Definition json_number (s : jsstring) : option (num * jsstring) :=
  let '(neg, s1) :=
    match s with
    | c :: r => if (c =? 45)%N then (true, r) else (false, s)
    | [] => (false, s)
    end in
  match s1 with
  | [] => None
  | c :: r =>
    if negb (isDigit c) then None
    else
      let '(i, _, r1) := if (c =? 48)%N then (0, 1, r) else read_digits s1 0 0 in
      let frac :=
        match r1 with
        | d :: r2 =>
          if (d =? 46)%N then
            let '(m, cf, r3) := read_digits r2 i 0 in
            if cf =? 0 then None else Some (m, cf, r3)
          else Some (i, 0, r1)
        | [] => Some (i, 0, r1)
        end in
      match frac with
      | None => None
      | Some (m, cf, r3) =>
        match read_exponent r3 with
        | Some (x, rest) => Some (num_of_decimal neg m (x - cf), rest)
        | None => None
        end
      end
  end.

Inductive parse_result : Type :=
| POk (v : value) (rest : jsstring)
| PSyntax
| PFuel.

Definition literal (s word : jsstring) (v : value) : parse_result :=
  if startsWith s word then POk v (skipn (List.length word) s) else PSyntax.

Fixpoint json_value (fuel : nat) (s : jsstring) : parse_result :=
  match fuel with
  | O => PFuel
  | S f =>
    match json_skip_ws s with
    | [] => PSyntax
    | c :: r =>
      if (c =? 123)%N then
        match json_skip_ws r with
        | [] => PSyntax
        | c' :: r' =>
          if (c' =? 125)%N then POk (VObject []) r' else json_members f r []
        end
      else if (c =? 91)%N then
        match json_skip_ws r with
        | [] => PSyntax
        | c' :: r' =>
          if (c' =? 93)%N then POk (VArray [] []) r' else json_elements f r []
        end
      else if (c =? 34)%N then
        match json_string r [] with
        | Some (str, r') => POk (VString str) r'
        | None => PSyntax
        end
      else if (c =? 116)%N then literal (c :: r) (js "true") (VBool true)
      else if (c =? 102)%N then literal (c :: r) (js "false") (VBool false)
      else if (c =? 110)%N then literal (c :: r) (js "null") VNull
      else
        match json_number (c :: r) with
        | Some (n, r') => POk (VNumber n) r'
        | None => PSyntax
        end
    end
  end

with json_elements (fuel : nat) (s : jsstring) (acc : list value) : parse_result :=
  match fuel with
  | O => PFuel
  | S f =>
    match json_value f s with
    | POk v r =>
      match json_skip_ws r with
      | [] => PSyntax
      | c :: r' =>
        if (c =? 44)%N then json_elements f r' (v :: acc)
        else if (c =? 93)%N then POk (VArray (rev (v :: acc)) []) r'
        else PSyntax
      end
    | other => other
    end
  end

with json_members (fuel : nat) (s : jsstring) (acc : list (jsstring * value))
  : parse_result :=
  match fuel with
  | O => PFuel
  | S f =>
    match json_skip_ws s with
    | [] => PSyntax
    | q :: r =>
      if negb (q =? 34)%N then PSyntax
      else
        match json_string r [] with
        | None => PSyntax
        | Some (k, r1) =>
          match json_skip_ws r1 with
          | [] => PSyntax
          | colon :: r2 =>
            if negb (colon =? 58)%N then PSyntax
            else
              match json_value f r2 with
              | POk v r3 =>
                match json_skip_ws r3 with
                | [] => PSyntax
                | c :: r4 =>
                  if (c =? 44)%N then json_members f r4 (assoc_set k v acc)
                  else if (c =? 125)%N then POk (VObject (assoc_set k v acc)) r4
                  else PSyntax
                end
              | other => other
              end
          end
        end
    end
  end.

Definition json_fuel (s : jsstring) : nat := S (2 * List.length s).

(** JSON.parse(text): [None] stands for the SyntaxError it throws. *)
Definition JSON_parse (s : jsstring) : option value :=
  match json_value (json_fuel s) s with
  | POk v rest => match json_skip_ws rest with [] => Some v | _ => None end
  | _ => None
  end.


(* ================================================================== *)
(** ** JSON.stringify *)
(* ================================================================== *)

Definition hex_digit (d : N) : char16 :=
  if (d <? 10)%N then (48 + d)%N else (87 + d)%N.

Definition unicode_escape (c : char16) : jsstring :=
  [92%N; 117%N; hex_digit (c / 4096 mod 16)%N; hex_digit (c / 256 mod 16)%N;
   hex_digit (c / 16 mod 16)%N; hex_digit (c mod 16)%N].

Definition isHighSurrogate (c : char16) : bool := ((55296 <=? c) && (c <=? 56319))%N.
Definition isLowSurrogate (c : char16) : bool := ((56320 <=? c) && (c <=? 57343))%N.

(** The body of QuoteJSONString: short escapes, \u escapes for the other
    control characters and for unpaired surrogates. *)
Fixpoint quote_body (s : jsstring) : jsstring :=
  match s with
  | [] => []
  | c :: r =>
    if (c =? 8)%N then 92%N :: 98%N :: quote_body r
    else if (c =? 9)%N then 92%N :: 116%N :: quote_body r
    else if (c =? 10)%N then 92%N :: 110%N :: quote_body r
    else if (c =? 12)%N then 92%N :: 102%N :: quote_body r
    else if (c =? 13)%N then 92%N :: 114%N :: quote_body r
    else if (c =? 34)%N then 92%N :: 34%N :: quote_body r
    else if (c =? 92)%N then 92%N :: 92%N :: quote_body r
    else if (c <? 32)%N then unicode_escape c ++ quote_body r
    else if isHighSurrogate c then
      match r with
      | d :: r' => if isLowSurrogate d then c :: d :: quote_body r'
                   else unicode_escape c ++ quote_body r
      | [] => unicode_escape c
      end
    else if isLowSurrogate c then unicode_escape c ++ quote_body r
    else c :: quote_body r
  end.

Definition QuoteJSONString (s : jsstring) : jsstring :=
  c_quote :: quote_body s ++ [c_quote].

(** SerializeJSONProperty with the indentation unit [gap] (empty for the
    compact form) at the current [indent]; [None] is undefined. *)
Fixpoint serialize (gap indent : jsstring) (v : value) : option jsstring :=
  let inner := indent ++ gap in
  let sep := match gap with
             | [] => js ","
             | _ => js "," ++ [c_nl] ++ inner
             end in
  let wrap (l r : jsstring) (parts : list jsstring) : jsstring :=
    match parts, gap with
    | [], _ => l ++ r
    | _, [] => l ++ join sep parts ++ r
    | _, _ => l ++ [c_nl] ++ inner ++ join sep parts ++ [c_nl] ++ indent ++ r
    end in
  match v with
  | VUndefined => None
  | VNull => Some (js "null")
  | VBool b => Some (if b then js "true" else js "false")
  | VNumber n => Some (if num_isFinite n then NumberToString n else js "null")
  | VString s => Some (QuoteJSONString s)
  | VArray items _ =>
    Some (wrap (js "[") (js "]")
      ((fix elements (l : list value) : list jsstring :=
          match l with
          | [] => []
          | x :: r =>
            match serialize gap inner x with
            | Some sx => sx
            | None => js "null"
            end :: elements r
          end) items))
  | VObject props =>
    Some (wrap [c_lbrace] [c_rbrace]
      ((fix members (l : list (jsstring * value)) : list jsstring :=
          match l with
          | [] => []
          | (k, x) :: r =>
            match serialize gap inner x with
            | Some sx =>
              (QuoteJSONString k ++ js ":"
                 ++ match gap with [] => [] | _ => js " " end ++ sx) :: members r
            | None => members r
            end
          end) props))
  end.

(** JSON.stringify(v) *)
Definition JSON_stringify (v : value) : option jsstring := serialize [] [] v.

(** JSON.stringify(v, null, 2) *)
Definition JSON_stringify_2 (v : value) : option jsstring := serialize (js "  ") [] v.

(* ================================================================== *)
(** ** Code shared by server.js and grader.js *)
(* ================================================================== *)

(** clampNumber(n, min, max, fallback), the same text in both files. *)
Definition clampNumber (n : value) (min max : num) (fallback : num) : completion num :=
  x <- ToNumber n ;;
  if negb (num_isFinite x) then Return fallback
  else Return (Math_min max (Math_max min x)).

(** *** The fence pattern

    [trimmed.match(/```(?:json)?\s*([\s\S]*?)\s*```/i)]: the match is
    searched from the leftmost start position; at a position the alternatives
    are tried in the order of a backtracking matcher (the optional word
    present before absent, the greedy white space from the longest run down,
    the lazy capture from the shortest up). *)

Definition fence : jsstring := [c_backtick; c_backtick; c_backtick].

(** \s*``` at the head of [s] *)
Definition closes (s : jsstring) : bool := startsWith (trimStart s) fence.

(** The lazy group ([\s\S]*?) followed by \s*```: the shortest prefix of
    [s] after which the closing part matches. *)
Fixpoint capture (s : jsstring) : option jsstring :=
  if closes s then Some []
  else match s with
       | [] => None
       | c :: r => match capture r with
                   | Some g => Some (c :: g)
                   | None => None
                   end
       end.

(** The greedy \s* before the group: the longest run first. *)
Fixpoint after_spaces (s : jsstring) : option jsstring :=
  match s with
  | c :: r =>
    if isWhiteSpace c then
      match after_spaces r with
      | Some g => Some g
      | None => capture s
      end
    else capture s
  | [] => capture s
  end.

(** Matching a word of lower-case ASCII letters under the flag i: without
    the flag u a pattern letter matches itself and its ASCII capital only. *)
Fixpoint startsWith_i (s word : jsstring) {struct word} : bool :=
  match word, s with
  | [], _ => true
  | p :: word', c :: s' => ((c =? p) || (c + 32 =? p))%N && startsWith_i s' word'
  | _ :: _, [] => false
  end.

(** (?:json)? under the flag i *)
Definition after_word (s : jsstring) : option jsstring :=
  if startsWith_i s (js "json")
  then match after_spaces (skipn 4 s) with
       | Some g => Some g
       | None => after_spaces s
       end
  else after_spaces s.

Definition match_here (s : jsstring) : option jsstring :=
  if startsWith s fence then after_word (skipn 3 s) else None.

(** Group 1 of the first match, [None] when the pattern does not match. *)
Fixpoint fenceMatch (s : jsstring) : option jsstring :=
  match match_here s with
  | Some g => Some g
  | None => match s with
            | [] => None
            | _ :: r => fenceMatch r
            end
  end.

(** The second attempt of safeJsonParse: the inner text of the first
    fenced block, when the pattern matches with a non-empty group. *)
Definition parseFenced (trimmed : jsstring) : option value :=
  match fenceMatch trimmed with
  | Some (c :: g) => JSON_parse (trim (c :: g))
  | _ => None
  end.

(** The third attempt: from the first opening brace to the last closing
    brace. *)
Definition parseBraced (trimmed : jsstring) : option value :=
  let first := indexOf trimmed [c_lbrace] in
  let last := lastIndexOf trimmed [c_rbrace] in
  if negb (first =? -1) && negb (last =? -1) && (first <? last)
  then JSON_parse (slice trimmed first (last + 1))
  else None.

(** safeJsonParse(text), the same code in both files. *)
Definition safeJsonParse (text : value) : value :=
  match text with
  | VString text =>
    let trimmed := trim text in
    match trimmed with
    | [] => VNull
    | _ =>
      match JSON_parse trimmed with
      | Some v => v
      | None =>
        match parseFenced trimmed with
        | Some v => v
        | None =>
          match parseBraced trimmed with
          | Some v => v
          | None => VNull
          end
        end
      end
    end
  | _ => VNull
  end.

(* ================================================================== *)
(** ** Data model of the grading core *)
(* ================================================================== *)

(** A question of the question bank (data/<set>.questions.json). *)
Record Question : Type := {
  id : jsstring;
  section : jsstring;
  points : value;
  text : jsstring;
  booklistTopics : option (list jsstring);
  noteHeading : option jsstring
}.

Record ChatMessage : Type := { role : jsstring; content : jsstring }.

(** What the awaited fetch of an adapter hands back: the status line and
    the body as res.json() parses it ([None] when it is not JSON, which the
    adapters turn into an empty object). The request itself (URL, headers,
    serialised body) is not modelled. *)
Record Response : Type := { ok : bool; status : Z; json : option value }.

Definition response_data (res : Response) : value :=
  match json res with Some d => d | None => VObject [] end.

(** process.env *)
Record Env : Type := {
  OPENAI_API_KEY : option jsstring;
  GOOGLE_API_KEY : option jsstring;
  GEMINI_API_KEY : option jsstring;
  ANTHROPIC_API_KEY : option jsstring;
  OPENAI_MODEL : option jsstring;
  GOOGLE_MODEL : option jsstring;
  CLAUDE_MODEL : option jsstring;
  ANTHROPIC_MODEL : option jsstring
}.

Definition env_value (o : option jsstring) : value :=
  match o with Some s => VString s | None => VUndefined end.

Definition vstr (s : string) : value := VString (js s).
Definition empty_array : value := VArray [] [].

(** The provider's error message of a non-success response:
    [data?.error?.message || `<vendor> API error (${res.status})`], as the
    message of a new Error. *)
Definition provider_error (name : string) (res : Response) : completion exn :=
  let fallback := js name ++ js " API error (" ++ NumberToString (num_of_Z (status res))
                    ++ js ")" in
  m <- ToString (or_else (GetOpt (GetOpt (response_data res) (js "error")) (js "message"))
                         (VString fallback)) ;;
  Return (Error m).

(** [parts.map((p) => p?.text)] *)
Definition part_texts (parts : list value) : list value :=
  map (fun p => GetOpt p (js "text")) parts.

(** *** encodeURIComponent *)

(** The code units encodeURIComponent leaves as they are: the letters and
    digits of ASCII and the marks - _ . ! ~ * ' ( ). *)
Definition uriUnescaped (c : char16) : bool :=
  ((65 <=? c) && (c <=? 90) || (97 <=? c) && (c <=? 122) || (48 <=? c) && (c <=? 57))%N
  || existsb (N.eqb c) (js "-_.!~*'()").

Definition upper_hex_digit (d : N) : char16 :=
  if (d <? 10)%N then (48 + d)%N else (55 + d)%N.

(** A percent sign and the two upper-case hexadecimal digits of an octet. *)
Definition percentEncoded (octet : N) : jsstring :=
  [37%N; upper_hex_digit (octet / 16); upper_hex_digit (octet mod 16)].

Definition utf8_of_codepoint (cp : N) : list N :=
  if (cp <? 128)%N then [cp]
  else if (cp <? 2048)%N then [192 + cp / 64; 128 + cp mod 64]%N
  else if (cp <? 65536)%N then
    [224 + cp / 4096; 128 + (cp / 64) mod 64; 128 + cp mod 64]%N
  else [240 + cp / 262144; 128 + (cp / 4096) mod 64; 128 + (cp / 64) mod 64;
        128 + cp mod 64]%N.

(** encodeURIComponent(s): every code point outside the unescaped set is
    replaced by the percent-encoded octets of its UTF-8 form; a surrogate
    that is not part of a pair raises a URIError. *)
Fixpoint encodeURIComponent (s : jsstring) : completion jsstring :=
  match s with
  | [] => Return []
  | c :: rest =>
    if uriUnescaped c then r <- encodeURIComponent rest ;; Return (c :: r)
    else if isHighSurrogate c then
      match rest with
      | d :: rest' =>
        if isLowSurrogate d then
          r <- encodeURIComponent rest' ;;
          Return (flat_map percentEncoded
                    (utf8_of_codepoint (65536 + (c - 55296) * 1024 + (d - 56320))%N) ++ r)
        else Throw URIError
      | [] => Throw URIError
      end
    else if isLowSurrogate c then Throw URIError
    else r <- encodeURIComponent rest ;;
         Return (flat_map percentEncoded (utf8_of_codepoint c) ++ r)
  end.

(** The address both builds request of Google (server.js 239-241,
    grader.js 118). *)
Definition googleUrl (safeModel apiKey : jsstring) : completion jsstring :=
  m <- encodeURIComponent safeModel ;;
  k <- encodeURIComponent apiKey ;;
  Return (js "https://generativelanguage.googleapis.com/v1beta/models/" ++ m
            ++ js ":generateContent?key=" ++ k).

(* ================================================================== *)
(** ** server.js *)
(* ================================================================== *)

(** *** The sections taken from the notes *)

(** String.prototype.indexOf(pat, from), for 0 <= from <= length. *)
Definition indexOf_at (s pat : jsstring) (from : Z) : Z :=
  indexOf_from from (skipn (Z.to_nat from) s) pat.

Definition booklistMarker : jsstring := js "## 參考書目校正（官方書單對照）".

(** extractBooklistSection(md): from the marker to the end, trimmed;
    [None] is null. *)
Definition extractBooklistSection (md : jsstring) : option jsstring :=
  let idx := indexOf md booklistMarker in
  if idx =? -1 then None
  else Some (trim (slice_from md idx)).

(** The two patterns that end a note section: a line feed followed by a
    heading of level two or three. *)
Definition h2 : jsstring := c_nl :: js "## ".
Definition h3 : jsstring := c_nl :: js "### ".

(** extractNoteSection(md, noteHeading): from the first occurrence of the
    heading to the next heading of level two or three, trimmed. *)
Definition extractNoteSection (md : jsstring) (noteHeading : option jsstring)
  : option jsstring :=
  match noteHeading with
  | Some (c :: h) =>
    let noteHeading := c :: h in
    let start := indexOf md noteHeading in
    if start =? -1 then None
    else
      let searchFrom := start + str_length noteHeading in
      let nextH2 := indexOf_at md h2 searchFrom in
      let nextH3 := indexOf_at md h3 searchFrom in
      let end_ := str_length md in
      let end_ := if negb (nextH2 =? -1) then Z.min end_ nextH2 else end_ in
      let end_ := if negb (nextH3 =? -1) then Z.min end_ nextH3 else end_ in
      Some (trim (slice md start end_))
  | _ => None
  end.

(** Lines 418-419 of handleGrade: the two snippets taken from the notes
    file of the set, [notesMd] being its text (empty when there is none). *)
Definition snippetsOf (notesMd : jsstring) (question : Question)
  : option jsstring * option jsstring :=
  match notesMd with
  | [] => (None, None)
  | _ => (extractNoteSection notesMd (noteHeading question),
          extractBooklistSection notesMd)
  end.

Module Server.

Definition DEFAULT_OPENAI_MODEL (env : Env) : jsstring :=
  match or_else (env_value (OPENAI_MODEL env)) (vstr "gpt-4o-mini") with
  | VString s => s | _ => [] end.
Definition DEFAULT_GOOGLE_MODEL (env : Env) : jsstring :=
  match or_else (env_value (GOOGLE_MODEL env)) (vstr "gemini-1.5-flash") with
  | VString s => s | _ => [] end.
Definition DEFAULT_CLAUDE_MODEL (env : Env) : jsstring :=
  match or_else (env_value (CLAUDE_MODEL env))
          (or_else (env_value (ANTHROPIC_MODEL env)) (vstr "claude-3-5-sonnet-20241022")) with
  | VString s => s | _ => [] end.

Definition normalizeProvider (value : value) : completion jsstring :=
  s <- ToString (or_else value (VString [])) ;;
  let v := trim (toLowerCase s) in
  if str_eqb v (js "anthropic") then Return (js "claude")
  else if str_eqb v (js "gemini") then Return (js "google")
  else if str_eqb v (js "google") then Return (js "google")
  else if str_eqb v (js "openai") then Return (js "openai")
  else if str_eqb v (js "claude") then Return (js "claude")
  else Return (js "openai").

Definition defaultModelForProvider (env : Env) (provider : jsstring) : jsstring :=
  if str_eqb provider (js "google") then DEFAULT_GOOGLE_MODEL env
  else if str_eqb provider (js "claude") then DEFAULT_CLAUDE_MODEL env
  else DEFAULT_OPENAI_MODEL env.

Definition normalizeModel (env : Env) (provider : jsstring) (model : value)
  : completion jsstring :=
  s <- ToString (or_else model (VString [])) ;;
  let trimmed := trim s in
  let fallback := defaultModelForProvider env provider in
  match trimmed with
  | [] => Return fallback
  | _ =>
    if (120 <? List.length trimmed)%nat then Return fallback
    else if includes trimmed [10%N] || includes trimmed [13%N] then Return fallback
    else Return trimmed
  end.

(** The resolved key: the trimmed string form of apiKey (of the empty
    string when apiKey is falsy), else the first set environment key. *)
Definition resolveKey (apiKey : value) (fallbacks : list (option jsstring))
  : completion value :=
  s <- ToString (or_else apiKey (VString [])) ;;
  Return (fold_left (fun acc o => or_else acc (env_value o)) fallbacks (VString (trim s))).

Inductive Adapter : Type := OpenAI | Google | Claude.

Definition vendor (a : Adapter) : string :=
  match a with OpenAI => "OpenAI" | Google => "Google" | Claude => "Anthropic" end.

(** The truthy texts of the parts joined without separator when [parts]
    is an array, null otherwise. *)
Definition joined_text (parts : value) : completion value :=
  match parts with
  | VArray items _ =>
    text <- join_values [] (filter truthy (part_texts items)) ;;
    Return (VString text)
  | _ => Return VNull
  end.

(** The text each adapter takes from the vendor's response (lines 214,
    262-263 and 301-302). *)
Definition extractText (a : Adapter) (data : value) : completion value :=
  match a with
  | OpenAI =>
    Return (GetOpt (GetOpt (GetIndexOpt (GetOpt data (js "choices")) 0) (js "message"))
                   (js "content"))
  | Google =>
    joined_text
      (GetOpt (GetOpt (GetIndexOpt (GetOpt data (js "candidates")) 0) (js "content"))
              (js "parts"))
  | Claude => joined_text (GetOpt data (js "content"))
  end.

Definition emptyContent (a : Adapter) : exn :=
  Error (js (vendor a) ++ js " API returned empty content").

(** [if (typeof text !== "string" || !text.trim()) throw new Error(...);
    return text;] *)
Definition requireText (a : Adapter) (text : value) : completion jsstring :=
  match text with
  | VString s => match trim s with
                 | [] => Throw (emptyContent a)
                 | _ => Return s
                 end
  | _ => Throw (emptyContent a)
  end.

(** The part of an adapter after the awaited fetch. *)
Definition readReply (a : Adapter) (fetched : completion Response) : completion jsstring :=
  res <- fetched ;;
  let data := response_data res in
  if negb (ok res) then e <- provider_error (vendor a) res ;; Throw e
  else text <- extractText a data ;; requireText a text.

Definition callOpenAI (env : Env) (apiKey : value) (fetched : completion Response)
  : completion jsstring :=
  resolvedKey <- resolveKey apiKey [OPENAI_API_KEY env] ;;
  match resolvedKey with
  | VString (c :: k) =>
    let key := c :: k in
    if negb (startsWith key (js "sk-")) || (List.length key <? 20)%nat
    then Throw (Error (js "OpenAI API key format looks invalid"))
    else readReply OpenAI fetched
  | _ => Throw (Error (js
      "Missing OpenAI API key (set env OPENAI_API_KEY or input it in the UI)"))
  end.

Definition sanitizeGoogleModel (model : value) : completion jsstring :=
  s <- ToString (or_else model (VString [])) ;;
  let trimmed := trim s in
  let withoutPrefix :=
    if startsWith trimmed (js "models/")
    then slice_from trimmed (str_length (js "models/")) else trimmed in
  match withoutPrefix with
  | [] => Throw (Error (js "Missing Google model"))
  | _ =>
    if includes withoutPrefix (js "/") || includes withoutPrefix (js "?")
       || includes withoutPrefix (js "#")
    then Throw (Error (js "Google model name contains invalid characters"))
    else Return withoutPrefix
  end.

Definition callGoogle (env : Env) (apiKey : value) (model : value)
  (fetched : completion Response) : completion jsstring :=
  resolvedKey <- resolveKey apiKey [GOOGLE_API_KEY env; GEMINI_API_KEY env] ;;
  match resolvedKey with
  | VString (c :: k) =>
    safeModel <- sanitizeGoogleModel model ;;
    url <- googleUrl safeModel (c :: k) ;;
    readReply Google fetched
  | _ => Throw (Error (js
      "Missing Google API key (set env GOOGLE_API_KEY/GEMINI_API_KEY or input it in the UI)"))
  end.

Definition callClaude (env : Env) (apiKey : value) (fetched : completion Response)
  : completion jsstring :=
  resolvedKey <- resolveKey apiKey [ANTHROPIC_API_KEY env] ;;
  match resolvedKey with
  | VString (c :: k) =>
    if (List.length (c :: k) <? 20)%nat
    then Throw (Error (js "Anthropic API key format looks invalid"))
    else readReply Claude fetched
  | _ => Throw (Error (js
      "Missing Anthropic API key (set env ANTHROPIC_API_KEY or input it in the UI)"))
  end.

(** The system prompt: five lines joined by a line feed. *)
Definition system_prompt : jsstring :=
  join [c_nl]
    [js "你是博士班資格考『研究法』閱卷老師，目標是幫考生用考試取向提升得分。";
     js "請使用繁體中文回覆。";
     js "你只能引用/建議回頭閱讀『官方書單對照』中出現的參考來源；不要自行杜撰書目或章節。";
     js "評分重點：概念正確、對齊配分、結構清楚、能舉例或情境化。";
     js "輸出必須是 JSON（不要 Markdown、不要多餘文字）。"].

Definition outputContract : value :=
  VObject
    [(js "score", vstr "number (0..maxScore, preferably integer)");
     (js "maxScore", vstr "number");
     (js "rationale", vstr "string (總評，100~200字)");
     (js "strengths", vstr "string[]");
     (js "missingPoints", vstr "string[]");
     (js "improvements", vstr "string[]");
     (js "suggestedOutline", vstr "string[] (用可直接抄寫的答題段落骨架)");
     (js "booklistAlignment",
      VObject [(js "topics", vstr "string[] (從題目對應主題挑)");
               (js "refsToReview", vstr "string[] (只能從官方書單對照出現過的條目挑)")]);
     (js "nextDrill",
      VObject [(js "prompt", vstr "string (下一題練習題，請你出一題同題型但換情境的題目)");
               (js "timeboxMinutes", vstr "number (建議練習時間)")])].

(** A template literal interpolating undefined prints "undefined". *)
Definition interpolate (o : option jsstring) : jsstring :=
  match o with Some s => s | None => js "undefined" end.

(** The parts pushed on userParts, in order. *)
Definition userParts (question : Question) (answer : jsstring) (maxScore : num)
  (elapsedSeconds : value) (notesSnippet booklistSnippet : option jsstring)
  : list jsstring :=
  [js "【題目｜" ++ section question ++ js "｜" ++ NumberToString maxScore ++ js " 分】"
     ++ [c_nl] ++ text question]
  ++ match booklistTopics question with
     | Some (t :: ts) =>
       [[c_nl] ++ js "【題目對應書單主題】" ++ [c_nl] ++ js "- "
          ++ join ([c_nl] ++ js "- ") (t :: ts)]
     | _ => []
     end
  ++ match elapsedSeconds with
     | VNumber n =>
       [[c_nl] ++ js "【作答時間】" ++ [c_nl] ++ NumberToString n ++ js " 秒（僅供參考）"]
     | _ => []
     end
  ++ [[c_nl] ++ js "【考生答案】" ++ [c_nl] ++ answer]
  ++ match notesSnippet with
     | Some (c :: s) =>
       [[c_nl] ++ js "【本專案重點筆記（校正用；不要逐字引用）】" ++ [c_nl] ++ c :: s]
     | _ => []
     end
  ++ match booklistSnippet with
     | Some (c :: s) =>
       [[c_nl] ++ js "【官方書單對照（可引用；不可杜撰）】" ++ [c_nl] ++ c :: s]
     | _ => []
     end
  ++ [[c_nl] ++ js "【輸出格式（必須符合）】" ++ [c_nl]
        ++ interpolate (JSON_stringify_2 outputContract);
      [c_nl] ++ js "【要求】score 不得超過 maxScore；若答案明顯離題/錯誤，請直接點出並給最短可補救版本。"].

Definition buildGradingMessages (question : Question) (answer : jsstring)
  (maxScore : num) (elapsedSeconds : value)
  (notesSnippet booklistSnippet : option jsstring) : list ChatMessage :=
  [ {| role := js "system"; content := system_prompt |};
    {| role := js "user";
       content := join [c_nl; c_nl]
         (userParts question answer maxScore elapsedSeconds notesSnippet booklistSnippet) |} ].

(** *** handleGrade *)

(** What sendJson writes: the status and the object that is serialised. *)
Record Reply : Type := { code : Z; payload : value }.

Definition sendJson (status : Z) (obj : value) : Reply :=
  {| code := status; payload := obj |}.

Definition sendError (status : Z) (message : string) : Reply :=
  sendJson status (VObject [(js "error", vstr message)]).

(** The body sendJson sends. *)
Definition wire (r : Reply) : option jsstring := JSON_stringify (payload r).

Definition fallback_message : jsstring := js "模型回傳格式不是 JSON，請重試。".

(** The reply for a model answer from which no JSON could be taken
    (lines 443-456). *)
Definition fallbackResult (maxScore : num) : value :=
  VObject
    [(js "score", VNumber pZero);
     (js "maxScore", VNumber maxScore);
     (js "rationale", VString fallback_message);
     (js "strengths", empty_array);
     (js "missingPoints", empty_array);
     (js "improvements", empty_array);
     (js "suggestedOutline", empty_array);
     (js "booklistAlignment",
      VObject [(js "topics", empty_array); (js "refsToReview", empty_array)]);
     (js "nextDrill",
      VObject [(js "prompt", VString []); (js "timeboxMinutes", VNumber (num_of_Z 10))])].

(** server.js is a CommonJS script without a strict directive: assignments
    to a property of a primitive are dropped. *)
Definition assign := Set_ false.

(** [if (!Array.isArray(o.k)) o.k = [];] *)
Definition ensureArray (o : value) (k : jsstring) : completion value :=
  x <- Get o k ;;
  if negb (isArray x) then assign o k empty_array else Return o.

(** [if (!o.k || typeof o.k !== "object") o.k = dflt;] *)
Definition ensureObject (o : value) (k : jsstring) (dflt : value) : completion value :=
  x <- Get o k ;;
  if negb (truthy x) || negb (jstype_eqb (typeof x) TObject) then assign o k dflt
  else Return o.

(** A statement that updates the object held in [o.k] in place: the object
    is reached through the property again at each statement, so the update
    is written back under the same key. *)
Definition inside (o : value) (k : jsstring) (f : value -> completion value)
  : completion value :=
  x <- Get o k ;;
  x' <- f x ;;
  match o with
  | VArray _ _ | VObject _ => assign o k x'
  | _ => Return o
  end.

(** Lines 459-461: maxScore and score. *)
Definition normalizeScore (maxScore : num) (parsed : value) : completion value :=
  parsed <- assign parsed (js "maxScore") (VNumber maxScore) ;;
  score <- Get parsed (js "score") ;;
  parsed <- match score with
            | VNumber n => if negb (num_isFinite n)
                           then assign parsed (js "score") (VNumber pZero)
                           else Return parsed
            | _ => assign parsed (js "score") (VNumber pZero)
            end ;;
  score <- Get parsed (js "score") ;;
  n <- ToNumber score ;;
  assign parsed (js "score") (VNumber (Math_max pZero (Math_min maxScore n))).

(** Lines 463-466: the four free-text arrays. *)
Definition normalizeArrays (parsed : value) : completion value :=
  parsed <- ensureArray parsed (js "strengths") ;;
  parsed <- ensureArray parsed (js "missingPoints") ;;
  parsed <- ensureArray parsed (js "improvements") ;;
  ensureArray parsed (js "suggestedOutline").

Definition emptyBooklist : value :=
  VObject [(js "topics", empty_array); (js "refsToReview", empty_array)].

(** Lines 467-471: booklistAlignment. *)
Definition normalizeBooklist (parsed : value) : completion value :=
  parsed <- ensureObject parsed (js "booklistAlignment") emptyBooklist ;;
  parsed <- inside parsed (js "booklistAlignment")
              (fun b => ensureArray b (js "topics")) ;;
  inside parsed (js "booklistAlignment") (fun b => ensureArray b (js "refsToReview")).

Definition defaultDrill : value :=
  VObject [(js "prompt", VString []); (js "timeboxMinutes", VNumber (num_of_Z 10))].

(** Lines 472-476: nextDrill. *)
Definition normalizeNextDrill (parsed : value) : completion value :=
  parsed <- ensureObject parsed (js "nextDrill") defaultDrill ;;
  parsed <- inside parsed (js "nextDrill")
              (fun d => p <- Get d (js "prompt") ;;
                        match p with
                        | VString _ => Return d
                        | _ => assign d (js "prompt") (VString [])
                        end) ;;
  inside parsed (js "nextDrill")
    (fun d => t <- Get d (js "timeboxMinutes") ;;
              m <- clampNumber t (num_of_Z 5) (num_of_Z 120) (num_of_Z 15) ;;
              assign d (js "timeboxMinutes") (VNumber m)).

(** Lines 459-476: the normalisation of the parsed reply. *)
Definition normalizeResult (maxScore : num) (parsed : value) : completion value :=
  parsed <- normalizeScore maxScore parsed ;;
  parsed <- normalizeArrays parsed ;;
  parsed <- normalizeBooklist parsed ;;
  normalizeNextDrill parsed.

(** Lines 441-478: from the raw reply of the adapter to the response. *)
Definition gradeReply (maxScore : num) (raw : jsstring) : completion Reply :=
  let parsed := safeJsonParse (VString raw) in
  if negb (truthy parsed) then
    Return (sendJson 200 (VObject [(js "result", fallbackResult maxScore);
                                   (js "raw", VString raw)]))
  else
    result <- normalizeResult maxScore parsed ;;
    Return (sendJson 200 (VObject [(js "result", result); (js "raw", VString raw)])).

(** Lines 434-440: the adapter chosen for a normalised provider. *)
Definition selectAdapter (provider : jsstring) : Adapter :=
  if str_eqb provider (js "google") then Google
  else if str_eqb provider (js "claude") then Claude
  else OpenAI.

Definition callAdapter (a : Adapter) (env : Env) (apiKey : value) (model : jsstring)
  (fetched : completion Response) : completion jsstring :=
  match a with
  | Google => callGoogle env apiKey (VString model) fetched
  | Claude => callClaude env apiKey fetched
  | OpenAI => callOpenAI env apiKey fetched
  end.

(** [Number(question.points) || 0] *)
Definition maxScoreOf (question : Question) : completion num :=
  n <- ToNumber (points question) ;;
  Return (if truthy (VNumber n) then n else pZero).

(** handleGrade(req, res), from the parsed request body on.  [bank] is
    readQuestions and [fetched] what the adapter's fetch yields.  [notes]
    stands for lines 414-417: for a set, the text of its notes file, empty
    when the set names none or the file cannot be read; it raises what
    readSets, sets.find or resolvePathFromRepo raise (sets.json missing or
    not JSON, its sets not a list of objects, a notes path that is no
    string). *)
Definition handleGrade (env : Env) (bank : jsstring -> completion (list Question))
  (notes : jsstring -> completion jsstring)
  (fetched : completion Response) (body : value) : completion Reply :=
  v <- Get body (js "setId") ;;
  s <- ToString (or_else v (VString [])) ;;
  let setId := trim s in
  v <- Get body (js "questionId") ;;
  s <- ToString (or_else v (VString [])) ;;
  let questionId := trim s in
  v <- Get body (js "provider") ;;
  provider <- normalizeProvider v ;;
  v <- Get body (js "model") ;;
  model <- normalizeModel env provider v ;;
  v <- Get body (js "apiKey") ;;
  let apiKey := match v with VString k => trim k | _ => [] end in
  v <- Get body (js "answer") ;;
  s <- ToString (or_else v (VString [])) ;;
  let answer := trim s in
  v <- Get body (js "elapsedSeconds") ;;
  elapsedSeconds <- clampNumber v pZero (num_of_Z (24 * 60 * 60)) pZero ;;
  match setId, questionId, answer with
  | [], _, _ => Return (sendError 400 "Missing setId")
  | _, [], _ => Return (sendError 400 "Missing questionId")
  | _, _, [] => Return (sendError 400 "Missing answer")
  | _, _, _ =>
    questions <- bank setId ;;
    match find (fun q => str_eqb (id q) questionId) questions with
    | None => Return (sendError 404 "Question not found")
    | Some question =>
      maxScore <- maxScoreOf question ;;
      notesMd <- notes setId ;;
      let '(notesSnippet, booklistSnippet) := snippetsOf notesMd question in
      let messages :=
        buildGradingMessages question answer maxScore (VNumber elapsedSeconds)
          notesSnippet booklistSnippet in
      raw <- callAdapter (selectAdapter provider) env (VString apiKey) model fetched ;;
      gradeReply maxScore raw
    end
  end.

End Server.


(* ================================================================== *)
(** ** grader.js (the browser build) *)
(* ================================================================== *)

Module Static.

Definition DEFAULT_OPENAI_MODEL : jsstring := js "gpt-4o-mini".
Definition DEFAULT_GOOGLE_MODEL : jsstring := js "gemini-1.5-flash".
Definition DEFAULT_CLAUDE_MODEL : jsstring := js "claude-3-5-sonnet-20241022".

Definition system_prompt : jsstring :=
  join [c_nl]
    [js "你是博士班資格考『研究法』閱卷老師，目標是幫考生用考試取向提升得分。";
     js "請使用繁體中文回覆。";
     js "評分重點：概念正確、對齊配分、結構清楚、能舉例或情境化。";
     js "輸出必須是 JSON（不要 Markdown、不要多餘文字）。"].

Definition outputContract : value :=
  VObject
    [(js "score", vstr "number (0..maxScore, preferably integer)");
     (js "maxScore", vstr "number");
     (js "rationale", vstr "string (總評，100~200字)");
     (js "strengths", vstr "string[]");
     (js "missingPoints", vstr "string[]");
     (js "improvements", vstr "string[]");
     (js "suggestedOutline", vstr "string[] (用可直接抄寫的答題段落骨架)");
     (js "nextDrill",
      VObject [(js "prompt", vstr "string (下一題練習題，請你出一題同題型但換情境的題目)");
               (js "timeboxMinutes", vstr "number (建議練習時間)")])].

Definition userParts (question : Question) (answer : jsstring) (maxScore : num)
  (elapsedSeconds : value) : list jsstring :=
  [js "【題目｜" ++ section question ++ js "｜" ++ NumberToString maxScore ++ js " 分】"
     ++ [c_nl] ++ text question]
  ++ match booklistTopics question with
     | Some (t :: ts) =>
       [[c_nl] ++ js "【題目對應書單主題】" ++ [c_nl] ++ js "- "
          ++ join ([c_nl] ++ js "- ") (t :: ts)]
     | _ => []
     end
  ++ match elapsedSeconds with
     | VNumber n =>
       [[c_nl] ++ js "【作答時間】" ++ [c_nl] ++ NumberToString n ++ js " 秒（僅供參考）"]
     | _ => []
     end
  ++ [[c_nl] ++ js "【考生答案】" ++ [c_nl] ++ answer;
      [c_nl] ++ js "【輸出格式（必須符合）】" ++ [c_nl]
        ++ Server.interpolate (JSON_stringify_2 outputContract);
      [c_nl] ++ js "【要求】score 不得超過 maxScore；若答案明顯離題/錯誤，請直接點出並給最短可補救版本。"].

Definition buildGradingMessages (question : Question) (answer : jsstring)
  (maxScore : num) (elapsedSeconds : value) : list ChatMessage :=
  [ {| role := js "system"; content := system_prompt |};
    {| role := js "user";
       content := join [c_nl; c_nl] (userParts question answer maxScore elapsedSeconds) |} ].

(** The texts of the parts joined without separator when [parts] is an
    array (nothing is filtered out), the empty string otherwise. *)
Definition joined_text (parts : value) : completion value :=
  match parts with
  | VArray items _ => s <- join_values [] (part_texts items) ;; Return (VString s)
  | _ => Return (VString [])
  end.

(** What each adapter returns from the vendor's response (lines 108,
    138-139 and 175-176). *)
Definition extractText (a : Server.Adapter) (data : value) : completion value :=
  match a with
  | Server.OpenAI =>
    Return (or_else
      (GetOpt (GetOpt (GetIndexOpt (GetOpt data (js "choices")) 0) (js "message"))
              (js "content"))
      (VString []))
  | Server.Google =>
    joined_text
      (GetOpt (GetOpt (GetIndexOpt (GetOpt data (js "candidates")) 0) (js "content"))
              (js "parts"))
  | Server.Claude => joined_text (GetOpt data (js "content"))
  end.

Definition readReply (a : Server.Adapter) (fetched : completion Response)
  : completion value :=
  res <- fetched ;;
  let data := response_data res in
  if negb (ok res) then e <- provider_error (Server.vendor a) res ;; Throw e
  else extractText a data.

Definition callOpenAI (apiKey : jsstring) (fetched : completion Response)
  : completion value :=
  match apiKey with
  | [] => Throw (Error (js "Missing OpenAI API key"))
  | _ => readReply Server.OpenAI fetched
  end.

(** Lines 114-118: the model name ([m.startsWith] is no function unless
    [m] is a string) and the address. *)
Definition googleRequest (apiKey : jsstring) (model : value) : completion jsstring :=
  match or_else model (VString DEFAULT_GOOGLE_MODEL) with
  | VString m =>
    let safeModel :=
      if startsWith m (js "models/") then slice_from m (str_length (js "models/")) else m in
    googleUrl safeModel apiKey
  | _ => Throw TypeError
  end.

Definition callGoogle (apiKey : jsstring) (model : value) (fetched : completion Response)
  : completion value :=
  match apiKey with
  | [] => Throw (Error (js "Missing Google API key"))
  | _ => url <- googleRequest apiKey model ;; readReply Server.Google fetched
  end.

Definition callClaude (apiKey : jsstring) (fetched : completion Response)
  : completion value :=
  match apiKey with
  | [] => Throw (Error (js "Missing Anthropic API key"))
  | _ => readReply Server.Claude fetched
  end.

Definition fallback_message : jsstring := js "AI 回傳格式無法解析，請重試。".

(** Lines 201-208: the value returned when nothing could be parsed. *)
Definition fallbackReturn (maxScore : num) (raw : value) : value :=
  VObject [(js "result",
            VObject [(js "score", VNumber pZero);
                     (js "maxScore", VNumber maxScore);
                     (js "rationale", VString fallback_message);
                     (js "raw", raw)])].

(** grader.js is an ES module, hence strict: an assignment to a property of
    a primitive throws. *)
Definition assign := Set_ true.

Definition ensureArray (o : value) (k : jsstring) : completion value :=
  x <- Get o k ;;
  if negb (isArray x) then assign o k empty_array else Return o.

(** Lines 212-213: maxScore and score. *)
Definition normalizeScore (maxScore : num) (parsed : value) : completion value :=
  parsed <- assign parsed (js "maxScore") (VNumber maxScore) ;;
  score <- Get parsed (js "score") ;;
  n <- ToNumber score ;;
  let n := if truthy (VNumber n) then n else pZero in
  assign parsed (js "score") (VNumber (Math_max pZero (Math_min maxScore n))).

(** Lines 216-218: the forEach over the four array fields. *)
Definition normalizeArrays (parsed : value) : completion value :=
  parsed <- ensureArray parsed (js "strengths") ;;
  parsed <- ensureArray parsed (js "missingPoints") ;;
  parsed <- ensureArray parsed (js "improvements") ;;
  ensureArray parsed (js "suggestedOutline").

(** Lines 212-218 *)
Definition normalizeResult (maxScore : num) (parsed : value) : completion value :=
  parsed <- normalizeScore maxScore parsed ;;
  normalizeArrays parsed.

(** Lines 199-220: from the raw reply to the returned object. *)
Definition gradeReply (maxScore : num) (raw : value) : completion value :=
  let parsed := safeJsonParse raw in
  if negb (truthy parsed) then Return (fallbackReturn maxScore raw)
  else
    result <- normalizeResult maxScore parsed ;;
    Return (VObject [(js "result", result); (js "raw", raw)]).

(** Lines 191-197: [provider === "google"], [provider === "claude"]. *)
Definition selectAdapter (provider : value) : Server.Adapter :=
  match provider with
  | VString p => if str_eqb p (js "google") then Server.Google
                 else if str_eqb p (js "claude") then Server.Claude
                 else Server.OpenAI
  | _ => Server.OpenAI
  end.

(** The model name reaches the OpenAI and the Claude adapter only inside
    the serialised body of the request, which is not modelled. *)
Definition callAdapter (a : Server.Adapter) (apiKey : jsstring) (model : value)
  (fetched : completion Response) : completion value :=
  match a with
  | Server.Google => callGoogle apiKey model fetched
  | Server.Claude => callClaude apiKey fetched
  | Server.OpenAI => callOpenAI apiKey fetched
  end.

(** gradeAnswer({ question, answer, provider, model, apiKey, elapsedSeconds }) *)
Definition gradeAnswer (question : Question) (answer : jsstring) (provider : value)
  (model : value) (apiKey : jsstring) (elapsedSeconds : value)
  (fetched : completion Response) : completion value :=
  maxScore <- Server.maxScoreOf question ;;
  let messages := buildGradingMessages question answer maxScore elapsedSeconds in
  raw <- callAdapter (selectAdapter provider) apiKey model fetched ;;
  gradeReply maxScore raw.

End Static.


(* ================================================================== *)
(** ** Notions used to state the properties *)
(* ================================================================== *)

(** An object or an array: what typeof calls "object", null apart. *)
Definition objectShaped (v : value) : bool :=
  match v with VArray _ _ | VObject _ => true | _ => false end.

(** The effect of a successful [o.k = v] on an object or array. *)
Definition put (o : value) (k : jsstring) (v : value) : value :=
  match o with
  | VArray items own => VArray items (assoc_set k v own)
  | VObject props => VObject (assoc_set k v props)
  | _ => o
  end.

(** The array a field ends up with: the incoming array, else the empty one. *)
Definition arrayOrEmpty (v : value) : value := if isArray v then v else empty_array.

Definition isString (v : value) : bool :=
  match v with VString _ => true | _ => false end.


(** [x] occurs in [s] as a contiguous piece. *)
Definition occurs (x s : jsstring) : Prop := exists pre post, s = pre ++ x ++ post.

Definition has_char (c : char16) (s : jsstring) : bool := existsb (N.eqb c) s.

(** The text the fenced round trip starts from. *)
Definition fenced (s : jsstring) : jsstring :=
  fence ++ js "json" ++ [c_nl] ++ s ++ [c_nl] ++ fence.

(** Quotes in source literals are written as apostrophes below. *)
Definition dq (s : string) : jsstring :=
  map (fun c => if (c =? 39)%N then c_quote else c) (js s).

(** The clamp [Math.max(0, Math.min(maxScore, n))] of both normalisers. *)
Definition clampScore (maxScore n : num) : num :=
  Math_max pZero (Math_min maxScore n).

Definition ensuredArray (o : value) (k : jsstring) : value :=
  if isArray (GetOpt o k) then o else put o k empty_array.

Definition ensuredObject (o : value) (k : jsstring) (dflt : value) : value :=
  if truthy (GetOpt o k) && objectShaped (GetOpt o k) then o else put o k dflt.

(** The score the server clamps: the model's score when it is a finite
    number, zero otherwise. *)
Definition finiteScore (v : value) : num :=
  match v with
  | VNumber n => if num_isFinite n then n else pZero
  | _ => pZero
  end.

(** The score the browser build clamps: [Number(score) || 0]. *)
Definition numberOrZero (n : num) : num := if truthy (VNumber n) then n else pZero.

(** [r] is [o] with only the properties named in [keys] touched. *)
Definition sameExcept (keys : list jsstring) (o r : value) : Prop :=
  objectShaped r = true /\ isArray r = isArray o
  /\ forall k, forallb (fun k' => negb (str_eqb k k')) keys = true ->
               GetOpt r k = GetOpt o k.

Definition normalizedArrays (o : value) : value :=
  ensuredArray (ensuredArray (ensuredArray (ensuredArray o (js "strengths"))
    (js "missingPoints")) (js "improvements")) (js "suggestedOutline").

Definition arrayKeys : list jsstring :=
  [js "strengths"; js "missingPoints"; js "improvements"; js "suggestedOutline"].

(** [x] when it is an object or array, [dflt] otherwise. *)
Definition objectOr (x dflt : value) : value :=
  if truthy x && objectShaped x then x else dflt.

Definition normalizedBooklist (b0 : value) : value :=
  ensuredArray (ensuredArray (objectOr b0 Server.emptyBooklist) (js "topics"))
               (js "refsToReview").

(** The prompt kept by the normaliser. *)
Definition stringOrEmpty (v : value) : value :=
  match v with VString s => VString s | _ => VString [] end.

(** The minutes computed by [clampNumber(t, 5, 120, 15)] from [Number(t)]. *)
Definition clampedMinutes (n : num) : num :=
  if num_isFinite n then Math_min (num_of_Z 120) (Math_max (num_of_Z 5) n)
  else num_of_Z 15.

(** The nextDrill object left by lines 475-476 from the object [d1] they
    work on, when Number(timeboxMinutes) is [n]. *)
Definition normalizedDrill (d1 : value) (n : num) : value :=
  put (match GetOpt d1 (js "prompt") with
       | VString _ => d1
       | _ => put d1 (js "prompt") (VString [])
       end)
      (js "timeboxMinutes") (VNumber (clampedMinutes n)).

(** The nextDrill object the last stage works on. *)
Definition drillOf (parsed : value) : value :=
  objectOr (GetOpt parsed (js "nextDrill")) Server.defaultDrill.

(** What the server normaliser guarantees about its result [r] for the
    parsed value [o] when Number(timeboxMinutes) is [n]. *)
Definition serverNormalized (maxScore : num) (o r : value) (n : num) : Prop :=
  objectShaped r = true /\ isArray r = isArray o
  /\ GetOpt r (js "maxScore") = VNumber maxScore
  /\ GetOpt r (js "score")
     = VNumber (clampScore maxScore (finiteScore (GetOpt o (js "score"))))
  /\ GetOpt r (js "strengths") = arrayOrEmpty (GetOpt o (js "strengths"))
  /\ GetOpt r (js "missingPoints") = arrayOrEmpty (GetOpt o (js "missingPoints"))
  /\ GetOpt r (js "improvements") = arrayOrEmpty (GetOpt o (js "improvements"))
  /\ GetOpt r (js "suggestedOutline") = arrayOrEmpty (GetOpt o (js "suggestedOutline"))
  /\ GetOpt r (js "booklistAlignment")
     = normalizedBooklist (GetOpt o (js "booklistAlignment"))
  /\ GetOpt r (js "nextDrill") = normalizedDrill (drillOf o) n
  /\ GetOpt r (js "rationale") = GetOpt o (js "rationale").

(** The same for the browser build, when Number(score) is [n]. *)
Definition staticNormalized (maxScore : num) (o r : value) (n : num) : Prop :=
  objectShaped r = true /\ isArray r = isArray o
  /\ GetOpt r (js "maxScore") = VNumber maxScore
  /\ GetOpt r (js "score") = VNumber (clampScore maxScore (numberOrZero n))
  /\ GetOpt r (js "strengths") = arrayOrEmpty (GetOpt o (js "strengths"))
  /\ GetOpt r (js "missingPoints") = arrayOrEmpty (GetOpt o (js "missingPoints"))
  /\ GetOpt r (js "improvements") = arrayOrEmpty (GetOpt o (js "improvements"))
  /\ GetOpt r (js "suggestedOutline") = arrayOrEmpty (GetOpt o (js "suggestedOutline"))
  /\ sameExcept ([js "maxScore"; js "score"] ++ arrayKeys) o r.

Definition five : num := num_of_Z 5.
Definition onehundredtwenty : num := num_of_Z 120.

(** The score the specification describes: the model's score coerced to a
    number, zero when that is not finite, clamped to [0, maxScore]. *)
Definition spec_score (maxScore : num) (modelScore : value) : completion num :=
  n <- ToNumber modelScore ;;
  Return (clampScore maxScore (if num_isFinite n then n else pZero)).

(** The score rule as the specification words it, for a normaliser
    [normalize]. *)
Definition score_as_specified (normalize : num -> value -> completion value)
  (maxScore : num) (parsed : value) : Prop :=
  num_leb pZero maxScore = true ->
  exists r s, normalize maxScore parsed = Return r
    /\ Get r (js "maxScore") = Return (VNumber maxScore)
    /\ spec_score maxScore (GetOpt parsed (js "score")) = Return s
    /\ Get r (js "score") = Return (VNumber s).

(** What the code guarantees instead, server and browser. *)
Definition score_normalized (maxScore : num) (parsed : value) : Prop :=
  (exists p, Server.normalizeScore maxScore parsed = Return p
     /\ Get p (js "maxScore") = Return (VNumber maxScore)
     /\ Get p (js "score")
        = Return (VNumber (clampScore maxScore (finiteScore (GetOpt parsed (js "score"))))))
  /\ match Server.normalizeResult maxScore parsed with
     | Return r =>
       Get r (js "maxScore") = Return (VNumber maxScore)
       /\ exists s, Get r (js "score") = Return (VNumber s)
            /\ s = clampScore maxScore (finiteScore (GetOpt parsed (js "score")))
            /\ num_leb pZero s = true /\ num_leb s maxScore = true
     | Throw e => ToNumber (GetOpt (drillOf parsed) (js "timeboxMinutes")) = Throw e
     end
  /\ match Static.normalizeResult maxScore parsed with
     | Return r =>
       Get r (js "maxScore") = Return (VNumber maxScore)
       /\ exists n s, ToNumber (GetOpt parsed (js "score")) = Return n
            /\ Get r (js "score") = Return (VNumber s)
            /\ s = clampScore maxScore (numberOrZero n)
            /\ num_leb pZero s = true /\ num_leb s maxScore = true
     | Throw e => ToNumber (GetOpt parsed (js "score")) = Throw e
     end.

Definition score_as_string : value := VObject [(js "score", VString (js "15"))].

Definition sample_reply : value :=
  VObject [(js "score", VNumber (num_of_Z 25)); (js "rationale", VString (js "ok"))].




(** The output contract of §3 on a result [r]. *)
Definition arrays_present (r : value) : Prop :=
  forall k, In k arrayKeys -> exists a, Get r k = Return a /\ isArray a = true.

Definition booklist_present (r : value) : Prop :=
  exists b t f, Get r (js "booklistAlignment") = Return b
    /\ objectShaped b = true
    /\ Get b (js "topics") = Return t /\ isArray t = true
    /\ Get b (js "refsToReview") = Return f /\ isArray f = true.

Definition drill_present (r : value) : Prop :=
  exists d p m, Get r (js "nextDrill") = Return d
    /\ objectShaped d = true
    /\ Get d (js "prompt") = Return (VString p)
    /\ Get d (js "timeboxMinutes") = Return (VNumber m)
    /\ num_leb five m = true /\ num_leb m onehundredtwenty = true.

Definition fullyPopulated (maxScore : num) (r : value) : Prop :=
  (exists s, Get r (js "score") = Return (VNumber s))
  /\ Get r (js "maxScore") = Return (VNumber maxScore)
  /\ (exists t, Get r (js "rationale") = Return (VString t))
  /\ arrays_present r /\ booklist_present r /\ drill_present r.

(** The totality rule as the specification words it. *)
Definition result_as_specified (normalize : num -> value -> completion value)
  (maxScore : num) (parsed : value) : Prop :=
  exists r, normalize maxScore parsed = Return r /\ fullyPopulated maxScore r.

(** What the code guarantees instead. *)
Definition result_normalized (maxScore : num) (parsed : value) : Prop :=
  match Server.normalizeResult maxScore parsed with
  | Return r =>
    (exists s, Get r (js "score") = Return (VNumber s))
    /\ Get r (js "maxScore") = Return (VNumber maxScore)
    /\ Get r (js "rationale") = Return (GetOpt parsed (js "rationale"))
    /\ arrays_present r /\ booklist_present r /\ drill_present r
  | Throw e => ToNumber (GetOpt (drillOf parsed) (js "timeboxMinutes")) = Throw e
  end
  /\ match Static.normalizeResult maxScore parsed with
     | Return r =>
       (exists s, Get r (js "score") = Return (VNumber s))
       /\ Get r (js "maxScore") = Return (VNumber maxScore)
       /\ arrays_present r
       /\ forall k, forallb (fun k' => negb (str_eqb k k'))
                      ([js "maxScore"; js "score"] ++ arrayKeys) = true ->
                    Get r k = Return (GetOpt parsed k)
     | Throw e => ToNumber (GetOpt parsed (js "score")) = Throw e
     end.

(** The replacement the specification names for a missing nextDrill. *)
Definition spec_defaultDrill : value :=
  VObject [(js "prompt", VString []); (js "timeboxMinutes", VNumber (num_of_Z 15))].

(** The nextDrill of the result, given the incoming one [d0] and the
    replacement [dflt] used when [d0] is missing or no object. *)
Definition drill_from (dflt d0 d : value) : Prop :=
  if truthy d0 && objectShaped d0 then
    Get d (js "prompt") = Return (stringOrEmpty (GetOpt d0 (js "prompt")))
    /\ exists n, ToNumber (GetOpt d0 (js "timeboxMinutes")) = Return n
         /\ Get d (js "timeboxMinutes") = Return (VNumber (clampedMinutes n))
         /\ num_leb five (clampedMinutes n) = true
         /\ num_leb (clampedMinutes n) onehundredtwenty = true
  else d = dflt.

(** The nextDrill rule as the specification words it. *)
Definition drill_as_specified (normalize : num -> value -> completion value)
  (maxScore : num) (parsed : value) : Prop :=
  exists r d, normalize maxScore parsed = Return r
    /\ Get r (js "nextDrill") = Return d
    /\ drill_from spec_defaultDrill (GetOpt parsed (js "nextDrill")) d.

(** What the code guarantees instead. *)
Definition drill_normalized (maxScore : num) (parsed : value) : Prop :=
  let d0 := GetOpt parsed (js "nextDrill") in
  match Server.normalizeResult maxScore parsed with
  | Return r =>
    exists d, Get r (js "nextDrill") = Return d /\ drill_from Server.defaultDrill d0 d
  | Throw e =>
    truthy d0 && objectShaped d0 = true
    /\ ToNumber (GetOpt d0 (js "timeboxMinutes")) = Throw e
  end.

Definition reply_with_drill : value :=
  VObject [(js "nextDrill",
            VObject [(js "prompt", VNumber (num_of_Z 3));
                     (js "timeboxMinutes", VString (js "300"))])].

(** The reply of the server for a model answer that could not be parsed. *)
Definition fallbackReply (maxScore : num) (raw : jsstring) : Server.Reply :=
  Server.sendJson 200
    (VObject [(js "result", Server.fallbackResult maxScore); (js "raw", VString raw)]).

Definition fallback_returned (maxScore : num) (raw : jsstring) : Prop :=
  Server.gradeReply maxScore raw = Return (fallbackReply maxScore raw)
  /\ Get (Server.fallbackResult maxScore) (js "score") = Return (VNumber pZero)
  /\ Get (Server.fallbackResult maxScore) (js "maxScore") = Return (VNumber maxScore)
  /\ Get (Server.fallbackResult maxScore) (js "rationale")
     = Return (VString Server.fallback_message)
  /\ (forall k, In k arrayKeys ->
        Get (Server.fallbackResult maxScore) k = Return empty_array)
  /\ Get (Server.fallbackResult maxScore) (js "booklistAlignment")
     = Return Server.emptyBooklist
  /\ Get (Server.fallbackResult maxScore) (js "nextDrill") = Return Server.defaultDrill
  /\ Static.gradeReply maxScore (VString raw)
     = Return (VObject [(js "result",
                 VObject [(js "score", VNumber pZero);
                          (js "maxScore", VNumber maxScore);
                          (js "rationale", VString Static.fallback_message);
                          (js "raw", VString raw)])]).





Definition nonObject (v : value) : bool :=
  match v with VObject _ => false | _ => true end.

(** The rule for top-level non-objects as the specification words it. *)
Definition non_object_as_specified (maxScore : num) (raw : jsstring) : Prop :=
  nonObject (safeJsonParse (VString raw)) = true ->
  Server.gradeReply maxScore raw = Return (fallbackReply maxScore raw).

(** The named properties the browser normaliser attaches to an array that
    carries none, and those the server normaliser attaches. *)
Definition staticArrayFields (maxScore : num) : list (jsstring * value) :=
  [(js "maxScore", VNumber maxScore);
   (js "score", VNumber (clampScore maxScore pZero));
   (js "strengths", empty_array);
   (js "missingPoints", empty_array);
   (js "improvements", empty_array);
   (js "suggestedOutline", empty_array)].

Definition arrayFields (maxScore : num) : list (jsstring * value) :=
  staticArrayFields maxScore
  ++ [(js "booklistAlignment", Server.emptyBooklist);
      (js "nextDrill", Server.defaultDrill)].

(** What the code does with a top-level value that is no plain object: the
    fallback for a falsy one; an array goes through the normaliser, which
    leaves its elements alone and attaches its fields as named properties,
    and is returned as the result; what the server sends is the
    serialisation, in which an array has elements only. *)
Definition top_level_handled (maxScore : num) (raw : jsstring) : Prop :=
  (truthy (safeJsonParse (VString raw)) = false -> fallback_returned maxScore raw)
  /\ forall items own,
       safeJsonParse (VString raw) = VArray items own ->
       own = []
       /\ Server.normalizeResult maxScore (VArray items [])
          = Return (VArray items (arrayFields maxScore))
       /\ Server.gradeReply maxScore raw
          = Return (Server.sendJson 200
              (VObject [(js "result", VArray items (arrayFields maxScore));
                        (js "raw", VString raw)]))
       /\ Server.wire (Server.sendJson 200
              (VObject [(js "result", VArray items (arrayFields maxScore));
                        (js "raw", VString raw)]))
          = JSON_stringify (VObject [(js "result", VArray items []);
                                     (js "raw", VString raw)])
       /\ Static.normalizeResult maxScore (VArray items [])
          = Return (VArray items (staticArrayFields maxScore))
       /\ Static.gradeReply maxScore (VString raw)
          = Return (VObject [(js "result", VArray items (staticArrayFields maxScore));
                             (js "raw", VString raw)]).



(** Exactly a system and a user message, the latter quoting the answer
    and the point value as the number prints. *)
Definition grading_messages (msgs : list ChatMessage) (answer : jsstring)
  (maxScore : num) : Prop :=
  exists sys usr, msgs = [sys; usr]
    /\ role sys = js "system" /\ role usr = js "user"
    /\ occurs answer (content usr)
    /\ occurs (NumberToString maxScore) (content usr).

(** A vendor response whose text is only white space, in the three shapes
    the adapters read. *)
Definition blank : value := VString (js "   ").

Definition blank_openai : Response :=
  {| ok := true; status := 200;
     json := Some (VObject [(js "choices",
               VArray [VObject [(js "message",
                                 VObject [(js "content", blank)])]] [])]) |}.

Definition blank_google : Response :=
  {| ok := true; status := 200;
     json := Some (VObject [(js "candidates",
               VArray [VObject [(js "content",
                 VObject [(js "parts", VArray [VObject [(js "text", blank)]] [])])]] [])]) |}.

Definition blank_claude : Response :=
  {| ok := true; status := 200;
     json := Some (VObject [(js "content", VArray [VObject [(js "text", blank)]] [])]) |}.

Definition no_env : Env :=
  {| OPENAI_API_KEY := None; GOOGLE_API_KEY := None; GEMINI_API_KEY := None;
     ANTHROPIC_API_KEY := None; OPENAI_MODEL := None; GOOGLE_MODEL := None;
     CLAUDE_MODEL := None; ANTHROPIC_MODEL := None |}.

Definition some_key : jsstring := js "sk-0123456789abcdefghij".

(** The test of the server adapters on the extracted text:
    [typeof text !== "string" || !text.trim()]. *)
Definition isBlank (text : value) : bool :=
  match text with
  | VString s => match trim s with [] => true | _ => false end
  | _ => true
  end.

(** The empty-reply rule as the specification words it, for an adapter
    applied to what the fetch yields: a blank reply makes it fail. *)
Definition empty_reply_as_specified (call : completion Response -> completion value)
  (res : Response) : Prop :=
  exists message, call (Return res) = Throw (Error message).

(** The string an element contributes to Array.prototype.join. *)
Definition elementText (x : value) : completion jsstring :=
  match x with
  | VUndefined | VNull => Return []
  | _ => ToString x
  end.

(** The texts of the parts of a vendor response are strings, where they
    are present at all. *)
Definition textsAreStrings (a : Server.Adapter) (data : value) : bool :=
  let parts :=
    match a with
    | Server.OpenAI => VNull
    | Server.Google =>
      GetOpt (GetOpt (GetIndexOpt (GetOpt data (js "candidates")) 0) (js "content"))
             (js "parts")
    | Server.Claude => GetOpt data (js "content")
    end in
  match parts with
  | VArray items _ =>
    forallb (fun t => match t with
                      | VUndefined | VNull | VString _ => true
                      | _ => false
                      end) (part_texts items)
  | _ => true
  end.

(** What the adapters do with a blank reply [res']: the one of the server
    fails with its empty-content error and never returns a blank text; the
    one of the browser build, once it gets as far as the request, returns
    what it reads from the response, and gradeAnswer answers with its
    fallback whenever that is blank, as it is for OpenAI and whenever the
    texts of the parts are strings. *)
Definition blank_reply_handled (a : Server.Adapter) (env : Env) (apiKey : value)
  (model : jsstring) (res' : Response) : Prop :=
  Server.callAdapter a env apiKey model (Return res') = Throw (Server.emptyContent a)
  /\ (forall fetched t, Server.callAdapter a env apiKey model fetched = Return t ->
                        trim t <> [])
  /\ (forall key bmodel res0 v0,
        Static.callAdapter a key bmodel (Return res0) = Return v0 ->
        exists v,
          Static.callAdapter a key bmodel (Return res') = Return v
          /\ Static.extractText a (response_data res') = Return v
          /\ (textsAreStrings a (response_data res') = true -> isBlank v = true)
          /\ (isBlank v = true ->
              forall question answer provider elapsedSeconds maxScore,
                Static.selectAdapter provider = a ->
                Server.maxScoreOf question = Return maxScore ->
                Static.gradeAnswer question answer provider bmodel key elapsedSeconds
                  (Return res')
                = Return (Static.fallbackReturn maxScore v))).

Definition good_openai : Response :=
  {| ok := true; status := 200;
     json := Some (VObject [(js "choices",
               VArray [VObject [(js "message",
                                 VObject [(js "content", VString (js "{}"))])]] [])]) |}.

Definition good_google : Response :=
  {| ok := true; status := 200;
     json := Some (VObject [(js "candidates",
               VArray [VObject [(js "content",
                 VObject [(js "parts",
                   VArray [VObject [(js "text", VString (js "{}"))]] [])])]] [])]) |}.

(** The last code unit, if any, is no white space. *)
Fixpoint endsClean (s : jsstring) : bool :=
  match s with
  | [] => true
  | c :: r => match r with [] => negb (isWhiteSpace c) | _ => endsClean r end
  end.

Fixpoint noFence (s : jsstring) : bool :=
  negb (startsWith s fence)
  && match s with [] => true | _ :: r => noFence r end.

Definition closing : jsstring := c_nl :: fence.

(** A code unit with which a JSON value can begin. *)
Definition startsValue (c : char16) : bool :=
  existsb (N.eqb c) (c_lbrace :: c_quote :: js "[tfn-0123456789").

(** The round trip as the specification words it, [s] being the compact
    serialisation of [v]. *)
Definition round_trip_as_specified (v : value) (prefix suffix : jsstring) : Prop :=
  forall s, JSON_stringify v = Some s ->
    safeJsonParse (VString (fenced s)) = v
    /\ safeJsonParse (VString (prefix ++ s ++ suffix)) = v.

(** What the extractor guarantees for a JSON text [s] of [v]: [v] comes
    back from [s] itself, however much white space surrounds it; from the
    fenced text when [s] holds no fence; and, for an object, from
    [prefix ++ s ++ suffix] with no brace outside [s], unless one of the two
    earlier attempts succeeds on that text, whose value is then returned.
    Neither does when the text holds no fence and begins, after white
    space, with something no JSON value begins with. *)
Definition round_trip (v : value) (s : jsstring) : Prop :=
  (forall before after,
     forallb isWhiteSpace before = true -> forallb isWhiteSpace after = true ->
     safeJsonParse (VString (before ++ s ++ after)) = v)
  /\ (includes s fence = false -> safeJsonParse (VString (fenced s)) = v)
  /\ (forall prefix suffix mid,
       s = c_lbrace :: mid ++ [c_rbrace] ->
       has_char c_lbrace prefix = false -> has_char c_rbrace suffix = false ->
       safeJsonParse (VString (prefix ++ s ++ suffix))
       = match JSON_parse (trim (prefix ++ s ++ suffix)) with
         | Some direct => direct
         | None =>
           match parseFenced (trim (prefix ++ s ++ suffix)) with
           | Some inFence => inFence
           | None => v
           end
         end)
  /\ forall prefix suffix mid c p,
       s = c_lbrace :: mid ++ [c_rbrace] ->
       has_char c_lbrace prefix = false -> has_char c_rbrace suffix = false ->
       trimStart prefix = c :: p -> startsValue c = false ->
       includes (prefix ++ s ++ suffix) fence = false ->
       safeJsonParse (VString (prefix ++ s ++ suffix)) = v.

Definition one_field : value := VObject [(js "a", VNumber (num_of_Z 1))].

Definition sample_text : jsstring := dq "{'score':25,'rationale':'ok'}".

(* ================================================================== *)
(** ** server.js: the notes, the environment file and the request *)
(* ================================================================== *)

(** *** loadDotEnv *)

(** The environment of the process: the variables in the order of their
    definition.  The operating system keeps names and values as C strings
    in UTF-8. *)
Definition ProcessEnv := list (jsstring * jsstring).

Fixpoint env_get (k : jsstring) (env : ProcessEnv) : option jsstring :=
  match env with
  | [] => None
  | (k', v) :: r => if str_eqb k k' then Some v else env_get k r
  end.

(** The text up to the first NUL. *)
Fixpoint untilNul (s : jsstring) : jsstring :=
  match s with
  | [] => []
  | c :: r => if (c =? 0)%N then [] else c :: untilNul r
  end.

(** String.prototype.toWellFormed: every surrogate that is not part of a
    pair becomes U+FFFD, as in the conversion to UTF-8. *)
Fixpoint toWellFormed (s : jsstring) : jsstring :=
  match s with
  | [] => []
  | c :: rest =>
    if isHighSurrogate c then
      match rest with
      | d :: rest' =>
        if isLowSurrogate d then c :: d :: toWellFormed rest'
        else 65533%N :: toWellFormed rest
      | [] => [65533%N]
      end
    else if isLowSurrogate c then 65533%N :: toWellFormed rest
    else c :: toWellFormed rest
  end.

(** What is left of a name or a value handed to the environment: process.env
    converts it to UTF-8 and the C library reads it up to the first NUL. *)
Definition cstring (s : jsstring) : jsstring := toWellFormed (untilNul s).

(** The variable process.env[k] reads: that of the C string of [k]. *)
Definition getenv (k : jsstring) (env : ProcessEnv) : option jsstring :=
  env_get (cstring k) env.

(** [process.env[k] = v]: setenv with the C strings of the name and the
    value; it fails, and nothing is set, when the name is empty. *)
Definition setenv (k v : jsstring) (env : ProcessEnv) : ProcessEnv :=
  match cstring k with
  | [] => env
  | name => env ++ [(name, cstring v)]
  end.

(** process.env inherits from Object.prototype: these names read as
    functions (or as the prototype) whether or not a variable is set. *)
Definition objectPrototypeKeys : list jsstring :=
  [js "constructor"; js "__defineGetter__"; js "__defineSetter__";
   js "hasOwnProperty"; js "__lookupGetter__"; js "__lookupSetter__";
   js "isPrototypeOf"; js "propertyIsEnumerable"; js "toString"; js "valueOf";
   js "__proto__"; js "toLocaleString"].

(** [process.env[key] != null]: a variable of that name, or else a property
    of that very name on the prototype. *)
Definition env_has (k : jsstring) (env : ProcessEnv) : bool :=
  match getenv k env with
  | Some _ => true
  | None => existsb (str_eqb k) objectPrototypeKeys
  end.

(** [raw.split(/\r?\n/)]: [cur] holds the current line in reverse. *)
Fixpoint splitLines_from (s : jsstring) (cur : jsstring) : list jsstring :=
  match s with
  | [] => [rev cur]
  | c :: r =>
    if (c =? 10)%N then rev cur :: splitLines_from r []
    else match r with
         | c' :: r' =>
           if ((c =? 13) && (c' =? 10))%N then rev cur :: splitLines_from r' []
           else splitLines_from r (c :: cur)
         | [] => splitLines_from r (c :: cur)
         end
  end.

Definition splitLines (raw : jsstring) : list jsstring := splitLines_from raw [].

(** The key and value a line of the file defines, if any (lines 92-98). *)
Definition parseEnvLine (line : jsstring) : option (jsstring * jsstring) :=
  let trimmed := trim line in
  match trimmed with
  | [] => None
  | _ =>
    if startsWith trimmed (js "#") then None
    else
      let idx := indexOf trimmed (js "=") in
      if idx =? -1 then None
      else
        let key := trim (slice trimmed 0 idx) in
        let value := trim (slice_from trimmed (idx + 1)) in
        match key with
        | [] => None
        | _ => Some (key, value)
        end
  end.

(** One turn of the loop (lines 91-101). *)
Definition loadEnvLine (env : ProcessEnv) (line : jsstring) : ProcessEnv :=
  match parseEnvLine line with
  | Some (key, value) => if env_has key env then env else setenv key value env
  | None => env
  end.

(** loadDotEnv(): [file] is the text of .env, [None] when the file does not
    exist; the result is process.env afterwards. *)
Definition loadDotEnv (file : option jsstring) (env : ProcessEnv) : ProcessEnv :=
  match file with
  | None => env
  | Some raw => fold_left loadEnvLine (splitLines raw) env
  end.

(** The environment the adapters see.  The default models are constants
    computed at lines 14-16, before loadDotEnv() runs at line 104; the keys
    are read from process.env at each call (lines 186, 233 and 271). *)
Definition serverEnv (atStart : ProcessEnv) (file : option jsstring) : Env :=
  let loaded := loadDotEnv file atStart in
  {| OPENAI_API_KEY := getenv (js "OPENAI_API_KEY") loaded;
     GOOGLE_API_KEY := getenv (js "GOOGLE_API_KEY") loaded;
     GEMINI_API_KEY := getenv (js "GEMINI_API_KEY") loaded;
     ANTHROPIC_API_KEY := getenv (js "ANTHROPIC_API_KEY") loaded;
     OPENAI_MODEL := getenv (js "OPENAI_MODEL") atStart;
     GOOGLE_MODEL := getenv (js "GOOGLE_MODEL") atStart;
     CLAUDE_MODEL := getenv (js "CLAUDE_MODEL") atStart;
     ANTHROPIC_MODEL := getenv (js "ANTHROPIC_MODEL") atStart |}.

(** *** The request of the grade endpoint *)

(** What the handlers of readRequestBody leave behind: how the promise is
    settled, and whether req.destroy() was called, which destroys the
    socket of the request. *)
Record Received : Type := { settled : completion (list N); destroyed : bool }.

(** The "data" events of the request in order, followed by "end" (a stream
    that fails is not modelled).  The bytes are kept; their decoding as
    UTF-8 is left to the caller. *)
Fixpoint receive (maxBytes : Z) (chunks : list (list N)) (size : Z)
  (received : list (list N)) : Received :=
  match chunks with
  | [] => {| settled := Return (List.concat (rev received)); destroyed := false |}
  | chunk :: rest =>
    let size := size + Z.of_nat (List.length chunk) in
    if maxBytes <? size
    then {| settled := Throw (Error (js "Request body too large")); destroyed := true |}
    else receive maxBytes rest size (chunk :: received)
  end.

(** readRequestBody(req, maxBytes): what the awaited promise yields. *)
Definition readRequestBody (chunks : list (list N)) (maxBytes : Z)
  : completion (list N) :=
  settled (receive maxBytes chunks 0 []).

(** Whether the socket of the request is destroyed once the body is read. *)
Definition socketDestroyed (chunks : list (list N)) (maxBytes : Z) : bool :=
  destroyed (receive maxBytes chunks 0 []).

(** readJson(req), with the default limit; [utf8] is the decoder of
    Buffer.toString. *)
Definition readJson (utf8 : list N -> jsstring) (chunks : list (list N))
  : completion value :=
  bytes <- readRequestBody chunks 1000000 ;;
  match JSON_parse (utf8 bytes) with
  | Some v => Return v
  | None => Throw (Error (js "Invalid JSON"))
  end.

(** Lines 396-402 of handleGrade: the fields read from the body. *)
Record GradeRequest : Type := {
  req_setId : jsstring;
  req_questionId : jsstring;
  req_provider : jsstring;
  req_model : jsstring;
  req_apiKey : jsstring;
  req_answer : jsstring;
  req_elapsedSeconds : num
}.

Definition readGradeRequest (env : Env) (body : value) : completion GradeRequest :=
  v <- Get body (js "setId") ;;
  s <- ToString (or_else v (VString [])) ;;
  let setId := trim s in
  v <- Get body (js "questionId") ;;
  s <- ToString (or_else v (VString [])) ;;
  let questionId := trim s in
  v <- Get body (js "provider") ;;
  provider <- Server.normalizeProvider v ;;
  v <- Get body (js "model") ;;
  model <- Server.normalizeModel env provider v ;;
  v <- Get body (js "apiKey") ;;
  let apiKey := match v with VString k => trim k | _ => [] end in
  v <- Get body (js "answer") ;;
  s <- ToString (or_else v (VString [])) ;;
  let answer := trim s in
  v <- Get body (js "elapsedSeconds") ;;
  elapsedSeconds <- clampNumber v pZero (num_of_Z (24 * 60 * 60)) pZero ;;
  Return {| req_setId := setId; req_questionId := questionId;
            req_provider := provider; req_model := model; req_apiKey := apiKey;
            req_answer := answer; req_elapsedSeconds := elapsedSeconds |}.

(** The message of a caught exception: that of an Error the code threw,
    else the text [engine] gives a built-in error. *)
Definition message_of (engine : exn -> jsstring) (e : exn) : jsstring :=
  match e with
  | Error m => m
  | _ => engine e
  end.

(** What the listener does with a request: the reply it writes, and
    whether it writes it on the intact socket; a reply written after
    req.destroy() reaches nobody. *)
Record Exchange : Type := { written : Server.Reply; onSocket : bool }.

(** The request listener on POST /api/grade (lines 504, 531-533 and
    537-540): the reply of handleGrade, or status 500 with the message of
    what was thrown. *)
Definition gradeListener (engine : exn -> jsstring) (env : Env)
  (bank : jsstring -> completion (list Question))
  (notes : jsstring -> completion jsstring)
  (fetched : completion Response) (utf8 : list N -> jsstring)
  (chunks : list (list N)) : Exchange :=
  {| written :=
       match (body <- readJson utf8 chunks ;;
              Server.handleGrade env bank notes fetched body) with
       | Return reply => reply
       | Throw e =>
         Server.sendJson 500
           (VObject [(js "error",
                      or_else (VString (message_of engine e)) (vstr "Internal error"))])
       end;
     onSocket := negb (socketDestroyed chunks 1000000) |}.

(* ================================================================== *)
(** ** app.js: showing the result *)
(* ================================================================== *)

Module App.

(** [x?.length] *)
Definition lengthOpt (x : value) : value := GetOpt x (js "length").

(** [x.join(sep)]: only arrays have the method, and an own property of
    that name (never callable in JSON data) would shadow it. *)
Definition joinCall (x : value) (sep : jsstring) : completion jsstring :=
  match x with
  | VArray items own =>
    if has_key (js "join") own then Throw TypeError else join_values sep items
  | _ => Throw TypeError
  end.

(** The block renderResult adds for a list field. *)
Definition listBlock (title : string) (x : value) : completion (list jsstring) :=
  if truthy (lengthOpt x) then
    s <- joinCall x (c_nl :: js "- ") ;;
    Return [[c_nl] ++ js title ++ [c_nl] ++ js "- " ++ s]
  else Return [].

(** renderResult(obj): the text put in the result pane, [None] when
    nothing is rendered. *)
Definition renderResult (obj : value) : completion (option jsstring) :=
  if negb (truthy obj) then Return None
  else
    v <- Get obj (js "score") ;;
    score <- ToString v ;;
    v <- Get obj (js "maxScore") ;;
    maxScore <- ToString v ;;
    v <- Get obj (js "rationale") ;;
    rationale <- ToString v ;;
    v <- Get obj (js "strengths") ;;
    strengths <- listBlock "**Strengths**:" v ;;
    v <- Get obj (js "improvements") ;;
    improvements <- listBlock "**Improvements**:" v ;;
    Return (Some (join [c_nl]
      ([js "### Score: " ++ score ++ js "/" ++ maxScore;
        [c_nl] ++ js "**Rationale**:" ++ [c_nl] ++ rationale]
       ++ strengths ++ improvements))).

End App.

(* ================================================================== *)
(** ** Notions used to state the further properties *)
(* ================================================================== *)

(** The environment variables an adapter falls back on, in order. *)
Definition envKeys (a : Server.Adapter) (env : Env) : list (option jsstring) :=
  match a with
  | Server.OpenAI => [OPENAI_API_KEY env]
  | Server.Google => [GOOGLE_API_KEY env; GEMINI_API_KEY env]
  | Server.Claude => [ANTHROPIC_API_KEY env]
  end.

(** The variable an adapter looks up first, and its value. *)
Definition keyName (a : Server.Adapter) : jsstring :=
  match a with
  | Server.OpenAI => js "OPENAI_API_KEY"
  | Server.Google => js "GOOGLE_API_KEY"
  | Server.Claude => js "ANTHROPIC_API_KEY"
  end.

Definition primaryKey (a : Server.Adapter) (env : Env) : option jsstring :=
  match a with
  | Server.OpenAI => OPENAI_API_KEY env
  | Server.Google => GOOGLE_API_KEY env
  | Server.Claude => ANTHROPIC_API_KEY env
  end.

(** What the server adapters throw when no key can be resolved. *)
Definition missingKey (a : Server.Adapter) : exn :=
  Error (match a with
         | Server.OpenAI =>
           js "Missing OpenAI API key (set env OPENAI_API_KEY or input it in the UI)"
         | Server.Google =>
           js "Missing Google API key (set env GOOGLE_API_KEY/GEMINI_API_KEY or input it in the UI)"
         | Server.Claude =>
           js "Missing Anthropic API key (set env ANTHROPIC_API_KEY or input it in the UI)"
         end).

Definition invalidKey (a : Server.Adapter) : exn :=
  Error (js (Server.vendor a) ++ js " API key format looks invalid").

(** The key format the server adapters insist on. *)
Definition wellFormedKey (a : Server.Adapter) (key : jsstring) : bool :=
  match a with
  | Server.OpenAI => startsWith key (js "sk-") && (20 <=? List.length key)%nat
  | Server.Google => true
  | Server.Claude => (20 <=? List.length key)%nat
  end.

(** What a server adapter does once its key is resolved to [key]: the
    test of the format, for Google the model name and the address, then
    the request. *)
Definition keyed (a : Server.Adapter) (key model : jsstring)
  (fetched : completion Response) : completion jsstring :=
  if wellFormedKey a key
  then match a with
       | Server.Google =>
         safeModel <- Server.sanitizeGoogleModel (VString model) ;;
         url <- googleUrl safeModel key ;;
         Server.readReply a fetched
       | _ => Server.readReply a fetched
       end
  else Throw (invalidKey a).

(** [data?.error?.message] of a response. *)
Definition vendorMessage (res : Response) : value :=
  GetOpt (GetOpt (response_data res) (js "error")) (js "message").

Definition statusMessage (a : Server.Adapter) (res : Response) : jsstring :=
  js (Server.vendor a) ++ js " API error (" ++ NumberToString (num_of_Z (status res))
    ++ js ")".

(** What an adapter that got as far as the request makes of a fetch that
    fails and of a response that is not ok. *)
Definition reports_failures (a : Server.Adapter)
  (call : completion Response -> completion value) : Prop :=
  (forall e, call (Throw e) = Throw e)
  /\ (forall res c m,
        ok res = false -> vendorMessage res = VString (c :: m) ->
        call (Return res) = Throw (Error (c :: m)))
  /\ (forall res,
        ok res = false -> truthy (vendorMessage res) = false ->
        call (Return res) = Throw (Error (statusMessage a res))).

(** A number within [lo, hi] that is not the negative zero. *)
Definition within (lo hi s : num) : Prop :=
  num_leb lo s = true /\ num_leb s hi = true /\ s <> nZero.

(** A result as the server normaliser leaves it: the score a finite number
    within [0, maxScore], the four lists and the two lists of
    booklistAlignment arrays, nextDrill an object with a string prompt and
    a time box within [5, 120]. *)
Definition normalForm (maxScore : num) (r : value) : Prop :=
  objectShaped r = true
  /\ GetOpt r (js "maxScore") = VNumber maxScore
  /\ (exists s, GetOpt r (js "score") = VNumber s /\ num_isFinite s = true
                /\ within pZero maxScore s)
  /\ (forall k, In k arrayKeys -> isArray (GetOpt r k) = true)
  /\ (objectShaped (GetOpt r (js "booklistAlignment")) = true
      /\ isArray (GetOpt (GetOpt r (js "booklistAlignment")) (js "topics")) = true
      /\ isArray (GetOpt (GetOpt r (js "booklistAlignment")) (js "refsToReview")) = true)
  /\ (objectShaped (GetOpt r (js "nextDrill")) = true
      /\ isString (GetOpt (GetOpt r (js "nextDrill")) (js "prompt")) = true
      /\ exists m, GetOpt (GetOpt r (js "nextDrill")) (js "timeboxMinutes") = VNumber m
                   /\ within five onehundredtwenty m).

(** The same for the browser build, which leaves nextDrill and
    booklistAlignment alone. *)
Definition staticNormalForm (maxScore : num) (r : value) : Prop :=
  objectShaped r = true
  /\ GetOpt r (js "maxScore") = VNumber maxScore
  /\ (exists s, GetOpt r (js "score") = VNumber s /\ within pZero maxScore s)
  /\ (forall k, In k arrayKeys -> isArray (GetOpt r k) = true).

(** The elements of an array. *)
Definition itemsOf (v : value) : list value :=
  match v with VArray items _ => items | _ => [] end.

(** [r] is [o] after a sequence of assignments to properties named in
    [keys], and nothing else. *)
Definition writes (keys : list jsstring) (o r : value) : Prop :=
  exists l : list (jsstring * value),
    Forall (fun kv => In (fst kv) keys) l
    /\ r = fold_left (fun acc kv => put acc (fst kv) (snd kv)) l o.

(** The property names the server normaliser writes. *)
Definition normalizedKeys : list jsstring :=
  [js "maxScore"; js "score"] ++ arrayKeys ++ [js "booklistAlignment"; js "nextDrill"].

Definition well_formed_reply : value :=
  VObject
    [(js "score", VNumber (num_of_Z 12));
     (js "maxScore", VNumber (num_of_Z 20));
     (js "rationale", VString (js "ok"));
     (js "strengths", VArray [VString (js "clear")] []);
     (js "missingPoints", empty_array);
     (js "improvements", empty_array);
     (js "suggestedOutline", empty_array);
     (js "booklistAlignment",
      VObject [(js "topics", empty_array); (js "refsToReview", empty_array)]);
     (js "nextDrill",
      VObject [(js "prompt", VString (js "next")); (js "timeboxMinutes", VNumber (num_of_Z 30))])].

(** The number of bytes of a request body received in [chunks]. *)
Definition totalBytes (chunks : list (list N)) : Z :=
  Z.of_nat (List.length (List.concat chunks)).

(** A request body with the given fields, as the browser sends it. *)
Definition grade_body (setId questionId answer : string) : value :=
  VObject [(js "setId", vstr setId); (js "questionId", vstr questionId);
           (js "provider", vstr "openai"); (js "answer", vstr answer)].

Definition sample_question : Question :=
  {| id := js "q1"; section := js "A"; points := VNumber (num_of_Z 20);
     text := js "Define validity."; booklistTopics := Some [js "validity"];
     noteHeading := Some (js "## Validity") |}.

Definition sample_bank (setId : jsstring) : completion (list Question) :=
  Return [sample_question].

(** A set without notes. *)
Definition no_notes (setId : jsstring) : completion jsstring := Return [].

(** The status codes the grade endpoint answers with. *)
Definition gradeStatus (c : Z) : Prop := c = 200 \/ c = 400 \/ c = 404 \/ c = 500.

(** The names process.env inherits from Object.prototype. *)
Definition inherited (k : jsstring) : bool := existsb (str_eqb k) objectPrototypeKeys.

(** The variables the lines of a .env text define, in order, as the
    environment would keep them: the C strings of the name and of the value
    of every line that has a name, the names process.env inherits and those
    whose C string is empty apart. *)
Definition lineAssignments (lines : list jsstring) : ProcessEnv :=
  flat_map (fun line => match parseEnvLine line with
                        | Some (key, value) =>
                          if inherited key then [] else setenv key value []
                        | None => []
                        end) lines.

Definition dotenvAssignments (raw : jsstring) : ProcessEnv :=
  lineAssignments (splitLines raw).

(** The variable of name [k] after loadDotEnv, given the environment
    before: the one that was set, else the first the file defines. *)
Definition lookupAfterLoad (file : option jsstring) (env : ProcessEnv) (k : jsstring)
  : option jsstring :=
  match env_get k env with
  | Some v => Some v
  | None =>
    match file with
    | Some raw => env_get k (dotenvAssignments raw)
    | None => None
    end
  end.

Definition sample_dotenv : jsstring :=
  js "# keys" ++ [c_nl] ++ js "OPENAI_API_KEY = sk-from-the-file-0123456789" ++ [c_nl]
    ++ js "OPENAI_MODEL=gpt-4o" ++ [c_nl] ++ js "OPENAI_API_KEY=sk-second".

(** The content of the user message of a prompt. *)
Definition userMessage (msgs : list ChatMessage) : jsstring :=
  match msgs with
  | [_; user] => content user
  | _ => []
  end.

(** The block of the prompt that reports the time spent. *)
Definition timeBlock (n : num) : jsstring :=
  js "【作答時間】" ++ [c_nl] ++ NumberToString n ++ js " 秒（僅供參考）".

(** undefined, null, a boolean, a number or a string. *)
Definition primitive (v : value) : bool := negb (objectShaped v).

(** Not an array, or an array of primitives as JSON.parse builds it. *)
Definition plainList (v : value) : bool :=
  match v with
  | VArray items own => forallb primitive items && match own with [] => true | _ => false end
  | _ => true
  end.

Definition sample_notes : jsstring :=
  js "# Notes" ++ [c_nl] ++ js "## Validity" ++ [c_nl] ++ js "Internal and external."
    ++ [c_nl] ++ booklistMarker ++ [c_nl] ++ js "- Babbie (2020)" ++ [c_nl].

(* ================================================================== *)
(** ** Basic facts *)
(* ================================================================== *)

Lemma str_eqb_eq (a b : jsstring) : str_eqb a b = true <-> a = b.
Proof.
  revert b; induction a as [|x a IH]; intros [|y b]; simpl; split; intro H;
    try reflexivity; try discriminate.
  - apply andb_true_iff in H as [Hx Hr]. apply N.eqb_eq in Hx.
    apply IH in Hr. now subst.
  - injection H as -> ->. now rewrite N.eqb_refl, (proj2 (IH b)).
Qed.

Lemma str_eqb_refl (a : jsstring) : str_eqb a a = true.
Proof. now apply str_eqb_eq. Qed.

Lemma str_eqb_neq (a b : jsstring) : a <> b -> str_eqb a b = false.
Proof.
  intro H. destruct (str_eqb a b) eqn:E; [|reflexivity].
  now apply str_eqb_eq in E.
Qed.

Lemma str_eqb_sym (a b : jsstring) : str_eqb a b = str_eqb b a.
Proof.
  destruct (str_eqb a b) eqn:E.
  - apply str_eqb_eq in E. subst. now rewrite str_eqb_refl.
  - destruct (str_eqb b a) eqn:E'; [|reflexivity].
    apply str_eqb_eq in E'. subst. now rewrite str_eqb_refl in E.
Qed.

(** *** Own properties *)

Lemma assoc_replace_same k v props :
  assoc k props <> None -> assoc k (assoc_replace k v props) = Some v.
Proof.
  induction props as [|[k' v'] r IH]; simpl; [congruence|].
  destruct (str_eqb k k') eqn:E; simpl.
  - now rewrite str_eqb_refl.
  - rewrite E. exact IH.
Qed.

Lemma assoc_replace_other k k' v props :
  str_eqb k' k = false -> assoc k' (assoc_replace k v props) = assoc k' props.
Proof.
  intro Hne. induction props as [|[k0 v0] r IH]; simpl; [reflexivity|].
  destruct (str_eqb k k0) eqn:E; simpl.
  - apply str_eqb_eq in E. subst k0. now rewrite Hne.
  - now rewrite IH.
Qed.

Lemma assoc_insert_same k v props :
  assoc k props = None -> assoc k (assoc_insert k v props) = Some v.
Proof.
  induction props as [|[k' v'] r IH]; simpl; intro H.
  - now rewrite str_eqb_refl.
  - destruct (str_eqb k k') eqn:E; [discriminate|].
    destruct (key_before k k'); simpl.
    + now rewrite str_eqb_refl.
    + rewrite E. now apply IH.
Qed.

Lemma assoc_insert_other k k' v props :
  str_eqb k' k = false -> assoc k' (assoc_insert k v props) = assoc k' props.
Proof.
  intro Hne. induction props as [|[k0 v0] r IH]; simpl.
  - now rewrite Hne.
  - destruct (key_before k k0); simpl.
    + now rewrite Hne.
    + now rewrite IH.
Qed.

Lemma assoc_set_same k v props : assoc k (assoc_set k v props) = Some v.
Proof.
  unfold assoc_set. destruct (assoc k props) eqn:E.
  - apply assoc_replace_same. congruence.
  - now apply assoc_insert_same.
Qed.

Lemma assoc_set_other k k' v props :
  str_eqb k' k = false -> assoc k' (assoc_set k v props) = assoc k' props.
Proof.
  intro H. unfold assoc_set. destruct (assoc k props).
  - now apply assoc_replace_other.
  - now apply assoc_insert_other.
Qed.

Lemma Set_shaped strict o k v :
  objectShaped o = true -> Set_ strict o k v = Return (put o k v).
Proof. destruct o; simpl; intro H; try discriminate; reflexivity. Qed.

Lemma Get_shaped o k :
  objectShaped o = true -> Get o k = Return (GetOpt o k).
Proof.
  destruct o; simpl; intro H; try discriminate.
  - now destruct (str_eqb k (js "length")).
  - reflexivity.
Qed.

Lemma put_shaped o k v : objectShaped (put o k v) = objectShaped o.
Proof. now destruct o. Qed.

Lemma put_isArray o k v : isArray (put o k v) = isArray o.
Proof. now destruct o. Qed.

Lemma GetOpt_put_same o k v :
  objectShaped o = true -> str_eqb k (js "length") = false ->
  GetOpt (put o k v) k = v.
Proof.
  destruct o; simpl; intros H Hl; try discriminate.
  - rewrite Hl. now rewrite assoc_set_same.
  - now rewrite assoc_set_same.
Qed.

Lemma GetOpt_put_other o k k' v :
  str_eqb k' k = false -> GetOpt (put o k v) k' = GetOpt o k'.
Proof.
  intro Hne. destruct o; simpl; try reflexivity.
  - destruct (str_eqb k' (js "length")); [reflexivity|].
    now rewrite assoc_set_other.
  - now rewrite assoc_set_other.
Qed.

(** *** Order on numbers *)

Lemma SFcompare_refl (x : num) : num_isNaN x = false -> SFcompare x x = Some Eq.
Proof.
  destruct x as [s|s| |s m e]; simpl; intro H; try discriminate.
  - reflexivity.
  - now destruct s.
  - destruct s; rewrite Z.compare_refl, Pos.compare_cont_refl; reflexivity.
Qed.

Lemma num_leb_refl (x : num) : num_isNaN x = false -> num_leb x x = true.
Proof. intro H. unfold num_leb, SFleb. now rewrite SFcompare_refl. Qed.

Lemma num_ltb_leb (a b : num) : num_ltb a b = true -> num_leb a b = true.
Proof.
  unfold num_ltb, num_leb, SFltb, SFleb.
  destruct (SFcompare a b) as [[| |]|]; congruence.
Qed.

Lemma num_leb_notNaN_r (a b : num) : num_leb a b = true -> num_isNaN b = false.
Proof.
  destruct b; try reflexivity. unfold num_leb, SFleb.
  destruct a; simpl; discriminate.
Qed.

Lemma min_step_notNaN (l n : num) :
  num_isNaN l = false -> num_isNaN n = false -> num_isNaN (min_step l n) = false.
Proof.
  intros Hl Hn. unfold min_step.
  destruct n as [[|]|[|]| |[|] ? ?]; try discriminate;
    destruct l as [[|]|[|]| |[|] ? ?]; try discriminate;
    try reflexivity;
    match goal with |- context [if ?b then _ else _] => destruct b end; reflexivity.
Qed.

Lemma min_step_le (l n : num) :
  num_isNaN l = false -> num_leb (min_step l n) l = true.
Proof.
  intro Hl.
  assert (G : num_leb (if num_ltb n l then n else l) l = true).
  { destruct (num_ltb n l) eqn:E; [now apply num_ltb_leb | now apply num_leb_refl]. }
  unfold min_step.
  destruct n as [[|]|[|]| |[|] ? ?]; try exact G;
    destruct l as [[|]|[|]| |[|] ? ?]; try exact G; reflexivity.
Qed.

Lemma min_from_infinity (m : num) :
  num_isNaN m = false -> min_step pInfinity m = m.
Proof. destruct m as [[|]|[|]| |[|] ? ?]; intro H; try reflexivity; discriminate. Qed.

Lemma max_step_zero (x : num) :
  max_step pZero x = if num_ltb pZero x then x else pZero.
Proof. destruct x as [[|]|[|]| |[|] ? ?]; reflexivity. Qed.

Lemma clampScore_bounds (maxScore n : num) :
  num_leb pZero maxScore = true -> num_isNaN n = false ->
  num_leb pZero (clampScore maxScore n) = true
  /\ num_leb (clampScore maxScore n) maxScore = true.
Proof.
  intros HM Hn.
  assert (HMn : num_isNaN maxScore = false) by (eapply num_leb_notNaN_r; eauto).
  unfold clampScore, Math_min. rewrite HMn, Hn. simpl orb. cbv iota.
  rewrite (min_from_infinity _ HMn).
  pose proof (min_step_notNaN maxScore n HMn Hn) as Hx.
  pose proof (min_step_le maxScore n HMn) as Hle.
  set (x := min_step maxScore n) in *.
  unfold Math_max. rewrite Hx. simpl orb. cbv iota.
  change (max_step nInfinity pZero) with pZero.
  rewrite max_step_zero.
  destruct (num_ltb pZero x) eqn:E.
  - split; [now apply num_ltb_leb | exact Hle].
  - split; [reflexivity | exact HM].
Qed.

(** *** The statements of the normalisers on objects and arrays *)

Lemma ensureArray_shaped (o : value) (k : jsstring) :
  objectShaped o = true ->
  Server.ensureArray o k
  = Return (if isArray (GetOpt o k) then o else put o k empty_array).
Proof.
  intro H. unfold Server.ensureArray, Server.assign.
  rewrite (Get_shaped _ _ H). simpl bind.
  destruct (isArray (GetOpt o k)); simpl; [reflexivity | now apply Set_shaped].
Qed.

Lemma static_ensureArray_shaped (o : value) (k : jsstring) :
  objectShaped o = true ->
  Static.ensureArray o k
  = Return (if isArray (GetOpt o k) then o else put o k empty_array).
Proof.
  intro H. unfold Static.ensureArray, Static.assign.
  rewrite (Get_shaped _ _ H). simpl bind.
  destruct (isArray (GetOpt o k)); simpl; [reflexivity | now apply Set_shaped].
Qed.

Lemma ensuredArray_shaped o k : objectShaped (ensuredArray o k) = objectShaped o.
Proof.
  unfold ensuredArray.
  destruct (isArray (GetOpt o k)); [reflexivity | apply put_shaped].
Qed.

Lemma ensuredArray_isArray o k : isArray (ensuredArray o k) = isArray o.
Proof.
  unfold ensuredArray.
  destruct (isArray (GetOpt o k)); [reflexivity | apply put_isArray].
Qed.

Lemma ensuredArray_same o k :
  objectShaped o = true -> str_eqb k (js "length") = false ->
  GetOpt (ensuredArray o k) k = arrayOrEmpty (GetOpt o k).
Proof.
  intros H Hl. unfold ensuredArray, arrayOrEmpty.
  destruct (isArray (GetOpt o k)); [reflexivity | now apply GetOpt_put_same].
Qed.

Lemma ensuredArray_other o k k' :
  str_eqb k' k = false -> GetOpt (ensuredArray o k) k' = GetOpt o k'.
Proof.
  intro H. unfold ensuredArray.
  destruct (isArray (GetOpt o k)); [reflexivity | now apply GetOpt_put_other].
Qed.

Lemma typeof_object (x : value) :
  truthy x && jstype_eqb (typeof x) TObject = truthy x && objectShaped x.
Proof. now destruct x. Qed.

Lemma ensureObject_shaped (o : value) (k : jsstring) (dflt : value) :
  objectShaped o = true ->
  Server.ensureObject o k dflt = Return (ensuredObject o k dflt).
Proof.
  intro H. unfold Server.ensureObject, ensuredObject, Server.assign.
  rewrite (Get_shaped _ _ H). simpl bind.
  rewrite <- negb_andb, typeof_object.
  destruct (truthy (GetOpt o k) && objectShaped (GetOpt o k)); simpl;
    [reflexivity | now apply Set_shaped].
Qed.

Lemma inside_shaped (o : value) (k : jsstring) (f : value -> completion value) :
  objectShaped o = true ->
  Server.inside o k f = (x' <- f (GetOpt o k) ;; Return (put o k x')).
Proof.
  intro H. unfold Server.inside. rewrite (Get_shaped _ _ H). simpl bind.
  destruct (f (GetOpt o k)) as [x'|e]; simpl; [|reflexivity].
  destruct o; try discriminate; reflexivity.
Qed.

Lemma finiteScore_notNaN (v : value) : num_isNaN (finiteScore v) = false.
Proof.
  destruct v as [| | |n| | |]; try reflexivity.
  simpl. destruct n; reflexivity.
Qed.

Lemma numberOrZero_notNaN (n : num) : num_isNaN (numberOrZero n) = false.
Proof. destruct n as [[|]|[|]| |[|] ? ?]; reflexivity. Qed.

Lemma sameExcept_put (o : value) (k : jsstring) (v : value) :
  objectShaped o = true -> sameExcept [k] o (put o k v).
Proof.
  intro H. repeat split.
  - now rewrite put_shaped.
  - apply put_isArray.
  - intros k' Hk. simpl in Hk. rewrite andb_true_r in Hk.
    apply negb_true_iff in Hk. now apply GetOpt_put_other.
Qed.

Lemma sameExcept_refl (keys : list jsstring) (o : value) :
  objectShaped o = true -> sameExcept keys o o.
Proof. intro H. repeat split; auto. Qed.

Lemma sameExcept_trans (k1 k2 : list jsstring) (a b c : value) :
  sameExcept k1 a b -> sameExcept k2 b c -> sameExcept (k1 ++ k2) a c.
Proof.
  intros (S1 & A1 & G1) (S2 & A2 & G2). repeat split.
  - exact S2.
  - congruence.
  - intros k Hk. rewrite forallb_app in Hk. apply andb_true_iff in Hk as [Ha Hb].
    rewrite G2, G1; auto.
Qed.

Lemma sameExcept_weaken (k1 k2 : list jsstring) (a b : value) :
  sameExcept k1 a b -> incl k1 k2 -> sameExcept k2 a b.
Proof.
  intros (S1 & A1 & G1) Hi. repeat split; auto.
  intros k Hk. apply G1. rewrite forallb_forall in *. auto.
Qed.

Lemma server_normalizeScore_shaped (maxScore : num) (o : value) :
  objectShaped o = true ->
  exists r, Server.normalizeScore maxScore o = Return r
    /\ GetOpt r (js "maxScore") = VNumber maxScore
    /\ GetOpt r (js "score")
       = VNumber (clampScore maxScore (finiteScore (GetOpt o (js "score"))))
    /\ sameExcept [js "maxScore"; js "score"] o r.
Proof.
  intro H. unfold Server.normalizeScore, Server.assign.
  rewrite (Set_shaped _ _ _ _ H). simpl bind.
  set (o1 := put o (js "maxScore") (VNumber maxScore)).
  assert (H1 : objectShaped o1 = true) by (unfold o1; now rewrite put_shaped).
  assert (F1 : sameExcept [js "maxScore"] o o1) by (now apply sameExcept_put).
  rewrite (Get_shaped _ _ H1). simpl bind.
  assert (E1 : GetOpt o1 (js "score") = GetOpt o (js "score"))
    by (unfold o1; now apply GetOpt_put_other).
  rewrite E1. set (sc := GetOpt o (js "score")).
  assert (exists o2, match sc with
            | VNumber n => if negb (num_isFinite n)
                           then Set_ false o1 (js "score") (VNumber pZero)
                           else Return o1
            | _ => Set_ false o1 (js "score") (VNumber pZero)
            end = Return o2
          /\ objectShaped o2 = true
          /\ GetOpt o2 (js "score") = VNumber (finiteScore sc)
          /\ sameExcept [js "score"] o1 o2) as (o2 & -> & H2 & E2 & F2).
  { assert (P : exists o2, Set_ false o1 (js "score") (VNumber pZero) = Return o2
              /\ objectShaped o2 = true
              /\ GetOpt o2 (js "score") = VNumber pZero
              /\ sameExcept [js "score"] o1 o2).
    { exists (put o1 (js "score") (VNumber pZero)). repeat split.
      - now apply Set_shaped.
      - now rewrite put_shaped.
      - now apply GetOpt_put_same.
      - now rewrite put_shaped.
      - apply put_isArray.
      - intros k Hk. simpl in Hk. rewrite andb_true_r in Hk.
        apply negb_true_iff in Hk. now apply GetOpt_put_other. }
    destruct sc as [| | |n| | |] eqn:Esc; try exact P.
    simpl finiteScore. destruct (num_isFinite n); simpl negb; cbv iota; [|exact P].
    exists o1. repeat split; auto.
    - now rewrite E1. }
  simpl bind. rewrite (Get_shaped _ _ H2). simpl bind. rewrite E2. simpl bind.
  rewrite (Set_shaped _ _ _ _ H2).
  eexists. split; [reflexivity|].
  split; [|split].
  - rewrite GetOpt_put_other by reflexivity.
    destruct F2 as (_ & _ & G2). rewrite G2 by reflexivity.
    unfold o1. now apply GetOpt_put_same.
  - now apply GetOpt_put_same.
  - apply sameExcept_weaken with (k1 := [js "maxScore"] ++ ([js "score"] ++ [js "score"])).
    + eapply sameExcept_trans; [exact F1|].
      eapply sameExcept_trans; [exact F2|]. now apply sameExcept_put.
    + intros k Hk. simpl in *. tauto.
Qed.

Lemma static_normalizeScore_shaped (maxScore : num) (o : value) (n : num) :
  objectShaped o = true ->
  ToNumber (GetOpt o (js "score")) = Return n ->
  exists r, Static.normalizeScore maxScore o = Return r
    /\ GetOpt r (js "maxScore") = VNumber maxScore
    /\ GetOpt r (js "score") = VNumber (clampScore maxScore (numberOrZero n))
    /\ sameExcept [js "maxScore"; js "score"] o r.
Proof.
  intros H Hn. unfold Static.normalizeScore, Static.assign.
  rewrite (Set_shaped _ _ _ _ H). simpl bind.
  set (o1 := put o (js "maxScore") (VNumber maxScore)).
  assert (H1 : objectShaped o1 = true) by (unfold o1; now rewrite put_shaped).
  rewrite (Get_shaped _ _ H1). simpl bind.
  assert (E1 : GetOpt o1 (js "score") = GetOpt o (js "score"))
    by (unfold o1; now apply GetOpt_put_other).
  rewrite E1, Hn. simpl bind. rewrite (Set_shaped _ _ _ _ H1).
  eexists. split; [reflexivity|]. split; [|split].
  - rewrite GetOpt_put_other by reflexivity. unfold o1. now apply GetOpt_put_same.
  - now apply GetOpt_put_same.
  - change [js "maxScore"; js "score"] with ([js "maxScore"] ++ [js "score"]).
    eapply sameExcept_trans; [now apply sameExcept_put|]. now apply sameExcept_put.
Qed.

Lemma static_normalizeScore_throws (maxScore : num) (o : value) (e : exn) :
  objectShaped o = true ->
  ToNumber (GetOpt o (js "score")) = Throw e ->
  Static.normalizeScore maxScore o = Throw e.
Proof.
  intros H Hn. unfold Static.normalizeScore, Static.assign.
  rewrite (Set_shaped _ _ _ _ H). simpl bind.
  set (o1 := put o (js "maxScore") (VNumber maxScore)).
  assert (H1 : objectShaped o1 = true) by (unfold o1; now rewrite put_shaped).
  rewrite (Get_shaped _ _ H1). simpl bind.
  assert (E1 : GetOpt o1 (js "score") = GetOpt o (js "score"))
    by (unfold o1; now apply GetOpt_put_other).
  now rewrite E1, Hn.
Qed.

Lemma max_from_infinity (m : num) :
  num_isNaN m = false -> max_step nInfinity m = m.
Proof. destruct m as [[|]|[|]| |[|] ? ?]; intro H; try reflexivity; discriminate. Qed.

Lemma max_step_notNaN (h x : num) :
  num_isNaN h = false -> num_isNaN x = false -> num_isNaN (max_step h x) = false.
Proof.
  intros Hh Hx. unfold max_step.
  destruct x as [[|]|[|]| |[|] ? ?]; try discriminate;
    destruct h as [[|]|[|]| |[|] ? ?]; try discriminate;
    try reflexivity;
    match goal with |- context [if ?b then _ else _] => destruct b end; reflexivity.
Qed.

Lemma max_step_ge (h x : num) :
  num_isNaN h = false -> num_leb h (max_step h x) = true.
Proof.
  intro Hh.
  assert (G : num_leb h (if num_ltb h x then x else h) = true).
  { destruct (num_ltb h x) eqn:E; [now apply num_ltb_leb | now apply num_leb_refl]. }
  unfold max_step.
  destruct x as [[|]|[|]| |[|] ? ?]; try exact G;
    destruct h as [[|]|[|]| |[|] ? ?]; try exact G; reflexivity.
Qed.

Lemma min_step_cases (l n : num) : min_step l n = l \/ min_step l n = n.
Proof.
  unfold min_step.
  destruct n as [[|]|[|]| |[|] ? ?]; destruct l as [[|]|[|]| |[|] ? ?];
    try (right; reflexivity);
    match goal with |- context [if ?b then _ else _] => destruct b end; auto.
Qed.

(** The clamp [Math.min(max, Math.max(min, x))] of clampNumber. *)
Lemma clamp_bounds (lo hi x : num) :
  num_leb lo hi = true -> num_isNaN lo = false -> num_isNaN x = false ->
  num_leb lo (Math_min hi (Math_max lo x)) = true
  /\ num_leb (Math_min hi (Math_max lo x)) hi = true.
Proof.
  intros Hlh Hlo Hx.
  assert (Hhi : num_isNaN hi = false) by (eapply num_leb_notNaN_r; eauto).
  unfold Math_max. rewrite Hlo, Hx. simpl orb. cbv iota.
  rewrite (max_from_infinity _ Hlo).
  pose proof (max_step_notNaN lo x Hlo Hx) as Hx'.
  pose proof (max_step_ge lo x Hlo) as Hge.
  set (x' := max_step lo x) in *.
  unfold Math_min. rewrite Hhi, Hx'. simpl orb. cbv iota.
  rewrite (min_from_infinity _ Hhi).
  split; [|now apply min_step_le].
  destruct (min_step_cases hi x') as [-> | ->]; assumption.
Qed.

Lemma GetOpt_unshaped (x : value) (k : jsstring) :
  objectShaped x = false -> str_eqb k (js "length") = false ->
  GetOpt x k = VUndefined.
Proof. destruct x; simpl; intros H Hl; try discriminate; try reflexivity. now rewrite Hl. Qed.

Lemma server_normalizeArrays_shaped (o : value) :
  objectShaped o = true -> Server.normalizeArrays o = Return (normalizedArrays o).
Proof.
  intro H. unfold Server.normalizeArrays, normalizedArrays.
  rewrite (ensureArray_shaped _ _ H). simpl bind.
  fold (ensuredArray o (js "strengths")). set (o1 := ensuredArray o (js "strengths")).
  assert (H1 : objectShaped o1 = true) by (unfold o1; now rewrite ensuredArray_shaped).
  rewrite (ensureArray_shaped _ _ H1). simpl bind.
  fold (ensuredArray o1 (js "missingPoints")).
  set (o2 := ensuredArray o1 (js "missingPoints")).
  assert (H2 : objectShaped o2 = true) by (unfold o2; now rewrite ensuredArray_shaped).
  rewrite (ensureArray_shaped _ _ H2). simpl bind.
  fold (ensuredArray o2 (js "improvements")).
  set (o3 := ensuredArray o2 (js "improvements")).
  assert (H3 : objectShaped o3 = true) by (unfold o3; now rewrite ensuredArray_shaped).
  now rewrite (ensureArray_shaped _ _ H3).
Qed.

Lemma static_normalizeArrays_shaped (o : value) :
  objectShaped o = true -> Static.normalizeArrays o = Return (normalizedArrays o).
Proof.
  intro H. unfold Static.normalizeArrays, normalizedArrays.
  rewrite (static_ensureArray_shaped _ _ H). simpl bind.
  fold (ensuredArray o (js "strengths")). set (o1 := ensuredArray o (js "strengths")).
  assert (H1 : objectShaped o1 = true) by (unfold o1; now rewrite ensuredArray_shaped).
  rewrite (static_ensureArray_shaped _ _ H1). simpl bind.
  fold (ensuredArray o1 (js "missingPoints")).
  set (o2 := ensuredArray o1 (js "missingPoints")).
  assert (H2 : objectShaped o2 = true) by (unfold o2; now rewrite ensuredArray_shaped).
  rewrite (static_ensureArray_shaped _ _ H2). simpl bind.
  fold (ensuredArray o2 (js "improvements")).
  set (o3 := ensuredArray o2 (js "improvements")).
  assert (H3 : objectShaped o3 = true) by (unfold o3; now rewrite ensuredArray_shaped).
  now rewrite (static_ensureArray_shaped _ _ H3).
Qed.

Lemma normalizedArrays_spec (o : value) :
  objectShaped o = true ->
  GetOpt (normalizedArrays o) (js "strengths") = arrayOrEmpty (GetOpt o (js "strengths"))
  /\ GetOpt (normalizedArrays o) (js "missingPoints")
     = arrayOrEmpty (GetOpt o (js "missingPoints"))
  /\ GetOpt (normalizedArrays o) (js "improvements")
     = arrayOrEmpty (GetOpt o (js "improvements"))
  /\ GetOpt (normalizedArrays o) (js "suggestedOutline")
     = arrayOrEmpty (GetOpt o (js "suggestedOutline"))
  /\ sameExcept arrayKeys o (normalizedArrays o).
Proof.
  intro H. unfold normalizedArrays. repeat split.
  - rewrite !ensuredArray_other by reflexivity. now apply ensuredArray_same.
  - rewrite !ensuredArray_other by reflexivity.
    rewrite ensuredArray_same by (rewrite ?ensuredArray_shaped; auto).
    now rewrite ensuredArray_other by reflexivity.
  - rewrite !ensuredArray_other by reflexivity.
    rewrite ensuredArray_same by (rewrite ?ensuredArray_shaped; auto).
    now rewrite !ensuredArray_other by reflexivity.
  - rewrite ensuredArray_same by (rewrite ?ensuredArray_shaped; auto).
    now rewrite !ensuredArray_other by reflexivity.
  - now rewrite !ensuredArray_shaped.
  - now rewrite !ensuredArray_isArray.
  - intros k Hk. simpl in Hk.
    repeat (apply andb_true_iff in Hk as [?%negb_true_iff Hk]).
    now rewrite !ensuredArray_other.
Qed.

Lemma objectOr_shaped (x dflt : value) :
  objectShaped dflt = true -> objectShaped (objectOr x dflt) = true.
Proof.
  intro H. unfold objectOr. destruct (truthy x && objectShaped x) eqn:E; [|exact H].
  now apply andb_true_iff in E.
Qed.

Lemma ensuredObject_spec (o : value) (k : jsstring) (dflt : value) :
  objectShaped o = true -> str_eqb k (js "length") = false ->
  objectShaped (ensuredObject o k dflt) = true
  /\ GetOpt (ensuredObject o k dflt) k = objectOr (GetOpt o k) dflt
  /\ sameExcept [k] o (ensuredObject o k dflt).
Proof.
  intros H Hl. unfold ensuredObject, objectOr.
  destruct (truthy (GetOpt o k) && objectShaped (GetOpt o k)).
  - repeat split; auto.
  - split; [now rewrite put_shaped|]. split; [now apply GetOpt_put_same|].
    now apply sameExcept_put.
Qed.

Lemma sameExcept_one (k : jsstring) (a b c : value) :
  sameExcept [k] a b -> sameExcept [k] b c -> sameExcept [k] a c.
Proof.
  intros Hab Hbc. apply sameExcept_weaken with (k1 := [k] ++ [k]).
  - eapply sameExcept_trans; eauto.
  - intros x Hx. simpl in *. tauto.
Qed.

Lemma server_normalizeBooklist_shaped (o : value) :
  objectShaped o = true ->
  exists r, Server.normalizeBooklist o = Return r
    /\ GetOpt r (js "booklistAlignment")
       = normalizedBooklist (GetOpt o (js "booklistAlignment"))
    /\ sameExcept [js "booklistAlignment"] o r.
Proof.
  intro H. unfold Server.normalizeBooklist.
  rewrite (ensureObject_shaped _ _ _ H). simpl bind.
  destruct (ensuredObject_spec o (js "booklistAlignment") Server.emptyBooklist H eq_refl)
    as (H1 & E1 & F1).
  set (o1 := ensuredObject o (js "booklistAlignment") Server.emptyBooklist) in *.
  set (b1 := objectOr (GetOpt o (js "booklistAlignment")) Server.emptyBooklist) in *.
  assert (Hb1 : objectShaped b1 = true) by (now apply objectOr_shaped).
  rewrite (inside_shaped _ _ _ H1), E1, (ensureArray_shaped _ _ Hb1). simpl bind.
  fold (ensuredArray b1 (js "topics")). set (b2 := ensuredArray b1 (js "topics")).
  assert (Hb2 : objectShaped b2 = true) by (unfold b2; now rewrite ensuredArray_shaped).
  set (o2 := put o1 (js "booklistAlignment") b2).
  assert (H2 : objectShaped o2 = true) by (unfold o2; now rewrite put_shaped).
  assert (E2 : GetOpt o2 (js "booklistAlignment") = b2)
    by (unfold o2; now apply GetOpt_put_same).
  rewrite (inside_shaped _ _ _ H2), E2, (ensureArray_shaped _ _ Hb2). simpl bind.
  eexists. split; [reflexivity|]. split.
  - now apply GetOpt_put_same.
  - eapply sameExcept_one; [exact F1|].
    eapply sameExcept_one; [now apply sameExcept_put|]. now apply sameExcept_put.
Qed.

Lemma normalizedBooklist_spec (b0 : value) :
  objectShaped (normalizedBooklist b0) = true
  /\ GetOpt (normalizedBooklist b0) (js "topics") = arrayOrEmpty (GetOpt b0 (js "topics"))
  /\ GetOpt (normalizedBooklist b0) (js "refsToReview")
     = arrayOrEmpty (GetOpt b0 (js "refsToReview")).
Proof.
  unfold normalizedBooklist.
  set (b1 := objectOr b0 Server.emptyBooklist).
  assert (Hb1 : objectShaped b1 = true) by (now apply objectOr_shaped).
  assert (E : forall k, str_eqb k (js "length") = false ->
              (k = js "topics" \/ k = js "refsToReview") ->
              arrayOrEmpty (GetOpt b1 k) = arrayOrEmpty (GetOpt b0 k)).
  { intros k Hl Hk. unfold b1, objectOr.
    destruct (truthy b0 && objectShaped b0) eqn:C; [reflexivity|].
    assert (Hu : GetOpt b0 k = VUndefined).
    { destruct b0; try (now apply GetOpt_unshaped); discriminate. }
    rewrite Hu. destruct Hk as [-> | ->]; reflexivity. }
  split; [now rewrite !ensuredArray_shaped|]. split.
  - rewrite ensuredArray_other by reflexivity.
    rewrite ensuredArray_same by auto. apply E; auto.
  - rewrite ensuredArray_same by (rewrite ?ensuredArray_shaped; auto).
    rewrite ensuredArray_other by reflexivity. apply E; auto.
Qed.

Lemma clampNumber_minutes (t : value) :
  clampNumber t (num_of_Z 5) (num_of_Z 120) (num_of_Z 15)
  = (n <- ToNumber t ;; Return (clampedMinutes n)).
Proof.
  unfold clampNumber, clampedMinutes. destruct (ToNumber t) as [n|e]; simpl; [|reflexivity].
  now destruct (num_isFinite n).
Qed.

Lemma normalizedDrill_spec (d1 : value) (n : num) :
  objectShaped d1 = true ->
  objectShaped (normalizedDrill d1 n) = true
  /\ GetOpt (normalizedDrill d1 n) (js "prompt") = stringOrEmpty (GetOpt d1 (js "prompt"))
  /\ GetOpt (normalizedDrill d1 n) (js "timeboxMinutes") = VNumber (clampedMinutes n)
  /\ sameExcept [js "prompt"; js "timeboxMinutes"] d1 (normalizedDrill d1 n).
Proof.
  intro H. unfold normalizedDrill.
  set (d2 := match GetOpt d1 (js "prompt") with
             | VString _ => d1
             | _ => put d1 (js "prompt") (VString [])
             end).
  assert (P : objectShaped d2 = true
              /\ GetOpt d2 (js "prompt") = stringOrEmpty (GetOpt d1 (js "prompt"))
              /\ sameExcept [js "prompt"] d1 d2).
  { assert (Q : objectShaped (put d1 (js "prompt") (VString [])) = true
                /\ GetOpt (put d1 (js "prompt") (VString [])) (js "prompt") = VString []
                /\ sameExcept [js "prompt"] d1 (put d1 (js "prompt") (VString []))).
    { split; [now rewrite put_shaped|]. split; [now apply GetOpt_put_same|].
      now apply sameExcept_put. }
    unfold d2. destruct (GetOpt d1 (js "prompt")) eqn:Ep; try exact Q.
    repeat split; auto. }
  destruct P as (H2 & P2 & F2).
  split; [now rewrite put_shaped|]. split; [|split].
  - rewrite GetOpt_put_other by reflexivity. exact P2.
  - now apply GetOpt_put_same.
  - change [js "prompt"; js "timeboxMinutes"] with ([js "prompt"] ++ [js "timeboxMinutes"]).
    eapply sameExcept_trans; [exact F2|]. now apply sameExcept_put.
Qed.

Lemma server_normalizeNextDrill_shaped (o : value) :
  objectShaped o = true ->
  let d1 := objectOr (GetOpt o (js "nextDrill")) Server.defaultDrill in
  match ToNumber (GetOpt d1 (js "timeboxMinutes")) with
  | Throw e => Server.normalizeNextDrill o = Throw e
  | Return n =>
    exists r, Server.normalizeNextDrill o = Return r
      /\ GetOpt r (js "nextDrill") = normalizedDrill d1 n
      /\ sameExcept [js "nextDrill"] o r
  end.
Proof.
  intros H d1. unfold Server.normalizeNextDrill.
  rewrite (ensureObject_shaped _ _ _ H). simpl bind.
  destruct (ensuredObject_spec o (js "nextDrill") Server.defaultDrill H eq_refl)
    as (H1 & E1 & F1).
  set (o1 := ensuredObject o (js "nextDrill") Server.defaultDrill) in *.
  fold d1 in E1.
  assert (Hd1 : objectShaped d1 = true) by (now apply objectOr_shaped).
  rewrite (inside_shaped _ _ _ H1), E1, (Get_shaped _ _ Hd1). simpl bind.
  set (d2 := match GetOpt d1 (js "prompt") with
             | VString _ => d1
             | _ => put d1 (js "prompt") (VString [])
             end).
  assert (S2 : match GetOpt d1 (js "prompt") with
               | VString _ => Return d1
               | _ => Server.assign d1 (js "prompt") (VString [])
               end = Return d2).
  { unfold d2, Server.assign.
    destruct (GetOpt d1 (js "prompt")); try (now apply Set_shaped). reflexivity. }
  rewrite S2. simpl bind.
  assert (Hd2 : objectShaped d2 = true).
  { unfold d2. destruct (GetOpt d1 (js "prompt")); rewrite ?put_shaped; exact Hd1. }
  assert (T2 : GetOpt d2 (js "timeboxMinutes") = GetOpt d1 (js "timeboxMinutes")).
  { unfold d2. destruct (GetOpt d1 (js "prompt"));
      rewrite ?GetOpt_put_other by reflexivity; reflexivity. }
  set (o2 := put o1 (js "nextDrill") d2).
  assert (H2 : objectShaped o2 = true) by (unfold o2; now rewrite put_shaped).
  assert (E2 : GetOpt o2 (js "nextDrill") = d2) by (unfold o2; now apply GetOpt_put_same).
  rewrite (inside_shaped _ _ _ H2), E2, (Get_shaped _ _ Hd2). simpl bind.
  rewrite T2, clampNumber_minutes.
  destruct (ToNumber (GetOpt d1 (js "timeboxMinutes"))) as [n|e]; simpl bind;
    [|reflexivity].
  unfold Server.assign. rewrite (Set_shaped _ _ _ _ Hd2). simpl bind.
  eexists. split; [reflexivity|]. split; [now apply GetOpt_put_same|].
  eapply sameExcept_one; [exact F1|].
  eapply sameExcept_one; [now apply sameExcept_put|]. now apply sameExcept_put.
Qed.

Lemma server_normalizeResult_shaped (maxScore : num) (o : value) :
  objectShaped o = true ->
  match Server.normalizeResult maxScore o with
  | Return r =>
    exists n, ToNumber (GetOpt (drillOf o) (js "timeboxMinutes")) = Return n
              /\ serverNormalized maxScore o r n
  | Throw e => ToNumber (GetOpt (drillOf o) (js "timeboxMinutes")) = Throw e
  end.
Proof.
  intro H. unfold Server.normalizeResult.
  destruct (server_normalizeScore_shaped maxScore o H) as (p1 & -> & M1 & S1 & F1).
  simpl bind.
  assert (H1 : objectShaped p1 = true) by apply F1.
  rewrite (server_normalizeArrays_shaped _ H1). simpl bind.
  destruct (normalizedArrays_spec p1 H1) as (A1 & A2 & A3 & A4 & F2).
  set (p2 := normalizedArrays p1) in *.
  assert (H2 : objectShaped p2 = true) by apply F2.
  destruct (server_normalizeBooklist_shaped p2 H2) as (p3 & -> & B3 & F3).
  simpl bind.
  assert (H3 : objectShaped p3 = true) by apply F3.
  pose proof (server_normalizeNextDrill_shaped p3 H3) as N. cbv zeta in N.
  destruct F1 as (_ & I1 & G1). destruct F2 as (_ & I2 & G2).
  destruct F3 as (_ & I3 & G3).
  assert (Ed : GetOpt p3 (js "nextDrill") = GetOpt o (js "nextDrill")).
  { rewrite G3, G2, G1 by reflexivity. reflexivity. }
  rewrite Ed in N. fold (drillOf o) in N.
  destruct (ToNumber (GetOpt (drillOf o) (js "timeboxMinutes"))) as [n|e].
  - destruct N as (r & -> & Er & (Hr & Ir & Gr)).
    exists n. split; [reflexivity|].
    unfold serverNormalized. repeat split; try assumption.
    + congruence.
    + rewrite Gr, G3, G2 by reflexivity. exact M1.
    + rewrite Gr, G3, G2 by reflexivity. exact S1.
    + rewrite Gr, G3 by reflexivity. rewrite A1. now rewrite G1 by reflexivity.
    + rewrite Gr, G3 by reflexivity. rewrite A2. now rewrite G1 by reflexivity.
    + rewrite Gr, G3 by reflexivity. rewrite A3. now rewrite G1 by reflexivity.
    + rewrite Gr, G3 by reflexivity. rewrite A4. now rewrite G1 by reflexivity.
    + rewrite Gr by reflexivity. rewrite B3. now rewrite G2, G1 by reflexivity.
    + rewrite Gr, G3, G2, G1 by reflexivity. reflexivity.
  - now rewrite N.
Qed.

Lemma static_normalizeResult_shaped (maxScore : num) (o : value) :
  objectShaped o = true ->
  match Static.normalizeResult maxScore o with
  | Return r =>
    exists n, ToNumber (GetOpt o (js "score")) = Return n
              /\ staticNormalized maxScore o r n
  | Throw e => ToNumber (GetOpt o (js "score")) = Throw e
  end.
Proof.
  intro H. unfold Static.normalizeResult.
  destruct (ToNumber (GetOpt o (js "score"))) as [n|e] eqn:En.
  - destruct (static_normalizeScore_shaped maxScore o n H En) as (p1 & -> & M1 & S1 & F1).
    simpl bind.
    assert (H1 : objectShaped p1 = true) by apply F1.
    rewrite (static_normalizeArrays_shaped _ H1).
    destruct (normalizedArrays_spec p1 H1) as (A1 & A2 & A3 & A4 & F2).
    exists n. split; [reflexivity|].
    pose proof (sameExcept_trans _ _ _ _ _ F1 F2) as F.
    destruct F1 as (_ & I1 & G1). destruct F2 as (H2 & I2 & G2).
    unfold staticNormalized. repeat split; try assumption.
    + congruence.
    + rewrite G2 by reflexivity. exact M1.
    + rewrite G2 by reflexivity. exact S1.
    + rewrite A1. now rewrite G1 by reflexivity.
    + rewrite A2. now rewrite G1 by reflexivity.
    + rewrite A3. now rewrite G1 by reflexivity.
    + rewrite A4. now rewrite G1 by reflexivity.
    + apply F.
    + apply F.
  - now rewrite (static_normalizeScore_throws maxScore o e H En).
Qed.

(* ================================================================== *)
(** ** The result normaliser *)
(* ================================================================== *)

Lemma clampedMinutes_bounds (n : num) :
  num_leb five (clampedMinutes n) = true
  /\ num_leb (clampedMinutes n) onehundredtwenty = true.
Proof.
  unfold clampedMinutes. destruct (num_isFinite n) eqn:F.
  - apply clamp_bounds; try reflexivity. now destruct n.
  - split; reflexivity.
Qed.

(** C1, counterexample: with maxScore 20 the reply {"score":"15"} is given
    the score 0 by the server, where coercing the score to a number and
    clamping gives 15; and on the reply 5, a parsed value that is neither
    object nor array, the server normaliser raises instead of returning. *)
Lemma score_string_not_coerced :
  ~ score_as_specified Server.normalizeResult (num_of_Z 20) score_as_string
  /\ ~ score_as_specified Server.normalizeResult (num_of_Z 20) (VNumber (num_of_Z 5)).
Proof.
  split; intro C; destruct (C eq_refl) as (r & s & Hr & _ & Hs & Hg).
  - vm_compute in Hr. injection Hr as <-.
    vm_compute in Hs. injection Hs as <-.
    vm_compute in Hg. discriminate.
  - vm_compute in Hr. discriminate.
Qed.

(** C1, amended: for an object or array reply and a non-negative maxScore,
    lines 459-461 of the server return with maxScore overwritten and score
    set to the clamp of the model's score when that is a finite number and
    of 0 otherwise; the result of the whole normaliser carries these values,
    within [0, maxScore]; the browser build clamps Number(score) || 0
    instead, and raises only when that coercion raises. *)
Theorem score_clamped_maxScore_overwritten (maxScore : num) (parsed : value) :
  objectShaped parsed = true -> num_leb pZero maxScore = true ->
  score_normalized maxScore parsed.
Proof.
  intros H HM. unfold score_normalized. split; [|split].
  - destruct (server_normalizeScore_shaped maxScore parsed H) as (p & -> & M1 & S1 & F1).
    exists p. split; [reflexivity|].
    assert (Hp : objectShaped p = true) by apply F1.
    rewrite !(Get_shaped _ _ Hp). now rewrite M1, S1.
  - pose proof (server_normalizeResult_shaped maxScore parsed H) as N.
    destruct (Server.normalizeResult maxScore parsed) as [r|e]; [|exact N].
    destruct N as (n & _ & Hr & _ & M1 & S1 & _).
    rewrite !(Get_shaped _ _ Hr), M1, S1. split; [reflexivity|].
    eexists. split; [reflexivity|]. split; [reflexivity|].
    apply clampScore_bounds; [exact HM | apply finiteScore_notNaN].
  - pose proof (static_normalizeResult_shaped maxScore parsed H) as N.
    destruct (Static.normalizeResult maxScore parsed) as [r|e]; [|exact N].
    destruct N as (n & En & Hr & _ & M1 & S1 & _).
    rewrite !(Get_shaped _ _ Hr), M1, S1. split; [reflexivity|].
    exists n. eexists. split; [exact En|]. split; [reflexivity|]. split; [reflexivity|].
    apply clampScore_bounds; [exact HM | apply numberOrZero_notNaN].
Qed.

Lemma score_clamped_maxScore_overwritten_witness :
  objectShaped sample_reply = true /\ num_leb pZero (num_of_Z 20) = true
  /\ score_normalized (num_of_Z 20) sample_reply.
Proof.
  split; [reflexivity|]. split; [reflexivity|].
  exact (score_clamped_maxScore_overwritten (num_of_Z 20) sample_reply eq_refl eq_refl).
Defined.


Lemma arrayOrEmpty_isArray (v : value) : isArray (arrayOrEmpty v) = true.
Proof. unfold arrayOrEmpty. destruct (isArray v) eqn:E; [exact E | reflexivity]. Qed.



(** C3, counterexample: the server normaliser raises a TypeError on the
    reply 5 (a truthy primitive), and leaves the result of the reply {}
    without a rationale. *)
Lemma normaliser_raises_or_omits_rationale :
  ~ result_as_specified Server.normalizeResult (num_of_Z 20) (VNumber (num_of_Z 5))
  /\ ~ result_as_specified Server.normalizeResult (num_of_Z 20) (VObject []).
Proof.
  split.
  - intros (r & Hr & _). vm_compute in Hr. discriminate.
  - intros (r & Hr & _ & _ & (t & Ht) & _).
    vm_compute in Hr. injection Hr as <-. vm_compute in Ht. discriminate.
Qed.

(** C3, amended: for an object or array reply the server normaliser raises
    only when the numeric coercion of nextDrill.timeboxMinutes raises, and
    otherwise returns a result with score, maxScore, the four arrays,
    booklistAlignment and nextDrill present and well-formed, the rationale
    being passed through as it came (possibly absent); the browser build
    raises only when Number(score) raises and otherwise sets score, maxScore
    and the four arrays and leaves every other property as it came. *)
Theorem normaliser_populates_result (maxScore : num) (parsed : value) :
  objectShaped parsed = true -> result_normalized maxScore parsed.
Proof.
  intro H. unfold result_normalized. split.
  - pose proof (server_normalizeResult_shaped maxScore parsed H) as N.
    destruct (Server.normalizeResult maxScore parsed) as [r|e]; [|exact N].
    destruct N as (n & En & Hr & _ & M1 & S1 & A1 & A2 & A3 & A4 & B & D & R).
    rewrite !(Get_shaped _ _ Hr). split; [rewrite S1; eauto|].
    split; [now rewrite M1|]. split; [now rewrite R|]. split; [|split].
    + intros k Hk. rewrite (Get_shaped _ _ Hr). eexists. split; [reflexivity|].
      simpl in Hk.
      destruct Hk as [<-|[<-|[<-|[<-|[]]]]];
        rewrite ?A1, ?A2, ?A3, ?A4; apply arrayOrEmpty_isArray.
    + destruct (normalizedBooklist_spec (GetOpt parsed (js "booklistAlignment")))
        as (Hb & T & F).
      unfold booklist_present. rewrite (Get_shaped _ _ Hr), B.
      do 3 eexists. split; [reflexivity|]. split; [exact Hb|].
      rewrite !(Get_shaped _ _ Hb), T, F.
      split; [reflexivity|]. split; [apply arrayOrEmpty_isArray|].
      split; [reflexivity | apply arrayOrEmpty_isArray].
    + assert (Hd : objectShaped (drillOf parsed) = true)
        by (now apply objectOr_shaped).
      destruct (normalizedDrill_spec (drillOf parsed) n Hd) as (Hn & P & T & _).
      destruct (clampedMinutes_bounds n) as (Lo & Hi).
      unfold drill_present. rewrite (Get_shaped _ _ Hr), D.
      exists (normalizedDrill (drillOf parsed) n).
      exists (match GetOpt (drillOf parsed) (js "prompt") with
              | VString s => s | _ => [] end).
      exists (clampedMinutes n).
      split; [reflexivity|]. split; [exact Hn|].
      rewrite !(Get_shaped _ _ Hn), P, T.
      split; [|auto].
      unfold stringOrEmpty. now destruct (GetOpt (drillOf parsed) (js "prompt")).
  - pose proof (static_normalizeResult_shaped maxScore parsed H) as N.
    destruct (Static.normalizeResult maxScore parsed) as [r|e]; [|exact N].
    destruct N as (n & _ & Hr & _ & M1 & S1 & A1 & A2 & A3 & A4 & (_ & _ & G)).
    rewrite !(Get_shaped _ _ Hr). split; [rewrite S1; eauto|].
    split; [now rewrite M1|]. split.
    + intros k Hk. rewrite (Get_shaped _ _ Hr). eexists. split; [reflexivity|].
      simpl in Hk.
      destruct Hk as [<-|[<-|[<-|[<-|[]]]]];
        rewrite ?A1, ?A2, ?A3, ?A4; apply arrayOrEmpty_isArray.
    + intros k Hk. rewrite (Get_shaped _ _ Hr). now rewrite G.
Qed.

Lemma normaliser_populates_result_witness :
  objectShaped sample_reply = true /\ result_normalized (num_of_Z 20) sample_reply.
Proof.
  split; [reflexivity|].
  exact (normaliser_populates_result (num_of_Z 20) sample_reply eq_refl).
Defined.

(** C4, counterexample: a reply without nextDrill gets an empty prompt and
    timeboxMinutes 10, not 15; and on the reply 5 the server normaliser
    raises instead of returning. *)
Lemma missing_drill_gets_ten_minutes :
  ~ drill_as_specified Server.normalizeResult (num_of_Z 20) (VObject [])
  /\ ~ drill_as_specified Server.normalizeResult (num_of_Z 20) (VNumber (num_of_Z 5)).
Proof.
  split; intros (r & d & Hr & Hd & C).
  - vm_compute in Hr. injection Hr as <-.
    vm_compute in Hd. injection Hd as <-. vm_compute in C. discriminate.
  - vm_compute in Hr. discriminate.
Qed.

(** C4, amended: a nextDrill that is absent or not an object is replaced
    wholesale by an empty prompt with timeboxMinutes 10; otherwise prompt is
    kept when it is a string and set to the empty string when not, and
    timeboxMinutes becomes Number(timeboxMinutes) clamped to [5,120], or 15
    when that number is not finite; the normaliser raises only when this
    coercion raises. *)
Theorem next_drill_normalized (maxScore : num) (parsed : value) :
  objectShaped parsed = true -> drill_normalized maxScore parsed.
Proof.
  intro H. unfold drill_normalized. cbv zeta.
  pose proof (server_normalizeResult_shaped maxScore parsed H) as N.
  unfold drillOf, objectOr in N.
  set (d0 := GetOpt parsed (js "nextDrill")) in *.
  destruct (Server.normalizeResult maxScore parsed) as [r|e].
  - destruct N as (n & En & Hr & _ & _ & _ & _ & _ & _ & _ & _ & D & _).
    rewrite (Get_shaped _ _ Hr), D. eexists. split; [reflexivity|].
    unfold drillOf, objectOr, drill_from. fold d0.
    destruct (truthy d0 && objectShaped d0) eqn:C.
    + apply andb_true_iff in C as [_ Hd].
      destruct (normalizedDrill_spec d0 n Hd) as (Hn & P & T & _).
      destruct (clampedMinutes_bounds n) as (Lo & Hi).
      rewrite !(Get_shaped _ _ Hn), P, T. split; [reflexivity|].
      exists n. auto.
    + vm_compute in En. injection En as <-. vm_compute. reflexivity.
  - destruct (truthy d0 && objectShaped d0) eqn:C; [split; auto|].
    vm_compute in N. discriminate.
Qed.

Lemma next_drill_normalized_witness :
  objectShaped reply_with_drill = true
  /\ drill_normalized (num_of_Z 20) reply_with_drill.
Proof.
  split; [reflexivity|].
  exact (next_drill_normalized (num_of_Z 20) reply_with_drill eq_refl).
Defined.

(* ================================================================== *)
(** ** The orchestrators *)
(* ================================================================== *)

Lemma falsy_reply_falls_back (maxScore : num) (raw : jsstring) :
  truthy (safeJsonParse (VString raw)) = false -> fallback_returned maxScore raw.
Proof.
  intro H. unfold fallback_returned, Server.gradeReply, Static.gradeReply.
  rewrite H. simpl negb. cbv iota.
  split; [reflexivity|]. split; [reflexivity|]. split; [reflexivity|].
  split; [reflexivity|]. split.
  - intros k Hk. simpl in Hk.
    destruct Hk as [<-|[<-|[<-|[<-|[]]]]]; reflexivity.
  - repeat split.
Qed.




(** *** Arrays built by JSON.parse carry no named property *)

Lemma json_elements_array (f : nat) :
  forall s acc v r, json_elements f s acc = POk v r -> exists items, v = VArray items [].
Proof.
  induction f as [|f IH]; intros s acc v r; [discriminate|].
  cbn [json_elements].
  destruct (json_value f s) as [v0 r0| |]; try discriminate.
  destruct (json_skip_ws r0) as [|c r']; [discriminate|].
  destruct (c =? 44)%N; [apply IH|].
  destruct (c =? 93)%N; [|discriminate].
  intro E. injection E as <- _. eauto.
Qed.

Lemma json_members_object (f : nat) :
  forall s acc v r, json_members f s acc = POk v r -> exists props, v = VObject props.
Proof.
  induction f as [|f IH]; intros s acc v r; [discriminate|].
  cbn [json_members].
  destruct (json_skip_ws s) as [|q0 r0]; [discriminate|].
  destruct (negb (q0 =? 34)%N); [discriminate|].
  destruct (json_string r0 []) as [[k r1]|]; [|discriminate].
  destruct (json_skip_ws r1) as [|colon r2]; [discriminate|].
  destruct (negb (colon =? 58)%N); [discriminate|].
  destruct (json_value f r2) as [v0 r3| |]; try discriminate.
  destruct (json_skip_ws r3) as [|c r4]; [discriminate|].
  destruct (c =? 44)%N; [apply IH|].
  destruct (c =? 125)%N; [|discriminate].
  intro E. injection E as <- _. eauto.
Qed.

Lemma json_value_array (f : nat) (s : jsstring) (items : list value)
  (own : list (jsstring * value)) (r : jsstring) :
  json_value f s = POk (VArray items own) r -> own = [].
Proof.
  destruct f as [|f]; [discriminate|]. cbn [json_value].
  destruct (json_skip_ws s) as [|c r0]; [discriminate|].
  destruct (c =? 123)%N.
  { destruct (json_skip_ws r0) as [|c' r']; [discriminate|].
    destruct (c' =? 125)%N; [discriminate|].
    intro E. apply json_members_object in E as (props & E). discriminate. }
  destruct (c =? 91)%N.
  { destruct (json_skip_ws r0) as [|c' r']; [discriminate|].
    destruct (c' =? 93)%N; [intro E; now injection E|].
    intro E. apply json_elements_array in E as (items' & E). now injection E. }
  destruct (c =? 34)%N.
  { destruct (json_string r0 []) as [[str r']|]; discriminate. }
  unfold literal.
  destruct (c =? 116)%N; [destruct (startsWith _ _); discriminate|].
  destruct (c =? 102)%N; [destruct (startsWith _ _); discriminate|].
  destruct (c =? 110)%N; [destruct (startsWith _ _); discriminate|].
  destruct (json_number (c :: r0)) as [[n r']|]; discriminate.
Qed.

Lemma JSON_parse_array (s : jsstring) (items : list value) (own : list (jsstring * value)) :
  JSON_parse s = Some (VArray items own) -> own = [].
Proof.
  unfold JSON_parse.
  destruct (json_value (json_fuel s) s) as [v rest| |] eqn:E; try discriminate.
  destruct (json_skip_ws rest); [|discriminate].
  intro H. injection H as ->. now apply json_value_array in E.
Qed.

Lemma safeJsonParse_array (text : value) (items : list value)
  (own : list (jsstring * value)) :
  safeJsonParse text = VArray items own -> own = [].
Proof.
  unfold safeJsonParse. destruct text as [| | | |t| |]; try discriminate.
  destruct (trim t) as [|c0 t0] eqn:Et; [discriminate|].
  destruct (JSON_parse (c0 :: t0)) as [v|] eqn:E1.
  { intros ->. now apply JSON_parse_array in E1. }
  destruct (parseFenced (c0 :: t0)) as [v|] eqn:E2.
  { intros ->. unfold parseFenced in E2.
    destruct (fenceMatch (c0 :: t0)) as [[|c g]|]; try discriminate.
    now apply JSON_parse_array in E2. }
  destruct (parseBraced (c0 :: t0)) as [v|] eqn:E3; [|discriminate].
  intros ->. unfold parseBraced in E3.
  match type of E3 with (if ?b then _ else _) = _ => destruct b end; [|discriminate].
  now apply JSON_parse_array in E3.
Qed.

(** C7, counterexample: for the reply [] the server does not answer with
    the fallback result but with the (normalised) array. *)
Lemma array_reply_is_not_a_failure :
  ~ non_object_as_specified (num_of_Z 20) (js "[]").
Proof. intro C. specialize (C eq_refl). vm_compute in C. discriminate. Qed.

(** What the two normalisers make of an array as JSON.parse builds it: the
    elements stay, the fields are attached as named properties. *)
Lemma server_normalizeResult_array (maxScore : num) (items : list value) :
  Server.normalizeResult maxScore (VArray items [])
  = Return (VArray items (arrayFields maxScore)).
Proof. vm_compute. reflexivity. Qed.

Lemma static_normalizeResult_array (maxScore : num) (items : list value) :
  Static.normalizeResult maxScore (VArray items [])
  = Return (VArray items (staticArrayFields maxScore)).
Proof. vm_compute. reflexivity. Qed.

(** JSON.stringify serialises the elements of an array and none of its
    named properties. *)
Lemma serialize_array_elements (gap indent : jsstring) (items : list value)
  (own : list (jsstring * value)) :
  serialize gap indent (VArray items own) = serialize gap indent (VArray items []).
Proof. reflexivity. Qed.

Lemma wire_of_array_result (items : list value) (own : list (jsstring * value))
  (raw : jsstring) :
  Server.wire (Server.sendJson 200
     (VObject [(js "result", VArray items own); (js "raw", VString raw)]))
  = JSON_stringify (VObject [(js "result", VArray items []); (js "raw", VString raw)]).
Proof.
  unfold Server.wire, Server.sendJson, JSON_stringify. cbn [Server.payload].
  cbn [serialize]. reflexivity.
Qed.

(** C7, amended: a reply whose extracted value is falsy (null, false, 0 or
    the empty string) gets the fallback result.  A top-level array is not
    treated as an extraction failure: it carries no named property, the
    normaliser leaves its elements as they are and attaches its fields to
    it as named properties (maxScore, the score 0 clamped, the four empty
    lists and, on the server, the empty booklistAlignment and the default
    nextDrill), and the orchestrator returns that array as the result next
    to the raw reply.  What the server sends is the serialisation of that
    reply, which is the one of the bare elements: the attached fields are
    not in it. *)
Theorem falsy_falls_back_array_passes (maxScore : num) (raw : jsstring) :
  top_level_handled maxScore raw.
Proof.
  split; [apply falsy_reply_falls_back|].
  intros items own E.
  assert (O : own = []) by (eapply safeJsonParse_array; eauto). subst own.
  split; [reflexivity|].
  split; [apply server_normalizeResult_array|].
  split.
  { unfold Server.gradeReply. rewrite E. simpl negb. cbv iota.
    now rewrite server_normalizeResult_array. }
  split; [apply wire_of_array_result|].
  split; [apply static_normalizeResult_array|].
  unfold Static.gradeReply. rewrite E. simpl negb. cbv iota.
  now rewrite static_normalizeResult_array.
Qed.

Lemma falsy_falls_back_array_passes_witness :
  truthy (safeJsonParse (VString (js "false"))) = false
  /\ safeJsonParse (VString (js "[1,2]"))
     = VArray [VNumber (num_of_Z 1); VNumber (num_of_Z 2)] []
  /\ fallback_returned (num_of_Z 20) (js "false")
  /\ Server.gradeReply (num_of_Z 20) (js "[1,2]")
     = Return (Server.sendJson 200
         (VObject [(js "result",
                    VArray [VNumber (num_of_Z 1); VNumber (num_of_Z 2)]
                      (arrayFields (num_of_Z 20)));
                   (js "raw", VString (js "[1,2]"))])).
Proof.
  split; [reflexivity|]. split; [reflexivity|]. split.
  - exact (proj1 (falsy_falls_back_array_passes (num_of_Z 20) (js "false")) eq_refl).
  - exact (proj1 (proj2 (proj2
      (proj2 (falsy_falls_back_array_passes (num_of_Z 20) (js "[1,2]")) _ _ eq_refl)))).
Defined.

(** Every reply of handleGrade with status 200 is the reply computed from
    the adapter's text by lines 441-478, and whatever gradeAnswer returns is
    computed from the adapter's value by lines 199-220. *)
Lemma handleGrade_success_is_gradeReply (env : Env)
  (bank : jsstring -> completion (list Question))
  (notes : jsstring -> completion jsstring)
  (fetched : completion Response) (body : value) (reply : Server.Reply) :
  Server.handleGrade env bank notes fetched body = Return reply ->
  Server.code reply = 200 ->
  exists maxScore raw, Server.gradeReply maxScore raw = Return reply.
Proof.
  unfold Server.handleGrade.
  repeat match goal with
         | |- context [bind ?c _] =>
           destruct c; cbn [bind]; [|discriminate]
         end.
  repeat match goal with
         | |- context [match trim ?x with [] => _ | _ => _ end] =>
           destruct (trim x)
         end;
    try (intro H; injection H as <-; discriminate).
  match goal with |- context [bind ?c _] => destruct c as [qs|]; cbn [bind] end;
    [|discriminate].
  destruct (find _ qs) as [q|]; [|intro H; injection H as <-; discriminate].
  destruct (Server.maxScoreOf q) as [m|]; cbn [bind]; [|discriminate].
  match goal with |- context [bind ?c _] => destruct c as [md|]; cbn [bind] end;
    [|discriminate].
  destruct (snippetsOf md q) as [n b].
  match goal with |- context [bind ?c _] => destruct c as [raw|]; cbn [bind] end;
    [|discriminate].
  intros H _. eauto.
Qed.

Lemma gradeAnswer_is_gradeReply (question : Question) (answer : jsstring)
  (provider model : value) (apiKey : jsstring) (elapsedSeconds : value)
  (fetched : completion Response) (r : value) :
  Static.gradeAnswer question answer provider model apiKey elapsedSeconds fetched
  = Return r ->
  exists maxScore raw, Static.gradeReply maxScore raw = Return r.
Proof.
  unfold Static.gradeAnswer.
  destruct (Server.maxScoreOf question) as [m|]; cbn [bind]; [|discriminate].
  destruct (Static.callAdapter _ apiKey model fetched) as [raw|]; cbn [bind];
    [|discriminate].
  eauto.
Qed.

(** The scenario of the specification: maxScore 20 and a reply that wraps
    {"score":25,"rationale":"ok"} in a fence after some prose.  The score is
    clamped to 20, the arrays are empty, and the nextDrill is the default
    one, with 10 minutes. *)
Example fenced_reply_scenario :
  Server.gradeReply (num_of_Z 20) (js "Sure! " ++ fenced sample_text)
  = Return (Server.sendJson 200
      (VObject
         [(js "result",
           VObject
             [(js "score", VNumber (num_of_Z 20));
              (js "rationale", VString (js "ok"));
              (js "maxScore", VNumber (num_of_Z 20));
              (js "strengths", empty_array);
              (js "missingPoints", empty_array);
              (js "improvements", empty_array);
              (js "suggestedOutline", empty_array);
              (js "booklistAlignment", Server.emptyBooklist);
              (js "nextDrill", Server.defaultDrill)]);
          (js "raw", VString (js "Sure! " ++ fenced sample_text))])).
Proof. vm_compute. reflexivity. Qed.

(** What the server sends for the reply []: JSON.stringify drops the named
    properties the normaliser attached to the array. *)
Example array_reply_on_the_wire :
  match Server.gradeReply (num_of_Z 20) (js "[]") with
  | Return reply => Server.wire reply
  | Throw _ => None
  end = Some (dq "{'result':[],'raw':'[]'}").
Proof. vm_compute. reflexivity. Qed.

(* ================================================================== *)
(** ** Provider selection *)
(* ================================================================== *)



(* ================================================================== *)
(** ** The prompt builder *)
(* ================================================================== *)

Lemma occurs_refl (s : jsstring) : occurs s s.
Proof. exists [], []. now rewrite app_nil_r. Qed.

Lemma occurs_app_l (x a b : jsstring) : occurs x a -> occurs x (a ++ b).
Proof. intros (pre & post & ->). exists pre, (post ++ b). now rewrite <- !app_assoc. Qed.

Lemma occurs_app_r (x a b : jsstring) : occurs x b -> occurs x (a ++ b).
Proof. intros (pre & post & ->). exists (a ++ pre), post. now rewrite <- !app_assoc. Qed.

Lemma occurs_join (sep p : jsstring) (parts : list jsstring) :
  In p parts -> occurs p (join sep parts).
Proof.
  induction parts as [|a rest IH]; [intros []|].
  intros [-> | Hin].
  - destruct rest; [apply occurs_refl | apply occurs_app_l, occurs_refl].
  - destruct rest as [|b rest']; [destruct Hin|].
    change (join sep (a :: b :: rest')) with (a ++ sep ++ join sep (b :: rest')).
    now apply occurs_app_r, occurs_app_r, IH.
Qed.

Lemma occurs_trans (x p s : jsstring) : occurs x p -> occurs p s -> occurs x s.
Proof.
  intros (a & b & ->) (c & d & ->). exists (c ++ a), (b ++ d).
  now rewrite <- !app_assoc.
Qed.

(** C10: for every question and answer (empty or not) the prompt builder,
    in the server and in the browser build, produces exactly two messages,
    the system one and the user one, and the user message contains the
    answer text and the point value. *)
Theorem prompt_is_system_and_user (question : Question) (answer : jsstring)
  (maxScore : num) (elapsedSeconds : value) (notesSnippet booklistSnippet : option jsstring) :
  grading_messages
    (Server.buildGradingMessages question answer maxScore elapsedSeconds
       notesSnippet booklistSnippet) answer maxScore
  /\ grading_messages
       (Static.buildGradingMessages question answer maxScore elapsedSeconds)
       answer maxScore.
Proof.
  split.
  - unfold Server.buildGradingMessages. do 2 eexists. split; [reflexivity|].
    split; [reflexivity|]. split; [reflexivity|]. cbn [content]. split.
    + eapply occurs_trans; [|apply occurs_join].
      2:{ unfold Server.userParts. apply in_or_app. right. apply in_or_app. right.
          apply in_or_app. right. apply in_or_app. left. left. reflexivity. }
      apply occurs_app_r, occurs_app_r, occurs_app_r, occurs_refl.
    + eapply occurs_trans; [|apply occurs_join].
      2:{ unfold Server.userParts. apply in_or_app. left. left. reflexivity. }
      apply occurs_app_r, occurs_app_r, occurs_app_r, occurs_app_l, occurs_refl.
  - unfold Static.buildGradingMessages. do 2 eexists. split; [reflexivity|].
    split; [reflexivity|]. split; [reflexivity|]. cbn [content]. split.
    + eapply occurs_trans; [|apply occurs_join].
      2:{ unfold Static.userParts. apply in_or_app. right. apply in_or_app. right.
          apply in_or_app. right. left. reflexivity. }
      apply occurs_app_r, occurs_app_r, occurs_app_r, occurs_refl.
    + eapply occurs_trans; [|apply occurs_join].
      2:{ unfold Static.userParts. apply in_or_app. left. left. reflexivity. }
      apply occurs_app_r, occurs_app_r, occurs_app_r, occurs_app_l, occurs_refl.
Qed.

(* ================================================================== *)
(** ** Empty replies of the provider adapters *)
(* ================================================================== *)

(** C8, counterexample: on a reply whose content is three spaces the
    OpenAI adapter of the browser build does not fail; it returns the
    blank text. *)
Lemma browser_adapter_returns_blank_text :
  ~ empty_reply_as_specified (Static.callOpenAI some_key) blank_openai.
Proof. intros (m & H). vm_compute in H. discriminate. Qed.

Lemma server_requireText_not_blank (a : Server.Adapter) (x : value) (t : jsstring) :
  Server.requireText a x = Return t -> trim t <> [].
Proof.
  unfold Server.requireText. destruct x; try discriminate.
  destruct (trim s) eqn:E; [discriminate|].
  intro H. injection H as <-. now rewrite E.
Qed.

Lemma server_requireText_blank (a : Server.Adapter) (x : value) :
  isBlank x = true -> Server.requireText a x = Throw (Server.emptyContent a).
Proof.
  unfold Server.requireText, isBlank. destruct x; try reflexivity.
  destruct (trim s); [reflexivity | discriminate].
Qed.

Lemma server_readReply_not_blank (a : Server.Adapter) (fetched : completion Response)
  (t : jsstring) :
  Server.readReply a fetched = Return t -> trim t <> [].
Proof.
  unfold Server.readReply. destruct fetched as [res|]; cbn [bind]; [|discriminate].
  destruct (negb (ok res)).
  { destruct (provider_error (Server.vendor a) res); discriminate. }
  destruct (Server.extractText a (response_data res)) as [x|]; cbn [bind];
    [|discriminate].
  apply server_requireText_not_blank.
Qed.

(** A call that got as far as reading a reply got past the checks of the
    credential and of the model name, and could build its request, whatever
    the reply. *)
Lemma server_call_reads_reply (a : Server.Adapter) (env : Env) (apiKey : value)
  (model : jsstring) (res : Response) (t : jsstring) :
  Server.callAdapter a env apiKey model (Return res) = Return t ->
  forall fetched,
    Server.callAdapter a env apiKey model fetched = Server.readReply a fetched.
Proof.
  destruct a; unfold Server.callAdapter.
  - unfold Server.callOpenAI.
    destruct (Server.resolveKey apiKey [OPENAI_API_KEY env]) as [k|]; cbn [bind];
      [|discriminate].
    destruct k as [| | | |[|c k]| |]; try discriminate.
    match goal with |- context [if ?b then Throw _ else _] => destruct b end;
      [discriminate | reflexivity].
  - unfold Server.callGoogle.
    destruct (Server.resolveKey apiKey _) as [k|]; cbn [bind]; [|discriminate].
    destruct k as [| | | |[|c k]| |]; try discriminate.
    destruct (Server.sanitizeGoogleModel (VString model)) as [m|]; cbn [bind];
      [|discriminate].
    destruct (googleUrl m (c :: k)); cbn [bind]; [reflexivity | discriminate].
  - unfold Server.callClaude.
    destruct (Server.resolveKey apiKey _) as [k|]; cbn [bind]; [|discriminate].
    destruct k as [| | | |[|c k]| |]; try discriminate.
    match goal with |- context [if ?b then Throw _ else _] => destruct b end;
      [discriminate | reflexivity].
Qed.

(** What a server adapter returns, it read from the reply. *)
Lemma server_call_source (a : Server.Adapter) (env : Env) (apiKey : value)
  (model : jsstring) (fetched : completion Response) (t : jsstring) :
  Server.callAdapter a env apiKey model fetched = Return t ->
  Server.readReply a fetched = Return t.
Proof.
  destruct a; unfold Server.callAdapter, Server.callOpenAI, Server.callGoogle,
    Server.callClaude.
  - destruct (Server.resolveKey apiKey _) as [k|e]; [|discriminate]. cbn [bind].
    destruct k as [| | | |[|c k]| |]; try discriminate.
    destruct (_ || _); [discriminate|auto].
  - destruct (Server.resolveKey apiKey _) as [k|e]; [|discriminate]. cbn [bind].
    destruct k as [| | | |[|c k]| |]; try discriminate.
    destruct (Server.sanitizeGoogleModel _) as [m|]; [|discriminate]. cbn [bind].
    destruct (googleUrl m (c :: k)); [|discriminate]. auto.
  - destruct (Server.resolveKey apiKey _) as [k|e]; [|discriminate]. cbn [bind].
    destruct k as [| | | |[|c k]| |]; try discriminate.
    destruct (_ <? _)%nat; [discriminate|auto].
Qed.

Lemma server_adapters_never_return_blank (a : Server.Adapter) (env : Env)
  (apiKey : value) (model : jsstring) (fetched : completion Response) (t : jsstring) :
  Server.callAdapter a env apiKey model fetched = Return t -> trim t <> [].
Proof.
  intro H. apply server_call_source in H. revert H. apply server_readReply_not_blank.
Qed.

(** The same for the browser build: a call that returned anything got past
    the test of the key and could build its request. *)
Lemma static_call_reads_reply (a : Server.Adapter) (key : jsstring) (model : value)
  (res : Response) (v : value) :
  Static.callAdapter a key model (Return res) = Return v ->
  forall fetched,
    Static.callAdapter a key model fetched = Static.readReply a fetched.
Proof.
  destruct a; unfold Static.callAdapter, Static.callOpenAI, Static.callGoogle,
    Static.callClaude; destruct key as [|c k]; try discriminate; try reflexivity.
  destruct (Static.googleRequest (c :: k) model); cbn [bind];
    [reflexivity | discriminate].
Qed.

(** *** The texts of the parts *)

Lemma join_values_cons (x : value) (r : list value) :
  join_values [] (x :: r)
  = (sx <- elementText x ;; sr <- join_values [] r ;; Return (sx ++ sr)).
Proof.
  unfold elementText. destruct x; cbn [join_values bind];
    try (match goal with
         | |- bind ?c _ = _ => destruct c as [sx|e]; cbn [bind]; [|reflexivity]
         end);
    destruct r; cbn [join_values bind]; rewrite ?app_nil_r; reflexivity.
Qed.

Lemma elementText_falsy (x : value) :
  truthy x = false -> exists sx, elementText x = Return sx.
Proof. destruct x; try discriminate; simpl; eauto. Qed.

(** Joining all the texts succeeds when joining the truthy ones does. *)
Lemma join_values_unfiltered (l : list value) (t : jsstring) :
  join_values [] (filter truthy l) = Return t ->
  exists t', join_values [] l = Return t'.
Proof.
  revert t. induction l as [|x r IH]; intros t; [simpl; eauto|].
  rewrite join_values_cons. cbn [filter]. destruct (truthy x) eqn:T.
  - rewrite join_values_cons. destruct (elementText x) as [sx|]; cbn [bind];
      [|discriminate].
    destruct (join_values [] (filter truthy r)) as [sr|] eqn:J; cbn [bind];
      [|discriminate].
    destruct (IH _ eq_refl) as (t' & ->). cbn [bind]. eauto.
  - intro J. destruct (elementText_falsy x T) as (sx & ->). cbn [bind].
    destruct (IH _ J) as (t' & ->). cbn [bind]. eauto.
Qed.

(** When the texts are strings (or missing), the filter changes nothing. *)
Lemma join_values_strings (l : list value) :
  forallb (fun t => match t with
                    | VUndefined | VNull | VString _ => true
                    | _ => false
                    end) l = true ->
  join_values [] (filter truthy l) = join_values [] l.
Proof.
  induction l as [|x r IH]; [reflexivity|]. cbn [forallb]. intro H.
  apply andb_prop in H as [Hx Hr]. specialize (IH Hr).
  rewrite (join_values_cons x r). cbn [filter].
  destruct x as [| | | |[|c s]| |]; try discriminate Hx; cbn [truthy elementText bind];
    try (rewrite IH; now destruct (join_values [] r)).
  rewrite join_values_cons, IH. reflexivity.
Qed.

Lemma isBlank_or_else (x : value) :
  isBlank x = true -> isBlank (or_else x (VString [])) = true.
Proof. unfold or_else. destruct (truthy x); [auto | reflexivity]. Qed.

(** What the browser adapter reads from a response from which the server
    adapter reads a blank text. *)
Lemma static_extractText_of_blank (a : Server.Adapter) (data x : value) :
  Server.extractText a data = Return x -> isBlank x = true ->
  exists v, Static.extractText a data = Return v
    /\ (textsAreStrings a data = true -> isBlank v = true).
Proof.
  assert (J : forall parts,
             Server.joined_text parts = Return x -> isBlank x = true ->
             exists v, Static.joined_text parts = Return v
               /\ (match parts with
                   | VArray items _ =>
                     forallb (fun t => match t with
                                       | VUndefined | VNull | VString _ => true
                                       | _ => false
                                       end) (part_texts items)
                   | _ => true
                   end = true -> isBlank v = true)).
  { intros parts. unfold Server.joined_text, Static.joined_text.
    destruct parts as [| | | | |items own|]; try (intros _ _; eexists; split; reflexivity).
    destruct (join_values [] (filter truthy (part_texts items))) as [t|] eqn:E;
      cbn [bind]; [|discriminate].
    intros X B. injection X as <-.
    destruct (join_values_unfiltered _ _ E) as (t' & E').
    rewrite E'. cbn [bind]. eexists. split; [reflexivity|].
    intro S. rewrite (join_values_strings _ S), E' in E. injection E as ->. exact B. }
  destruct a; unfold Server.extractText, Static.extractText, textsAreStrings.
  - intros X B. injection X as <-. eexists. split; [reflexivity|].
    intros _. now apply isBlank_or_else.
  - apply J.
  - apply J.
Qed.

Lemma blank_is_unparseable (v : value) : isBlank v = true -> safeJsonParse v = VNull.
Proof.
  unfold isBlank, safeJsonParse. destruct v; try reflexivity.
  destruct (trim s); [reflexivity | discriminate].
Qed.

(** C8, amended: each of the three server adapters, once the credential
    and the model name are accepted and the request can be built - as
    witnessed by a reply it returned - fails with its own empty-content
    error on every successful response whose extracted text is no string,
    empty or only white space, and never returns such a text.  The three
    adapters of the browser build have no such check: on the same response
    each returns what it reads (the content or the empty string for OpenAI,
    the joined texts of all parts for Google and Claude), and gradeAnswer
    answers with its could-not-parse fallback whenever that value is blank,
    which it is for OpenAI and, for Google and Claude, whenever the texts
    of the parts are strings. *)
Theorem server_adapters_reject_blank_reply (a : Server.Adapter) (env : Env)
  (apiKey : value) (model : jsstring) (res : Response) (t : jsstring)
  (res' : Response) (x : value) :
  Server.callAdapter a env apiKey model (Return res) = Return t ->
  ok res' = true ->
  Server.extractText a (response_data res') = Return x ->
  isBlank x = true ->
  blank_reply_handled a env apiKey model res'.
Proof.
  intros Hc Hok Hx Hb. split; [|split].
  - rewrite (server_call_reads_reply _ _ _ _ _ _ Hc).
    unfold Server.readReply. cbn [bind]. rewrite Hok. simpl negb. cbv iota.
    rewrite Hx. cbn [bind]. now apply server_requireText_blank.
  - intros fetched t'. apply server_adapters_never_return_blank.
  - intros key bmodel res0 v0 H0.
    destruct (static_extractText_of_blank a _ x Hx Hb) as (v & Ev & Bv).
    assert (C : Static.callAdapter a key bmodel (Return res') = Return v).
    { rewrite (static_call_reads_reply _ _ _ _ _ H0).
      unfold Static.readReply. cbn [bind]. rewrite Hok. exact Ev. }
    exists v. split; [exact C|]. split; [exact Ev|]. split; [exact Bv|].
    intros B question answer provider elapsedSeconds maxScore Hp Hm.
    unfold Static.gradeAnswer. rewrite Hm, Hp. cbn [bind]. rewrite C. cbn [bind].
    unfold Static.gradeReply. now rewrite (blank_is_unparseable v B).
Qed.

Lemma server_adapters_reject_blank_reply_witness :
  Server.callAdapter Server.OpenAI no_env (VString some_key) [] (Return good_openai)
  = Return (js "{}")
  /\ ok blank_openai = true
  /\ Server.extractText Server.OpenAI (response_data blank_openai) = Return blank
  /\ isBlank blank = true
  /\ blank_reply_handled Server.OpenAI no_env (VString some_key) [] blank_openai.
Proof.
  split; [reflexivity|]. split; [reflexivity|]. split; [reflexivity|].
  split; [reflexivity|].
  exact (server_adapters_reject_blank_reply Server.OpenAI no_env (VString some_key) []
           good_openai (js "{}") blank_openai blank eq_refl eq_refl eq_refl eq_refl).
Defined.

(** The three adapters of each build on a blank reply. *)
Lemma blank_reply_server_raises_browser_returns :
  Server.callOpenAI no_env (VString some_key) (Return blank_openai)
  = Throw (Error (js "OpenAI API returned empty content"))
  /\ Server.callGoogle no_env (VString some_key) (VString (js "gemini-1.5-flash"))
       (Return blank_google)
     = Throw (Error (js "Google API returned empty content"))
  /\ Server.callClaude no_env (VString some_key) (Return blank_claude)
     = Throw (Error (js "Anthropic API returned empty content"))
  /\ Static.callOpenAI some_key (Return blank_openai) = Return blank
  /\ Static.callGoogle some_key VUndefined (Return blank_google) = Return blank
  /\ Static.callClaude some_key (Return blank_claude) = Return blank
  /\ Static.gradeReply (num_of_Z 20) blank
     = Return (Static.fallbackReturn (num_of_Z 20) blank).
Proof. repeat apply conj; vm_compute; reflexivity. Qed.

(** The Google adapters build the address of their request before they
    fetch: an unpaired surrogate in the key (or in the model name) raises a
    URIError, and in the browser build a model that is no string a
    TypeError, whatever the network would answer. *)
Example google_request_is_built_first :
  googleUrl (js "gemini-1.5-flash") (js "a key")
  = Return (js "https://generativelanguage.googleapis.com/v1beta/models/"
              ++ js "gemini-1.5-flash:generateContent?key=a%20key")
  /\ Server.callGoogle no_env (VString [55357%N]) (VString (js "gemini-1.5-flash"))
       (Return good_google)
     = Throw URIError
  /\ Static.callGoogle [55357%N] VUndefined (Return good_google) = Throw URIError
  /\ Static.callGoogle some_key (VNumber (num_of_Z 5)) (Return good_google)
     = Throw TypeError.
Proof. repeat apply conj; vm_compute; reflexivity. Qed.

(* ================================================================== *)
(** ** The JSON extractor *)
(* ================================================================== *)

(** *** Trimming *)

Lemma trimStart_suffix (s : jsstring) : exists pre, s = pre ++ trimStart s.
Proof.
  induction s as [|c r (pre & IH)]; [now exists []|].
  simpl. destruct (isWhiteSpace c).
  - exists (c :: pre). simpl. now rewrite <- IH.
  - now exists [].
Qed.

Lemma trimStart_length (s : jsstring) : (List.length (trimStart s) <= List.length s)%nat.
Proof.
  destruct (trimStart_suffix s) as (pre & E). rewrite E at 2.
  rewrite length_app. lia.
Qed.

Lemma trimStart_full (s : jsstring) :
  List.length (trimStart s) = List.length s -> trimStart s = s.
Proof.
  intro H. destruct (trimStart_suffix s) as (pre & E).
  assert (pre = []).
  { apply (f_equal (@List.length _)) in E. rewrite length_app in E.
    destruct pre; [reflexivity | simpl in E; lia]. }
  subst pre. now rewrite E at 2.
Qed.

Lemma trimEnd_length (s : jsstring) : (List.length (trimEnd s) <= List.length s)%nat.
Proof.
  unfold trimEnd. rewrite length_rev. rewrite <- (length_rev s). apply trimStart_length.
Qed.

Lemma trim_fixed (s : jsstring) : trim s = s -> trimStart s = s /\ trimEnd s = s.
Proof.
  intro H. unfold trim in H.
  assert (L : List.length (trimStart s) = List.length s).
  { pose proof (trimEnd_length (trimStart s)). pose proof (trimStart_length s).
    rewrite H in *. lia. }
  apply trimStart_full in L. now rewrite L in H.
Qed.

Lemma endsClean_snoc (s : jsstring) (c : char16) :
  endsClean (s ++ [c]) = negb (isWhiteSpace c).
Proof.
  induction s as [|x r IH]; [reflexivity|].
  simpl. destruct (r ++ [c]) eqn:E; [now destruct r | exact IH].
Qed.

Lemma trimEnd_endsClean (s : jsstring) : trimEnd s = s -> endsClean s = true.
Proof.
  unfold trimEnd. intro H.
  destruct (rev s) as [|c r] eqn:E.
  - apply (f_equal (@rev _)) in E. rewrite rev_involutive in E. now subst.
  - assert (Es : s = rev r ++ [c]).
    { apply (f_equal (@rev _)) in E. now rewrite rev_involutive in E. }
    rewrite Es. rewrite endsClean_snoc.
    simpl in H. destruct (isWhiteSpace c); [|reflexivity].
    exfalso. pose proof (trimStart_length r) as L.
    apply (f_equal (@List.length _)) in H. rewrite length_rev in H.
    rewrite Es, length_app, length_rev in H. simpl in H. lia.
Qed.

Lemma endsClean_tail (c : char16) (r : jsstring) :
  endsClean (c :: r) = true -> endsClean r = true.
Proof. simpl. destruct r; auto. Qed.

Lemma trimStart_app_clean (pre : jsstring) (c : char16) (r : jsstring) :
  isWhiteSpace c = false -> trimStart (pre ++ c :: r) = trimStart pre ++ c :: r.
Proof.
  intro H. induction pre as [|x p IH]; simpl.
  - now rewrite H.
  - destruct (isWhiteSpace x); [exact IH | reflexivity].
Qed.

Lemma trimEnd_app_clean (s : jsstring) (d : char16) (post : jsstring) :
  isWhiteSpace d = false -> trimEnd (s ++ d :: post) = s ++ d :: trimEnd post.
Proof.
  intro H. unfold trimEnd.
  rewrite rev_app_distr. simpl rev. rewrite <- app_assoc. simpl app.
  rewrite (trimStart_app_clean _ _ _ H).
  rewrite rev_app_distr. simpl rev. rewrite rev_involutive, <- app_assoc. reflexivity.
Qed.

Lemma trim_clean_ends (c d : char16) (r : jsstring) :
  isWhiteSpace c = false -> isWhiteSpace d = false ->
  trim (c :: r ++ [d]) = c :: r ++ [d].
Proof.
  intros Hc Hd. unfold trim. simpl trimStart. rewrite Hc.
  change (c :: r ++ [d]) with ((c :: r) ++ d :: []).
  now rewrite (trimEnd_app_clean _ _ _ Hd).
Qed.

(** *** Searching *)

Lemma has_char_cons (c x : char16) (s : jsstring) :
  has_char c (x :: s) = false -> (x =? c)%N = false /\ has_char c s = false.
Proof.
  unfold has_char. simpl. intro H. apply orb_false_iff in H as [H1 H2].
  split; [now rewrite N.eqb_sym | exact H2].
Qed.

Lemma has_char_trimStart (c : char16) (s : jsstring) :
  has_char c s = false -> has_char c (trimStart s) = false.
Proof.
  intro H. destruct (trimStart_suffix s) as (pre & E). rewrite E in H.
  unfold has_char in *. rewrite existsb_app in H. now apply orb_false_iff in H.
Qed.

Lemma has_char_rev (c : char16) (s : jsstring) : has_char c (rev s) = has_char c s.
Proof.
  unfold has_char, jsstring, char16 in *. induction s as [|x r IH]; [reflexivity|].
  change (rev (x :: r)) with (rev r ++ [x]). rewrite existsb_app, IH.
  change (existsb (N.eqb c) [x]) with ((c =? x)%N || false).
  change (existsb (N.eqb c) (x :: r)) with ((c =? x)%N || existsb (N.eqb c) r).
  rewrite orb_false_r. apply orb_comm.
Qed.

Lemma has_char_trimEnd (c : char16) (s : jsstring) :
  has_char c s = false -> has_char c (trimEnd s) = false.
Proof.
  intro H. unfold trimEnd. rewrite has_char_rev. apply has_char_trimStart.
  now rewrite has_char_rev.
Qed.

Lemma indexOf_first (c : char16) (pre r : jsstring) (i : Z) :
  has_char c pre = false ->
  indexOf_from i (pre ++ c :: r) [c] = i + Z.of_nat (List.length pre).
Proof.
  revert i. induction pre as [|x p IH]; intros i H.
  - simpl. rewrite N.eqb_refl. simpl. lia.
  - apply has_char_cons in H as [Hx Hp].
    simpl app. unfold indexOf_from; fold indexOf_from.
    simpl startsWith. rewrite Hx. simpl andb. cbv iota.
    rewrite (IH _ Hp). simpl List.length. lia.
Qed.

Lemma lastIndexOf_absent (c : char16) (s : jsstring) (i : Z) :
  has_char c s = false -> lastIndexOf_from i s [c] = -1.
Proof.
  revert i. induction s as [|x r IH]; intros i H; [reflexivity|].
  apply has_char_cons in H as [Hx Hr].
  simpl. rewrite (IH _ Hr). simpl. now rewrite Hx.
Qed.

Lemma lastIndexOf_last (c : char16) (pre post : jsstring) (i : Z) :
  0 <= i -> has_char c post = false ->
  lastIndexOf_from i (pre ++ c :: post) [c] = i + Z.of_nat (List.length pre).
Proof.
  revert i. induction pre as [|x p IH]; intros i Hi H.
  - simpl. rewrite (lastIndexOf_absent _ _ _ H). simpl. rewrite N.eqb_refl. simpl. lia.
  - simpl app. unfold lastIndexOf_from; fold lastIndexOf_from.
    rewrite (IH (i + 1)) by (auto; lia). cbv zeta.
    destruct (i + 1 + Z.of_nat (List.length p) =? -1) eqn:E;
      [apply Z.eqb_eq in E; lia|].
    simpl List.length. lia.
Qed.

(** *** The fence pattern on a fenced text *)

Lemma indexOf_absent_noFence (s : jsstring) (i : Z) :
  0 <= i -> indexOf_from i s fence = -1 -> noFence s = true.
Proof.
  revert i. induction s as [|c r IH]; intros i Hi H.
  - reflexivity.
  - unfold indexOf_from in H; fold indexOf_from in H.
    unfold noFence; fold noFence.
    destruct (startsWith (c :: r) fence); [lia|].
    simpl. apply (IH (i + 1)); [lia | exact H].
Qed.

Lemma includes_noFence (s : jsstring) : includes s fence = false -> noFence s = true.
Proof.
  unfold includes, indexOf. intro H. apply negb_false_iff, Z.eqb_eq in H.
  now apply (indexOf_absent_noFence s 0).
Qed.

Lemma noFence_tail (c : char16) (r : jsstring) :
  noFence (c :: r) = true -> startsWith (c :: r) fence = false /\ noFence r = true.
Proof.
  unfold noFence; fold noFence. intro H. apply andb_true_iff in H as [H1 H2].
  now apply negb_true_iff in H1.
Qed.

Lemma startsWith_before_closing (w : jsstring) :
  w <> [] -> startsWith w fence = false -> startsWith (w ++ closing) fence = false.
Proof.
  intros Hne H. destruct w as [|a [|b [|c r]]]; [congruence| | |].
  - simpl. now destruct (a =? c_backtick)%N.
  - simpl. destruct (a =? c_backtick)%N; [|reflexivity].
    now destruct (b =? c_backtick)%N.
  - simpl in *. exact H.
Qed.

Lemma closes_inside (w : jsstring) :
  w <> [] -> noFence w = true -> endsClean w = true -> closes (w ++ closing) = false.
Proof.
  induction w as [|c r IH]; intros Hne Hf Hc; [congruence|].
  apply noFence_tail in Hf as [Hs Hr].
  unfold closes. simpl app. simpl trimStart.
  destruct (isWhiteSpace c) eqn:W.
  - destruct r as [|c2 r2]; [simpl in Hc; now rewrite W in Hc|].
    apply IH; [discriminate | exact Hr | exact (endsClean_tail _ _ Hc)].
  - now apply (startsWith_before_closing (c :: r)).
Qed.

Lemma capture_cons (c : char16) (r : jsstring) :
  capture (c :: r)
  = if closes (c :: r) then Some []
    else match capture r with Some g => Some (c :: g) | None => None end.
Proof. reflexivity. Qed.

Lemma capture_fenced (s : jsstring) :
  noFence s = true -> endsClean s = true -> capture (s ++ closing) = Some s.
Proof.
  induction s as [|c r IH]; intros Hf Hc; [reflexivity|].
  pose proof (closes_inside (c :: r)) as Cl.
  change ((c :: r) ++ closing) with (c :: r ++ closing) in *.
  rewrite capture_cons, Cl by (auto; discriminate).
  rewrite IH; [reflexivity | now apply noFence_tail in Hf | ].
  exact (endsClean_tail _ _ Hc).
Qed.

Lemma JSON_parse_backtick (r : jsstring) : JSON_parse (c_backtick :: r) = None.
Proof. reflexivity. Qed.

Lemma fenceMatch_fenced (c : char16) (r : jsstring) :
  isWhiteSpace c = false -> noFence (c :: r) = true -> endsClean (c :: r) = true ->
  fenceMatch (fenced (c :: r)) = Some (c :: r).
Proof.
  intros W Hf Hc.
  change (fenced (c :: r))
    with (c_backtick :: c_backtick :: c_backtick :: 106%N :: 115%N :: 111%N :: 110%N
            :: c_nl :: (c :: r) ++ closing).
  unfold fenceMatch, match_here. simpl startsWith. simpl skipn.
  unfold after_word. simpl startsWith_i. simpl skipn.
  unfold after_spaces; fold after_spaces. simpl isWhiteSpace. cbv iota.
  simpl app. rewrite W.
  change (c :: r ++ closing) with ((c :: r) ++ closing).
  now rewrite (capture_fenced _ Hf Hc).
Qed.

Lemma indexOf_absent (c : char16) (s : jsstring) (i : Z) :
  has_char c s = false -> indexOf_from i s [c] = -1.
Proof.
  revert i. induction s as [|x r IH]; intros i H; [reflexivity|].
  apply has_char_cons in H as [Hx Hr].
  unfold indexOf_from; fold indexOf_from. simpl startsWith. rewrite Hx.
  simpl andb. cbv iota. now apply IH.
Qed.

Lemma fenceMatch_noFence (s : jsstring) : noFence s = true -> fenceMatch s = None.
Proof.
  induction s as [|c r IH]; intro H; [reflexivity|].
  apply noFence_tail in H as [Hs Hr].
  unfold fenceMatch; fold fenceMatch. unfold match_here. rewrite Hs. now apply IH.
Qed.

(** Prose that is not JSON and holds neither a fence nor an opening brace
    gives null. *)
Lemma prose_without_braces_is_null (raw : jsstring) :
  JSON_parse (trim raw) = None ->
  includes (trim raw) fence = false ->
  has_char c_lbrace raw = false ->
  safeJsonParse (VString raw) = VNull.
Proof.
  intros H1 H2 H3. unfold safeJsonParse. rewrite H1.
  assert (P2 : parseFenced (trim raw) = None).
  { unfold parseFenced. now rewrite (fenceMatch_noFence _ (includes_noFence _ H2)). }
  assert (P3 : parseBraced (trim raw) = None).
  { unfold parseBraced, indexOf.
    rewrite indexOf_absent; [reflexivity|].
    unfold trim. now apply has_char_trimEnd, has_char_trimStart. }
  rewrite P2, P3. now destruct (trim raw).
Qed.

Lemma trimStart_head (c : char16) (r : jsstring) :
  trimStart (c :: r) = c :: r -> isWhiteSpace c = false.
Proof.
  simpl. destruct (isWhiteSpace c); [|reflexivity].
  intro H. pose proof (trimStart_length r) as L.
  apply (f_equal (@List.length _)) in H. simpl in H. lia.
Qed.

Lemma fenced_shape (s : jsstring) :
  fenced s
  = c_backtick
      :: (c_backtick :: c_backtick :: js "json" ++ [c_nl] ++ s ++ [c_nl; c_backtick; c_backtick])
      ++ [c_backtick].
Proof.
  unfold fenced, fence. change (js "json") with [106%N; 115%N; 111%N; 110%N].
  simpl. do 8 f_equal. rewrite <- app_assoc. reflexivity.
Qed.

Lemma safeJsonParse_fenced (v : value) (s : jsstring) :
  JSON_parse s = Some v -> trim s = s -> includes s fence = false ->
  safeJsonParse (VString (fenced s)) = v.
Proof.
  intros Hp Ht Hf.
  destruct s as [|c r]; [discriminate|].
  destruct (trim_fixed _ Ht) as (Hs & He).
  pose proof (trimStart_head _ _ Hs) as W.
  pose proof (trimEnd_endsClean _ He) as Hc.
  pose proof (includes_noFence _ Hf) as Hn.
  unfold safeJsonParse.
  assert (T : trim (fenced (c :: r)) = fenced (c :: r)).
  { rewrite fenced_shape. now apply trim_clean_ends. }
  rewrite T.
  assert (P1 : JSON_parse (fenced (c :: r)) = None) by apply JSON_parse_backtick.
  assert (P2 : parseFenced (fenced (c :: r)) = Some v).
  { unfold parseFenced. rewrite (fenceMatch_fenced _ _ W Hn Hc). now rewrite Ht. }
  rewrite P1, P2. reflexivity.
Qed.

Lemma trim_embedded (prefix mid suffix : jsstring) :
  trim (prefix ++ (c_lbrace :: mid ++ [c_rbrace]) ++ suffix)
  = (trimStart prefix ++ c_lbrace :: mid) ++ c_rbrace :: trimEnd suffix.
Proof.
  unfold trim. simpl app.
  rewrite trimStart_app_clean by reflexivity.
  replace (trimStart prefix ++ c_lbrace :: (mid ++ [c_rbrace]) ++ suffix)
    with ((trimStart prefix ++ c_lbrace :: mid) ++ c_rbrace :: suffix).
  - now apply trimEnd_app_clean.
  - rewrite <- !app_assoc. reflexivity.
Qed.

Lemma parseBraced_embedded (pre mid post : jsstring) :
  has_char c_lbrace pre = false -> has_char c_rbrace post = false ->
  parseBraced ((pre ++ c_lbrace :: mid) ++ c_rbrace :: post)
  = JSON_parse (c_lbrace :: mid ++ [c_rbrace]).
Proof.
  intros Hl Hr. unfold parseBraced, indexOf, lastIndexOf.
  rewrite (lastIndexOf_last c_rbrace (pre ++ c_lbrace :: mid) post 0) by (auto; lia).
  rewrite <- app_assoc. simpl app.
  rewrite (indexOf_first c_lbrace pre (mid ++ c_rbrace :: post) 0 Hl).
  rewrite length_app. simpl List.length.
  set (a := List.length pre). set (m := List.length mid).
  assert (C : negb (0 + Z.of_nat a =? -1) && negb (0 + Z.of_nat (a + S m) =? -1)
              && (0 + Z.of_nat a <? 0 + Z.of_nat (a + S m)) = true).
  { rewrite !andb_true_iff, !negb_true_iff, !Z.eqb_neq, Z.ltb_lt. lia. }
  cbv zeta. rewrite C. f_equal. unfold slice.
  replace (Z.to_nat (0 + Z.of_nat a)) with a by lia.
  replace (Z.to_nat (0 + Z.of_nat (a + S m) + 1 - (0 + Z.of_nat a))) with (S (S m)) by lia.
  unfold a. rewrite skipn_app, skipn_all, Nat.sub_diag. simpl skipn. simpl app.
  replace (c_lbrace :: mid ++ c_rbrace :: post)
    with ((c_lbrace :: mid ++ [c_rbrace]) ++ post)
    by (simpl; now rewrite <- app_assoc).
  replace (S (S m)) with (List.length (c_lbrace :: mid ++ [c_rbrace]))
    by (simpl; rewrite length_app; simpl; unfold m; lia).
  rewrite firstn_app, firstn_all, Nat.sub_diag. apply app_nil_r.
Qed.

Lemma safeJsonParse_embedded (v : value) (mid prefix suffix : jsstring) :
  JSON_parse (c_lbrace :: mid ++ [c_rbrace]) = Some v ->
  has_char c_lbrace prefix = false -> has_char c_rbrace suffix = false ->
  JSON_parse (trim (prefix ++ (c_lbrace :: mid ++ [c_rbrace]) ++ suffix)) = None ->
  parseFenced (trim (prefix ++ (c_lbrace :: mid ++ [c_rbrace]) ++ suffix)) = None ->
  safeJsonParse (VString (prefix ++ (c_lbrace :: mid ++ [c_rbrace]) ++ suffix)) = v.
Proof.
  intros Hp Hl Hr H1 H2. unfold safeJsonParse.
  rewrite H1, H2. rewrite trim_embedded.
  rewrite parseBraced_embedded, Hp
    by (auto using has_char_trimStart, has_char_trimEnd).
  destruct ((trimStart prefix ++ c_lbrace :: mid) ++ c_rbrace :: trimEnd suffix) eqn:E;
    [|reflexivity].
  apply (f_equal (@List.length _)) in E. rewrite !length_app in E. simpl in E. lia.
Qed.

(** *** White space around a text *)

Lemma trimStart_idem (s : jsstring) : trimStart (trimStart s) = trimStart s.
Proof.
  induction s as [|c r IH]; [reflexivity|]. simpl.
  destruct (isWhiteSpace c) eqn:E; [exact IH|]. simpl. now rewrite E.
Qed.

Lemma trimStart_ws (pre s : jsstring) :
  forallb isWhiteSpace pre = true -> trimStart (pre ++ s) = trimStart s.
Proof.
  induction pre as [|c r IH]; [reflexivity|]. simpl.
  intro H. apply andb_prop in H as [Hc Hr]. rewrite Hc. now apply IH.
Qed.

Lemma trimStart_all_ws (s : jsstring) :
  forallb isWhiteSpace s = true -> trimStart s = [].
Proof.
  intro H. rewrite <- (app_nil_r s). now rewrite trimStart_ws.
Qed.

Lemma forallb_rev {A : Type} (f : A -> bool) (l : list A) :
  forallb f (rev l) = forallb f l.
Proof.
  induction l as [|a l IH]; [reflexivity|]. simpl.
  rewrite forallb_app, IH. simpl. rewrite andb_true_r. apply andb_comm.
Qed.

Lemma trimEnd_ws (s post : jsstring) :
  forallb isWhiteSpace post = true -> trimEnd (s ++ post) = trimEnd s.
Proof.
  intro H. unfold trimEnd. rewrite rev_app_distr, trimStart_ws; [reflexivity|].
  now rewrite forallb_rev.
Qed.

Lemma trimEnd_prefix (s : jsstring) : exists post, s = trimEnd s ++ post.
Proof.
  destruct (trimStart_suffix (rev s)) as [pre E]. exists (rev pre).
  unfold trimEnd. rewrite <- rev_app_distr, <- E. now rewrite rev_involutive.
Qed.

Lemma trimEnd_idem (s : jsstring) : trimEnd (trimEnd s) = trimEnd s.
Proof. unfold trimEnd. now rewrite rev_involutive, trimStart_idem. Qed.

Lemma trimStart_trimEnd (s : jsstring) :
  trimStart s = s -> trimStart (trimEnd s) = trimEnd s.
Proof.
  intro H. destruct (trimEnd_prefix s) as [post E].
  destruct (trimEnd s) as [|c t] eqn:Et; [reflexivity|].
  rewrite E in H. simpl in H. simpl.
  destruct (isWhiteSpace c) eqn:Ec; [|reflexivity].
  exfalso. pose proof (trimStart_length (t ++ post)) as L.
  rewrite H in L. simpl in L. lia.
Qed.

(** trim is idempotent. *)
Lemma trim_idem (s : jsstring) : trim (trim s) = trim s.
Proof.
  unfold trim. rewrite trimStart_trimEnd by apply trimStart_idem.
  apply trimEnd_idem.
Qed.

Lemma trim_app_ws (s post : jsstring) :
  forallb isWhiteSpace post = true -> trim (s ++ post) = trim s.
Proof.
  intro H. unfold trim. induction s as [|c r IH].
  - simpl. now rewrite trimStart_all_ws.
  - simpl. destruct (isWhiteSpace c); [exact IH|].
    change (c :: r ++ post) with ((c :: r) ++ post). now apply trimEnd_ws.
Qed.

(** White space around a text does not change what trim returns. *)
Lemma trim_padding (pre s post : jsstring) :
  forallb isWhiteSpace pre = true -> forallb isWhiteSpace post = true ->
  trim (pre ++ s ++ post) = trim s.
Proof.
  intros Hpre Hpost. transitivity (trim (s ++ post)).
  - unfold trim. now rewrite trimStart_ws.
  - now apply trim_app_ws.
Qed.

(** A JSON text is extracted as it is, whatever white space surrounds it:
    the first attempt of the extractor. *)
Lemma safeJsonParse_plain (v : value) (s before after : jsstring) :
  JSON_parse s = Some v -> trim s = s ->
  forallb isWhiteSpace before = true -> forallb isWhiteSpace after = true ->
  safeJsonParse (VString (before ++ s ++ after)) = v.
Proof.
  intros Hp Ht Hb Ha. unfold safeJsonParse.
  rewrite (trim_padding before s after Hb Ha), Ht, Hp.
  destruct s; [discriminate Hp | reflexivity].
Qed.

(** The text [prefix ++ s ++ suffix] for an object text [s] and no brace
    outside it: the value of the first attempt that succeeds, the third
    giving [v]. *)
Lemma safeJsonParse_embedded_cases (v : value) (mid prefix suffix : jsstring) :
  JSON_parse (c_lbrace :: mid ++ [c_rbrace]) = Some v ->
  has_char c_lbrace prefix = false -> has_char c_rbrace suffix = false ->
  safeJsonParse (VString (prefix ++ (c_lbrace :: mid ++ [c_rbrace]) ++ suffix))
  = match JSON_parse (trim (prefix ++ (c_lbrace :: mid ++ [c_rbrace]) ++ suffix)) with
    | Some direct => direct
    | None =>
      match parseFenced (trim (prefix ++ (c_lbrace :: mid ++ [c_rbrace]) ++ suffix)) with
      | Some inFence => inFence
      | None => v
      end
    end.
Proof.
  intros Hp Hl Hr.
  destruct (JSON_parse (trim (prefix ++ (c_lbrace :: mid ++ [c_rbrace]) ++ suffix)))
    as [direct|] eqn:H1.
  - unfold safeJsonParse. rewrite H1.
    destruct (trim (prefix ++ (c_lbrace :: mid ++ [c_rbrace]) ++ suffix)) eqn:E;
      [discriminate H1 | reflexivity].
  - destruct (parseFenced (trim (prefix ++ (c_lbrace :: mid ++ [c_rbrace]) ++ suffix)))
      as [inFence|] eqn:H2.
    + unfold safeJsonParse. rewrite H1, H2.
      destruct (trim (prefix ++ (c_lbrace :: mid ++ [c_rbrace]) ++ suffix)) eqn:E;
        [discriminate H2 | reflexivity].
    + now apply safeJsonParse_embedded.
Qed.

(** *** Prose that cannot be JSON *)

Lemma isJsonWs_isWhiteSpace (c : char16) : isJsonWs c = true -> isWhiteSpace c = true.
Proof.
  unfold isJsonWs, isWhiteSpace. intro H.
  repeat (apply orb_true_iff in H as [H|H]); apply N.eqb_eq in H; subst c; reflexivity.
Qed.

Lemma JSON_parse_no_value (c : char16) (r : jsstring) :
  isWhiteSpace c = false -> startsValue c = false -> JSON_parse (c :: r) = None.
Proof.
  intros W S. unfold JSON_parse, json_fuel. cbn [json_value json_skip_ws].
  destruct (isJsonWs c) eqn:J; [apply isJsonWs_isWhiteSpace in J; congruence|].
  unfold startsValue in S. simpl in S.
  repeat (apply orb_false_iff in S as [? S]). unfold c_lbrace, c_quote in *.
  repeat match goal with
         | H : (c =? ?x)%N = false |- context [(c =? ?x)%N] => rewrite H
         end.
  unfold json_number.
  repeat match goal with
         | H : (c =? ?x)%N = false |- context [(c =? ?x)%N] => rewrite H
         end.
  assert (D : isDigit c = false).
  { unfold isDigit. apply andb_false_iff.
    repeat match goal with
           | H : (c =? ?x)%N = false |- _ => apply N.eqb_neq in H
           end.
    destruct (N.leb_spec 48 c), (N.leb_spec c 57); auto. lia. }
  rewrite D. reflexivity.
Qed.

Lemma startsWith_app_l (s t pat : jsstring) :
  startsWith s pat = true -> startsWith (s ++ t) pat = true.
Proof.
  revert s. induction pat as [|x pat IH]; intros s H; [reflexivity|].
  destruct s as [|c s]; [discriminate|]. simpl in *.
  apply andb_prop in H as [Hc Hs]. rewrite Hc. now apply IH.
Qed.

Lemma noFence_app_l (a b : jsstring) : noFence (a ++ b) = true -> noFence a = true.
Proof.
  induction a as [|c r IH]; intro H; [reflexivity|].
  simpl app in H. apply noFence_tail in H as [Hs Hr].
  unfold noFence; fold noFence. rewrite (IH Hr), andb_true_r.
  apply negb_true_iff. destruct (startsWith (c :: r) fence) eqn:E; [|reflexivity].
  apply (startsWith_app_l _ b) in E. simpl app in E. congruence.
Qed.

Lemma noFence_app_r (a b : jsstring) : noFence (a ++ b) = true -> noFence b = true.
Proof.
  induction a as [|c r IH]; intro H; [exact H|].
  simpl app in H. apply noFence_tail in H as [_ Hr]. now apply IH.
Qed.

Lemma noFence_trim (s : jsstring) : noFence s = true -> noFence (trim s) = true.
Proof.
  intro H. unfold trim.
  destruct (trimStart_suffix s) as (pre & E). rewrite E in H.
  apply noFence_app_r in H.
  destruct (trimEnd_prefix (trimStart s)) as (post & E'). rewrite E' in H.
  now apply noFence_app_l in H.
Qed.

(** An object text in prose: no brace outside it, no fence, and a first
    character with which no JSON value begins. *)
Lemma safeJsonParse_in_prose (v : value) (mid prefix suffix : jsstring)
  (c : char16) (p : jsstring) :
  JSON_parse (c_lbrace :: mid ++ [c_rbrace]) = Some v ->
  has_char c_lbrace prefix = false -> has_char c_rbrace suffix = false ->
  trimStart prefix = c :: p -> startsValue c = false ->
  includes (prefix ++ (c_lbrace :: mid ++ [c_rbrace]) ++ suffix) fence = false ->
  safeJsonParse (VString (prefix ++ (c_lbrace :: mid ++ [c_rbrace]) ++ suffix)) = v.
Proof.
  intros Hp Hl Hr Hs Hc Hf.
  rewrite (safeJsonParse_embedded_cases v mid prefix suffix Hp Hl Hr).
  assert (W : isWhiteSpace c = false).
  { apply (trimStart_head c p). rewrite <- Hs. apply trimStart_idem. }
  assert (P1 : JSON_parse (trim (prefix ++ (c_lbrace :: mid ++ [c_rbrace]) ++ suffix))
               = None).
  { rewrite trim_embedded, Hs. cbn [app]. now apply JSON_parse_no_value. }
  assert (P2 : parseFenced (trim (prefix ++ (c_lbrace :: mid ++ [c_rbrace]) ++ suffix))
               = None).
  { unfold parseFenced.
    now rewrite (fenceMatch_noFence _ (noFence_trim _ (includes_noFence _ Hf))). }
  now rewrite P1, P2.
Qed.

(** C5, counterexample: the string made of three backticks is lost when
    fenced; an object is lost behind a prefix holding an opening brace; a
    number is lost inside prose. *)
Lemma extraction_loses_values :
  ~ round_trip_as_specified (VString fence) [] []
  /\ ~ round_trip_as_specified one_field (js "{") []
  /\ ~ round_trip_as_specified (VNumber (num_of_Z 5)) (js "score: ") [].
Proof.
  split; [|split]; intro C.
  - destruct (C _ eq_refl) as [C1 _]. vm_compute in C1. discriminate.
  - destruct (C _ eq_refl) as [_ C2]. vm_compute in C2. discriminate.
  - destruct (C _ eq_refl) as [_ C2]. vm_compute in C2. discriminate.
Qed.

(** C5, amended: let s be a JSON text of v without surrounding white space
    (the compact serialisation of v, when JSON.parse inverts it).
    Extracting from s itself, with any white space before and after it,
    gives v.  If s holds no run of three backticks, extracting from the
    fenced text gives v.  If v is an object, so that s runs from an opening
    to a closing brace, then for every prefix without an opening brace and
    every suffix without a closing brace, extracting from
    prefix + s + suffix gives v, unless the trimmed text parses as JSON as
    a whole or holds a fenced block that parses: then that value is
    returned.  Neither is the case when the text holds no run of three
    backticks and its first character after white space is none with
    which a JSON value begins: then the extraction gives v. *)
Theorem extractor_round_trip (v : value) (s : jsstring) :
  JSON_parse s = Some v -> trim s = s -> round_trip v s.
Proof.
  intros Hp Ht. split; [|split; [|split]].
  - intros before after Hb Ha. now apply safeJsonParse_plain.
  - intro Hf. now apply safeJsonParse_fenced.
  - intros prefix suffix mid -> Hl Hr. now apply safeJsonParse_embedded_cases.
  - intros prefix suffix mid c p -> Hl Hr Hs Hc Hf.
    now apply (safeJsonParse_in_prose v mid prefix suffix c p).
Qed.

Lemma extractor_round_trip_witness :
  JSON_stringify sample_reply = Some sample_text
  /\ JSON_parse sample_text = Some sample_reply
  /\ trim sample_text = sample_text
  /\ includes sample_text fence = false
  /\ safeJsonParse (VString ([c_nl] ++ sample_text ++ js "  ")) = sample_reply
  /\ safeJsonParse (VString (fenced sample_text)) = sample_reply
  /\ safeJsonParse (VString (js "Sure! Here it is: " ++ sample_text ++ js " Done."))
     = sample_reply.
Proof.
  split; [reflexivity|]. split; [reflexivity|]. split; [reflexivity|].
  split; [reflexivity|].
  pose (R := extractor_round_trip sample_reply sample_text eq_refl eq_refl).
  split; [|split].
  - exact (proj1 R [c_nl] (js "  ") eq_refl eq_refl).
  - exact (proj1 (proj2 R) eq_refl).
  - exact (proj2 (proj2 (proj2 R)) (js "Sure! Here it is: ") (js " Done.")
             (dq "'score':25,'rationale':'ok'") 83%N (js "ure! Here it is: ")
             eq_refl eq_refl eq_refl eq_refl eq_refl eq_refl).
Defined.

(* ================================================================== *)
(** ** The fuel of JSON.parse always suffices *)
(* ================================================================== *)

Lemma json_skip_ws_length (s : jsstring) :
  (List.length (json_skip_ws s) <= List.length s)%nat.
Proof.
  induction s as [|c r IH]; [reflexivity|].
  simpl. destruct (isJsonWs c); simpl; lia.
Qed.

Lemma read_digits_length (s : jsstring) :
  forall acc cnt a c r, read_digits s acc cnt = (a, c, r) ->
    (List.length r <= List.length s)%nat.
Proof.
  induction s as [|x t IH]; intros acc cnt a c r; simpl.
  - intro H. injection H as _ _ <-. reflexivity.
  - destruct (isDigit x).
    + intro H. apply IH in H. lia.
    + intro H. injection H as _ _ <-. reflexivity.
Qed.

Lemma read_exponent_length (s : jsstring) (x : Z) (r : jsstring) :
  read_exponent s = Some (x, r) -> (List.length r <= List.length s)%nat.
Proof.
  unfold read_exponent. destruct s as [|c t].
  - intro H. injection H as _ <-. reflexivity.
  - destruct ((c =? 101)%N || (c =? 69)%N).
    + set (p := match t with
                | sg :: r1 => if (sg =? 45)%N then (true, r1)
                              else if (sg =? 43)%N then (false, r1) else (false, t)
                | [] => (false, t)
                end).
      assert (Lp : (List.length (snd p) <= List.length t)%nat).
      { unfold p. destruct t as [|sg r1]; [reflexivity|].
        destruct (sg =? 45)%N; [simpl; lia|].
        destruct (sg =? 43)%N; simpl; lia. }
      destruct p as [neg r']. simpl in Lp.
      destruct (read_digits r' 0 0) as [[d cnt] rest] eqn:E.
      apply read_digits_length in E.
      destruct (cnt =? 0); [discriminate|].
      intro H. injection H as _ <-. simpl. lia.
    + intro H. injection H as _ <-. reflexivity.
Qed.

Lemma json_string_length (n : nat) :
  forall s acc str r, (List.length s <= n)%nat ->
    json_string s acc = Some (str, r) -> (List.length r < List.length s)%nat.
Proof.
  induction n as [|n IH]; intros s acc str r Hn.
  - destruct s; [discriminate | simpl in Hn; lia].
  - destruct s as [|c t]; [discriminate|]. simpl in Hn.
    cbn [json_string].
    destruct (c =? 34)%N.
    { intro H. injection H as _ <-. simpl. lia. }
    destruct (c =? 92)%N.
    { destruct t as [|e r1]; [discriminate|]. simpl in Hn.
      assert (K : forall u, json_string r1 u = Some (str, r) ->
                    (List.length r < List.length (c :: e :: r1))%nat).
      { intros u H. apply IH in H; [simpl; lia | lia]. }
      destruct (e =? 34)%N; [apply K|].
      destruct (e =? 92)%N; [apply K|].
      destruct (e =? 47)%N; [apply K|].
      destruct (e =? 98)%N; [apply K|].
      destruct (e =? 102)%N; [apply K|].
      destruct (e =? 110)%N; [apply K|].
      destruct (e =? 114)%N; [apply K|].
      destruct (e =? 116)%N; [apply K|].
      destruct (e =? 117)%N; [|discriminate].
      destruct r1 as [|h1 [|h2 [|h3 [|h4 r2]]]]; try discriminate.
      destruct (hex4 h1 h2 h3 h4); [|discriminate].
      intro H. apply IH in H; simpl in *; lia. }
    destruct (c <? 32)%N; [discriminate|].
    intro H. apply IH in H; simpl; lia.
Qed.

Lemma json_number_length (s : jsstring) (n : num) (r : jsstring) :
  json_number s = Some (n, r) -> (List.length r < List.length s)%nat.
Proof.
  unfold json_number.
  set (p := match s with
            | c :: r0 => if (c =? 45)%N then (true, r0) else (false, s)
            | [] => (false, s)
            end).
  assert (Lp : (List.length (snd p) <= List.length s)%nat).
  { unfold p. destruct s as [|c r0]; [reflexivity|].
    destruct (c =? 45)%N; simpl; lia. }
  destruct p as [neg s1]. simpl in Lp.
  destruct s1 as [|c t]; [discriminate|].
  destruct (negb (isDigit c)) eqn:D; [discriminate|].
  apply negb_false_iff in D.
  set (q := if (c =? 48)%N then (0, 1, t) else read_digits (c :: t) 0 0).
  assert (Lq : (List.length (snd q) <= List.length t)%nat).
  { unfold q. destruct (c =? 48)%N; [reflexivity|].
    simpl. rewrite D.
    match goal with |- context [read_digits t ?a ?b] =>
      destruct (read_digits t a b) as [[x y] r1] eqn:E end.
    apply read_digits_length in E. exact E. }
  destruct q as [[i ci] r1]. simpl in Lq.
  set (frac := match r1 with
               | d :: r2 =>
                 if (d =? 46)%N then
                   let '(m, cf, r3) := read_digits r2 i 0 in
                   if cf =? 0 then None else Some (m, cf, r3)
                 else Some (i, 0, r1)
               | [] => Some (i, 0, r1)
               end).
  assert (Lf : forall m cf r3, frac = Some (m, cf, r3) ->
                 (List.length r3 <= List.length r1)%nat).
  { unfold frac. intros m cf r3. destruct r1 as [|d r2].
    - intro H. injection H as _ _ <-. reflexivity.
    - destruct (d =? 46)%N.
      + destruct (read_digits r2 i 0) as [[m' cf'] r3'] eqn:E.
        apply read_digits_length in E.
        destruct (cf' =? 0); [discriminate|].
        intro H. injection H as _ _ <-. simpl. lia.
      + intro H. injection H as _ _ <-. reflexivity. }
  destruct frac as [[[m cf] r3]|]; [|discriminate].
  specialize (Lf _ _ _ eq_refl).
  destruct (read_exponent r3) as [[x rest]|] eqn:E; [|discriminate].
  apply read_exponent_length in E.
  intro H. injection H as _ <-. simpl in *. lia.
Qed.

Lemma literal_length (s word : jsstring) (v w : value) (r : jsstring) :
  word <> [] -> literal s word v = POk w r -> (List.length r < List.length s)%nat.
Proof.
  intros Hw. unfold literal. destruct (startsWith s word) eqn:E; [|discriminate].
  intro H. injection H as _ <-.
  destruct word as [|p word']; [congruence|].
  destruct s as [|c t]; [discriminate|].
  rewrite length_skipn. simpl. lia.
Qed.

Lemma json_consumes (f : nat) :
  (forall s v r, json_value f s = POk v r -> (List.length r < List.length s)%nat)
  /\ (forall s acc v r, json_elements f s acc = POk v r ->
        (List.length r < List.length s)%nat)
  /\ (forall s acc v r, json_members f s acc = POk v r ->
        (List.length r < List.length s)%nat).
Proof.
  induction f as [|f (IHv & IHe & IHm)]; [repeat split; discriminate|].
  split; [|split].
  - intros s v r. cbn [json_value].
    pose proof (json_skip_ws_length s) as Ls.
    destruct (json_skip_ws s) as [|c r0]; [discriminate|]. simpl in Ls.
    destruct (c =? 123)%N.
    { pose proof (json_skip_ws_length r0) as L0.
      destruct (json_skip_ws r0) as [|c' r']; [discriminate|]. simpl in L0.
      destruct (c' =? 125)%N.
      - intro H. injection H as _ <-. lia.
      - intro H. apply IHm in H. lia. }
    destruct (c =? 91)%N.
    { pose proof (json_skip_ws_length r0) as L0.
      destruct (json_skip_ws r0) as [|c' r']; [discriminate|]. simpl in L0.
      destruct (c' =? 93)%N.
      - intro H. injection H as _ <-. lia.
      - intro H. apply IHe in H. lia. }
    destruct (c =? 34)%N.
    { destruct (json_string r0 []) as [[str r']|] eqn:E; [|discriminate].
      apply (json_string_length (List.length r0)) in E; [|lia].
      intro H. injection H as _ <-. lia. }
    destruct (c =? 116)%N.
    { intro H. apply literal_length in H; [simpl in H; lia | discriminate]. }
    destruct (c =? 102)%N.
    { intro H. apply literal_length in H; [simpl in H; lia | discriminate]. }
    destruct (c =? 110)%N.
    { intro H. apply literal_length in H; [simpl in H; lia | discriminate]. }
    destruct (json_number (c :: r0)) as [[n r']|] eqn:E; [|discriminate].
    apply json_number_length in E. intro H. injection H as _ <-. simpl in E. lia.
  - intros s acc v r. cbn [json_elements].
    destruct (json_value f s) as [v0 r0| |] eqn:E; try discriminate.
    apply IHv in E.
    pose proof (json_skip_ws_length r0) as L0.
    destruct (json_skip_ws r0) as [|c r']; [discriminate|]. simpl in L0.
    destruct (c =? 44)%N; [intro H; apply IHe in H; lia|].
    destruct (c =? 93)%N; [|discriminate].
    intro H. injection H as _ <-. lia.
  - intros s acc v r. cbn [json_members].
    pose proof (json_skip_ws_length s) as Ls.
    destruct (json_skip_ws s) as [|q0 r0]; [discriminate|]. simpl in Ls.
    destruct (negb (q0 =? 34)%N); [discriminate|].
    destruct (json_string r0 []) as [[k r1]|] eqn:Ek; [|discriminate].
    apply (json_string_length (List.length r0)) in Ek; [|lia].
    pose proof (json_skip_ws_length r1) as L1.
    destruct (json_skip_ws r1) as [|colon r2]; [discriminate|]. simpl in L1.
    destruct (negb (colon =? 58)%N); [discriminate|].
    destruct (json_value f r2) as [v0 r3| |] eqn:E; try discriminate.
    apply IHv in E.
    pose proof (json_skip_ws_length r3) as L3.
    destruct (json_skip_ws r3) as [|c r4]; [discriminate|]. simpl in L3.
    destruct (c =? 44)%N; [intro H; apply IHm in H; lia|].
    destruct (c =? 125)%N; [|discriminate].
    intro H. injection H as _ <-. lia.
Qed.

Lemma literal_no_fuel (s word : jsstring) (v : value) : literal s word v <> PFuel.
Proof. unfold literal. destruct (startsWith s word); discriminate. Qed.

Lemma json_fuel_enough (f : nat) :
  (forall s, (2 * List.length s + 1 <= f)%nat -> json_value f s <> PFuel)
  /\ (forall s acc, (2 * List.length s + 2 <= f)%nat -> json_elements f s acc <> PFuel)
  /\ (forall s acc, (2 * List.length s + 2 <= f)%nat -> json_members f s acc <> PFuel).
Proof.
  induction f as [|f (IHv & IHe & IHm)].
  { repeat split; intros; lia. }
  destruct (json_consumes f) as (Cv & _ & _).
  split; [|split].
  - intros s Hf. cbn [json_value].
    pose proof (json_skip_ws_length s) as Ls.
    destruct (json_skip_ws s) as [|c r0]; [discriminate|]. simpl in Ls.
    destruct (c =? 123)%N.
    { destruct (json_skip_ws r0) as [|c' r']; [discriminate|].
      destruct (c' =? 125)%N; [discriminate|]. apply IHm. lia. }
    destruct (c =? 91)%N.
    { destruct (json_skip_ws r0) as [|c' r']; [discriminate|].
      destruct (c' =? 93)%N; [discriminate|]. apply IHe. lia. }
    destruct (c =? 34)%N.
    { destruct (json_string r0 []) as [[str r']|]; discriminate. }
    destruct (c =? 116)%N; [apply literal_no_fuel|].
    destruct (c =? 102)%N; [apply literal_no_fuel|].
    destruct (c =? 110)%N; [apply literal_no_fuel|].
    destruct (json_number (c :: r0)) as [[n r']|]; discriminate.
  - intros s acc Hf. cbn [json_elements].
    pose proof (IHv s) as Nv.
    destruct (json_value f s) as [v0 r0| |] eqn:E; [|discriminate|apply Nv; lia].
    apply Cv in E.
    pose proof (json_skip_ws_length r0) as L0.
    destruct (json_skip_ws r0) as [|c r']; [discriminate|]. simpl in L0.
    destruct (c =? 44)%N; [apply IHe; lia|].
    destruct (c =? 93)%N; discriminate.
  - intros s acc Hf. cbn [json_members].
    pose proof (json_skip_ws_length s) as Ls.
    destruct (json_skip_ws s) as [|q0 r0]; [discriminate|]. simpl in Ls.
    destruct (negb (q0 =? 34)%N); [discriminate|].
    destruct (json_string r0 []) as [[k r1]|] eqn:Ek; [|discriminate].
    apply (json_string_length (List.length r0)) in Ek; [|lia].
    pose proof (json_skip_ws_length r1) as L1.
    destruct (json_skip_ws r1) as [|colon r2]; [discriminate|]. simpl in L1.
    destruct (negb (colon =? 58)%N); [discriminate|].
    pose proof (IHv r2) as Nv.
    destruct (json_value f r2) as [v0 r3| |] eqn:E; [|discriminate|apply Nv; lia].
    apply Cv in E.
    pose proof (json_skip_ws_length r3) as L3.
    destruct (json_skip_ws r3) as [|c r4]; [discriminate|]. simpl in L3.
    destruct (c =? 44)%N; [apply IHm; lia|].
    destruct (c =? 125)%N; discriminate.
Qed.

(** JSON.parse never stops for lack of fuel: [None] is a syntax error. *)
Lemma JSON_parse_total (s : jsstring) : json_value (json_fuel s) s <> PFuel.
Proof. apply (json_fuel_enough (json_fuel s)). unfold json_fuel. lia. Qed.

(* ================================================================== *)
(** ** Further facts about strings and numbers *)
(* ================================================================== *)

Lemma has_char_indexOf (c : char16) (s : jsstring) (i : Z) :
  0 <= i -> has_char c s = true -> 0 <= indexOf_from i s [c].
Proof.
  revert i. induction s as [|x r IH]; intros i Hi H; [discriminate|].
  cbn [indexOf_from startsWith]. destruct (x =? c)%N eqn:E; simpl; [lia|].
  apply IH; [lia|]. unfold has_char in *. simpl in H.
  rewrite N.eqb_sym, E in H. exact H.
Qed.

Lemma includes_has_char (c : char16) (s : jsstring) :
  includes s [c] = has_char c s.
Proof.
  unfold includes, indexOf. destruct (has_char c s) eqn:H.
  - pose proof (has_char_indexOf c s 0 ltac:(lia) H) as P.
    destruct (indexOf_from 0 s [c] =? -1) eqn:E; [|reflexivity].
    apply Z.eqb_eq in E. lia.
  - now rewrite indexOf_absent.
Qed.

Lemma startsWith_app (s pat : jsstring) :
  startsWith s pat = true -> s = pat ++ skipn (List.length pat) s.
Proof.
  revert s. induction pat as [|p pat IH]; intros s H; [reflexivity|].
  destruct s as [|c s]; [discriminate|]. simpl in H.
  apply andb_prop in H as [Hc Hs]. apply N.eqb_eq in Hc. subst c.
  simpl. f_equal. now apply IH.
Qed.

Lemma SFcompare_Eq (a b : num) :
  SFcompare a b = Some Eq -> a = b \/ (num_isZero a = true /\ num_isZero b = true).
Proof.
  destruct a as [sa|sa| |sa ma ea], b as [sb|sb| |sb mb eb]; simpl; intro H;
    try discriminate H; try (right; split; reflexivity);
    try (destruct sa; discriminate H); try (destruct sb; discriminate H).
  - destruct sa, sb; try discriminate H; now left.
  - destruct sa, sb; try discriminate H;
      destruct (Z.compare ea eb) eqn:Ee; try discriminate H;
      apply Z.compare_eq in Ee; subst eb; left; f_equal; injection H as H.
    + destruct (Pos.compare_cont Eq ma mb) eqn:Em; try discriminate H.
      now apply Pos.compare_eq in Em.
    + now apply Pos.compare_eq in H.
Qed.

Lemma num_eqb_refl (x : num) : num_isNaN x = false -> num_eqb x x = true.
Proof. intro H. unfold num_eqb, SFeqb. now rewrite SFcompare_refl. Qed.

Lemma num_leb_zero_l (a b h : num) :
  num_isZero a = true -> num_isZero b = true -> num_leb a h = num_leb b h.
Proof. destruct a, b; try discriminate. reflexivity. Qed.

Lemma num_eqb_zeros (a b : num) :
  num_isZero a = true -> num_isZero b = true -> num_eqb a b = true.
Proof. destruct a, b; try discriminate. reflexivity. Qed.

Lemma num_leb_cases (a b : num) :
  num_leb a b = true -> num_ltb a b = true \/ SFcompare a b = Some Eq.
Proof.
  unfold num_leb, num_ltb, SFleb, SFltb.
  destruct (SFcompare a b) as [[| |]|]; try discriminate; auto.
Qed.

Lemma num_ltb_not_Eq (a b : num) :
  SFcompare a b = Some Eq -> num_ltb a b = false.
Proof. unfold num_ltb, SFltb. now intros ->. Qed.

Lemma SFcompare_sym_Eq (a b : num) :
  SFcompare a b = Some Eq -> SFcompare b a = Some Eq.
Proof.
  intro H. destruct (SFcompare_Eq a b H) as [->|[Za Zb]]; [exact H|].
  destruct a, b; try discriminate. reflexivity.
Qed.

(** A number within the bounds is left as it is by the two steps of a
    clamp, up to the sign of zero. *)
Lemma max_step_inside (lo x : num) :
  num_leb lo x = true ->
  max_step lo x = x \/ (num_isZero (max_step lo x) = true /\ num_isZero x = true).
Proof.
  intro H. destruct (num_leb_cases lo x H) as [L|E].
  - left. unfold max_step. rewrite L. destruct x as [[|]| | |]; destruct lo as [[|]| | |]; reflexivity.
  - destruct (SFcompare_Eq lo x E) as [->|[Zl Zx]].
    + left. unfold max_step. rewrite (num_ltb_not_Eq _ _ E).
      destruct x as [[|]| | |]; reflexivity.
    + right. split; [|exact Zx]. destruct lo, x; try discriminate.
      destruct s, s0; reflexivity.
Qed.

Lemma min_step_inside (hi x : num) :
  num_leb x hi = true ->
  min_step hi x = x \/ (num_isZero (min_step hi x) = true /\ num_isZero x = true).
Proof.
  intro H. destruct (num_leb_cases x hi H) as [L|E].
  - left. unfold min_step. rewrite L. destruct x as [[|]| | |]; destruct hi as [[|]| | |]; reflexivity.
  - destruct (SFcompare_Eq x hi E) as [->|[Zx Zh]].
    + left. unfold min_step. rewrite (num_ltb_not_Eq _ _ E).
      destruct hi as [[|]| | |]; reflexivity.
    + right. split; [|exact Zx]. destruct hi, x; try discriminate.
      destruct s, s0; reflexivity.
Qed.

Lemma num_leb_notNaN_l (a b : num) : num_leb a b = true -> num_isNaN a = false.
Proof.
  unfold num_leb, SFleb. destruct a; try reflexivity. simpl. discriminate.
Qed.

Lemma clamp_inside (lo hi x : num) :
  num_leb lo x = true -> num_leb x hi = true ->
  num_eqb (Math_min hi (Math_max lo x)) x = true.
Proof.
  intros Hlo Hhi.
  pose proof (num_leb_notNaN_l _ _ Hlo) as Nlo.
  pose proof (num_leb_notNaN_r _ _ Hlo) as Nx.
  pose proof (num_leb_notNaN_r _ _ Hhi) as Nhi.
  assert (Ny : num_isNaN (max_step lo x) = false) by now apply max_step_notNaN.
  unfold Math_min, Math_max. rewrite Nlo, Nx. cbn [orb].
  rewrite (max_from_infinity lo Nlo), Nhi, Ny. cbn [orb].
  rewrite (min_from_infinity hi Nhi).
  destruct (max_step_inside lo x Hlo) as [->|[Zy Zx]].
  - destruct (min_step_inside hi x Hhi) as [->|[Zz _]].
    + now apply num_eqb_refl.
    + destruct (min_step_inside hi x Hhi) as [E|[_ Zx]].
      * rewrite E. now apply num_eqb_refl.
      * now apply num_eqb_zeros.
  - assert (Hy : num_leb (max_step lo x) hi = true)
      by now rewrite (num_leb_zero_l _ x hi Zy Zx).
    destruct (min_step_inside hi _ Hy) as [->|[Zz _]]; now apply num_eqb_zeros.
Qed.

(* ================================================================== *)
(** ** clampNumber and the selectors of provider and model *)
(* ================================================================== *)

(** X1: for bounds min <= max, clampNumber fails only when Number(n) does;
    it returns the fallback exactly when Number(n) is not finite, and
    otherwise a number within [min, max] that equals (===) Number(n)
    whenever Number(n) already lies within the bounds. *)
Theorem clampNumber_range (n : value) (lo hi fallback : num) :
  num_leb lo hi = true ->
  match ToNumber n with
  | Throw e => clampNumber n lo hi fallback = Throw e
  | Return x =>
    exists r, clampNumber n lo hi fallback = Return r
      /\ (num_isFinite x = false -> r = fallback)
      /\ (num_isFinite x = true ->
          num_leb lo r = true /\ num_leb r hi = true
          /\ (num_leb lo x = true -> num_leb x hi = true -> num_eqb r x = true))
  end.
Proof.
  intro H. unfold clampNumber.
  destruct (ToNumber n) as [x|e]; [|reflexivity]. cbn [bind].
  destruct (num_isFinite x) eqn:F; cbn [negb].
  - eexists. split; [reflexivity|]. split; [discriminate|]. intros _.
    assert (Nx : num_isNaN x = false) by (destruct x; try discriminate; reflexivity).
    destruct (clamp_bounds lo hi x H (num_leb_notNaN_l _ _ H) Nx) as [B1 B2].
    repeat split; auto. intros. now apply clamp_inside.
  - eexists. split; [reflexivity|]. split; [reflexivity|discriminate].
Qed.

Lemma clampNumber_range_witness :
  num_leb (num_of_Z 5) (num_of_Z 120) = true
  /\ match ToNumber (VString (js "7")) with
     | Throw e =>
       clampNumber (VString (js "7")) (num_of_Z 5) (num_of_Z 120) (num_of_Z 15) = Throw e
     | Return x =>
       exists r, clampNumber (VString (js "7")) (num_of_Z 5) (num_of_Z 120) (num_of_Z 15)
                 = Return r
         /\ (num_isFinite x = false -> r = num_of_Z 15)
         /\ (num_isFinite x = true ->
             num_leb (num_of_Z 5) r = true /\ num_leb r (num_of_Z 120) = true
             /\ (num_leb (num_of_Z 5) x = true -> num_leb x (num_of_Z 120) = true ->
                 num_eqb r x = true))
     end.
Proof.
  split; [reflexivity|].
  apply (clampNumber_range (VString (js "7")) (num_of_Z 5) (num_of_Z 120) (num_of_Z 15)).
  reflexivity.
Defined.

(** X2: whatever the selector, the provider name the server computes is
    one of "openai", "google" and "claude"; normalising it again changes
    nothing, and on it the browser build selects the same adapter as the
    server. *)
Theorem normalizeProvider_canonical (selector : value) (p : jsstring) :
  Server.normalizeProvider selector = Return p ->
  (p = js "openai" \/ p = js "google" \/ p = js "claude")
  /\ Server.normalizeProvider (VString p) = Return p
  /\ Static.selectAdapter (VString p) = Server.selectAdapter p.
Proof.
  unfold Server.normalizeProvider.
  destruct (ToString (or_else selector (VString []))) as [s|e]; [|discriminate].
  cbn [bind].
  repeat match goal with
         | |- context [if ?b then _ else _] => destruct b
         end;
    intro H; injection H as <-;
    (split; [auto|split; vm_compute; reflexivity]).
Qed.

Lemma normalizeProvider_canonical_witness :
  Server.normalizeProvider (VString (js " Gemini ")) = Return (js "google")
  /\ (js "google" = js "openai" \/ js "google" = js "google" \/ js "google" = js "claude")
  /\ Server.normalizeProvider (VString (js "google")) = Return (js "google")
  /\ Static.selectAdapter (VString (js "google")) = Server.selectAdapter (js "google").
Proof.
  split; [vm_compute; reflexivity|].
  apply (normalizeProvider_canonical (VString (js " Gemini "))).
  vm_compute. reflexivity.
Defined.

Lemma lowerUnit_ws (c : char16) : isWhiteSpace c = true -> lowerUnit c = [c].
Proof.
  intro H. unfold lowerUnit.
  destruct ((65 <=? c) && (c <=? 90))%N eqn:E1.
  { exfalso. apply andb_prop in E1 as [A B].
    apply N.leb_le in A. apply N.leb_le in B. unfold isWhiteSpace in H.
    repeat (apply orb_prop in H; destruct H as [H|H]);
      try (apply andb_prop in H as [H1 H2]; apply N.leb_le in H1;
           apply N.leb_le in H2; lia);
      try (apply N.eqb_eq in H; lia). }
  destruct (c =? 8490)%N eqn:E2.
  { exfalso. apply N.eqb_eq in E2. subst c. discriminate. }
  destruct (c =? 304)%N eqn:E3.
  { exfalso. apply N.eqb_eq in E3. subst c. discriminate. }
  reflexivity.
Qed.

Lemma toLowerCase_ws (s : jsstring) :
  forallb isWhiteSpace s = true -> toLowerCase s = s.
Proof.
  induction s as [|c r IH]; [reflexivity|]. simpl.
  intro H. apply andb_prop in H as [Hc Hr].
  rewrite (lowerUnit_ws c Hc). simpl. f_equal. now apply IH.
Qed.

Lemma toLowerCase_app (a b : jsstring) :
  toLowerCase (a ++ b) = toLowerCase a ++ toLowerCase b.
Proof. apply flat_map_app. Qed.

(** X3: white space before and after the provider selector does not
    change the provider the server selects. *)
Theorem normalizeProvider_ignores_padding (pre s post : jsstring) :
  forallb isWhiteSpace pre = true -> forallb isWhiteSpace post = true ->
  Server.normalizeProvider (VString (pre ++ s ++ post))
  = Server.normalizeProvider (VString s).
Proof.
  intros Hpre Hpost.
  assert (T : forall u, ToString (or_else (VString u) (VString [])) = Return u).
  { intro u. destruct u; reflexivity. }
  unfold Server.normalizeProvider. rewrite !T. cbn [bind].
  rewrite !toLowerCase_app, (toLowerCase_ws pre Hpre), (toLowerCase_ws post Hpost).
  now rewrite (trim_padding pre (toLowerCase s) post Hpre Hpost).
Qed.

Lemma normalizeProvider_ignores_padding_witness :
  forallb isWhiteSpace (js "  ") = true /\ forallb isWhiteSpace [c_nl] = true
  /\ Server.normalizeProvider (VString (js "  " ++ js "Claude" ++ [c_nl]))
     = Server.normalizeProvider (VString (js "Claude")).
Proof.
  split; [reflexivity|]. split; [reflexivity|].
  apply (normalizeProvider_ignores_padding (js "  ") (js "Claude") [c_nl]); reflexivity.
Defined.

(** X4: the model name the server passes on is either the default of the
    provider or the trimmed string form of the request's model, and then it
    is not empty, at most 120 code units long, free of line feeds and
    carriage returns, and without white space at either end. *)
Theorem normalizeModel_result (env : Env) (provider : jsstring) (model : value)
  (m : jsstring) :
  Server.normalizeModel env provider model = Return m ->
  m = Server.defaultModelForProvider env provider
  \/ (exists s, ToString (or_else model (VString [])) = Return s /\ m = trim s)
     /\ m <> [] /\ (List.length m <= 120)%nat
     /\ has_char 10%N m = false /\ has_char 13%N m = false
     /\ trim m = m.
Proof.
  unfold Server.normalizeModel.
  destruct (ToString (or_else model (VString []))) as [s|e]; [|discriminate].
  cbn [bind]. destruct (trim s) as [|c t] eqn:Et.
  { intro H. injection H as <-. now left. }
  destruct (120 <? List.length (c :: t))%nat eqn:El.
  { intro H. injection H as <-. now left. }
  rewrite !includes_has_char.
  destruct (has_char 10%N (c :: t)) eqn:H10; [intro H; injection H as <-; now left|].
  destruct (has_char 13%N (c :: t)) eqn:H13; [intro H; injection H as <-; now left|].
  cbn [orb]. intro H. injection H as <-. right.
  apply Nat.ltb_ge in El.
  repeat split; auto; try discriminate.
  - exists s. split; [reflexivity|]. now symmetry.
  - rewrite <- Et. apply trim_idem.
Qed.

Lemma normalizeModel_result_witness :
  Server.normalizeModel no_env (js "openai") (VString (js " gpt-4o ")) = Return (js "gpt-4o")
  /\ (js "gpt-4o" = Server.defaultModelForProvider no_env (js "openai")
      \/ (exists s, ToString (or_else (VString (js " gpt-4o ")) (VString [])) = Return s
                    /\ js "gpt-4o" = trim s)
         /\ js "gpt-4o" <> [] /\ (List.length (js "gpt-4o") <= 120)%nat
         /\ has_char 10%N (js "gpt-4o") = false /\ has_char 13%N (js "gpt-4o") = false
         /\ trim (js "gpt-4o") = js "gpt-4o").
Proof.
  split; [vm_compute; reflexivity|].
  apply (normalizeModel_result no_env (js "openai") (VString (js " gpt-4o "))).
  vm_compute. reflexivity.
Defined.

(** X5: the Google model name that reaches the request path is never
    empty and contains none of the characters / ? and #; it is the trimmed
    string form of the given model, without one leading "models/". *)
Theorem sanitizeGoogleModel_safe (model : value) (m : jsstring) :
  Server.sanitizeGoogleModel model = Return m ->
  m <> []
  /\ has_char 47%N m = false /\ has_char 63%N m = false /\ has_char 35%N m = false
  /\ exists s, ToString (or_else model (VString [])) = Return s
       /\ (trim s = m \/ trim s = js "models/" ++ m).
Proof.
  unfold Server.sanitizeGoogleModel.
  destruct (ToString (or_else model (VString []))) as [s|e]; [|discriminate].
  cbn [bind].
  set (w := if startsWith (trim s) (js "models/")
            then slice_from (trim s) (str_length (js "models/")) else trim s).
  assert (W : trim s = w \/ trim s = js "models/" ++ w).
  { subst w. destruct (startsWith (trim s) (js "models/")) eqn:E; [right|now left].
    apply startsWith_app in E. exact E. }
  clearbody w. destruct w as [|c t]; [discriminate|].
  change (js "/") with [47%N]. change (js "?") with [63%N]. change (js "#") with [35%N].
  rewrite !includes_has_char.
  destruct (has_char 47%N (c :: t)) eqn:H1; [discriminate|].
  destruct (has_char 63%N (c :: t)) eqn:H2; [discriminate|].
  destruct (has_char 35%N (c :: t)) eqn:H3; [discriminate|].
  cbn [orb]. intro H. injection H as <-.
  repeat split; auto; try discriminate.
  exists s. split; [reflexivity|exact W].
Qed.

Lemma sanitizeGoogleModel_safe_witness :
  Server.sanitizeGoogleModel (VString (js " models/gemini-1.5-pro "))
  = Return (js "gemini-1.5-pro")
  /\ js "gemini-1.5-pro" <> []
  /\ has_char 47%N (js "gemini-1.5-pro") = false
  /\ has_char 63%N (js "gemini-1.5-pro") = false
  /\ has_char 35%N (js "gemini-1.5-pro") = false
  /\ exists s, ToString (or_else (VString (js " models/gemini-1.5-pro ")) (VString []))
               = Return s
       /\ (trim s = js "gemini-1.5-pro" \/ trim s = js "models/" ++ js "gemini-1.5-pro").
Proof.
  split; [vm_compute; reflexivity|].
  apply (sanitizeGoogleModel_safe (VString (js " models/gemini-1.5-pro "))).
  vm_compute. reflexivity.
Defined.

(* ================================================================== *)
(** ** The provider adapters: keys, failures and where the text comes from *)
(* ================================================================== *)

Lemma ToString_string_or_empty (u : jsstring) :
  ToString (or_else (VString u) (VString [])) = Return u.
Proof. destruct u; reflexivity. Qed.

Lemma resolveKey_string (apiKey : jsstring) (fallbacks : list (option jsstring)) :
  Server.resolveKey (VString apiKey) fallbacks
  = Return (fold_left (fun acc o => or_else acc (env_value o)) fallbacks
              (VString (trim apiKey))).
Proof. unfold Server.resolveKey. now rewrite ToString_string_or_empty. Qed.

Lemma or_else_fold_truthy (v : value) (fallbacks : list (option jsstring)) :
  truthy v = true ->
  fold_left (fun acc o => or_else acc (env_value o)) fallbacks v = v.
Proof.
  revert v. induction fallbacks as [|o r IH]; intros v H; [reflexivity|].
  simpl. unfold or_else at 2. rewrite H. now apply IH.
Qed.

Lemma or_else_fold_unset (v : value) (fallbacks : list (option jsstring)) :
  truthy v = false ->
  forallb (fun o => negb (truthy (env_value o))) fallbacks = true ->
  truthy (fold_left (fun acc o => or_else acc (env_value o)) fallbacks v) = false.
Proof.
  revert v. induction fallbacks as [|o r IH]; intros v H F; [exact H|].
  simpl in *. apply andb_prop in F as [Fo Fr].
  apply IH; [|exact Fr]. unfold or_else. rewrite H.
  now apply negb_true_iff in Fo.
Qed.

(** X6: when the request carries no key (only white space) and the
    environment sets none for the provider, the server adapter fails with
    its missing-key error whatever the network would have answered: nothing
    is requested.  The browser adapters do the same for an empty key. *)
Theorem missing_key_raised_before_request (a : Server.Adapter) (env : Env)
  (apiKey model : jsstring) (browserModel : value) (fetched : completion Response) :
  trim apiKey = [] ->
  forallb (fun o => negb (truthy (env_value o))) (envKeys a env) = true ->
  Server.callAdapter a env (VString apiKey) model fetched = Throw (missingKey a)
  /\ Static.callAdapter a [] browserModel fetched
     = Throw (Error (js "Missing " ++ js (Server.vendor a) ++ js " API key")).
Proof.
  intros Hk He. split; [|destruct a; vm_compute; reflexivity].
  pose proof (or_else_fold_unset (VString (trim apiKey)) (envKeys a env)) as U.
  rewrite Hk in U. specialize (U eq_refl He).
  destruct a; unfold Server.callAdapter, Server.callOpenAI, Server.callGoogle,
    Server.callClaude; rewrite resolveKey_string, Hk; cbn [bind];
    unfold envKeys in U;
    destruct (fold_left _ _ _) as [| | | |[|c k]| |]; try discriminate U; reflexivity.
Qed.

Lemma missing_key_raised_before_request_witness :
  trim (js "  ") = []
  /\ forallb (fun o => negb (truthy (env_value o))) (envKeys Server.Google no_env) = true
  /\ Server.callAdapter Server.Google no_env (VString (js "  ")) (js "gemini-1.5-flash")
       (Return good_openai)
     = Throw (missingKey Server.Google)
  /\ Static.callAdapter Server.Google [] VUndefined (Return good_openai)
     = Throw (Error (js "Missing " ++ js (Server.vendor Server.Google) ++ js " API key")).
Proof.
  split; [reflexivity|]. split; [reflexivity|].
  apply (missing_key_raised_before_request Server.Google no_env (js "  ")
           (js "gemini-1.5-flash") VUndefined (Return good_openai)); reflexivity.
Defined.

Lemma resolveKey_request (apiKey : jsstring) (fallbacks : list (option jsstring)) :
  trim apiKey <> [] ->
  Server.resolveKey (VString apiKey) fallbacks = Return (VString (trim apiKey)).
Proof.
  intro H. rewrite resolveKey_string, or_else_fold_truthy; [reflexivity|].
  simpl. now destruct (trim apiKey).
Qed.

Lemma invalidKey_text :
  Error (js "OpenAI API key format looks invalid") = invalidKey Server.OpenAI
  /\ Error (js "Anthropic API key format looks invalid") = invalidKey Server.Claude.
Proof. split; vm_compute; reflexivity. Qed.

(** What a server adapter does with the key it resolves. *)
Lemma server_call_with_key (a : Server.Adapter) (env : Env) (apiKey : value)
  (model : jsstring) (fetched : completion Response) (c : char16) (k : jsstring) :
  Server.resolveKey apiKey (envKeys a env) = Return (VString (c :: k)) ->
  Server.callAdapter a env apiKey model fetched = keyed a (c :: k) model fetched.
Proof.
  intro H. destruct invalidKey_text as [IO IC].
  destruct a; unfold Server.callAdapter, Server.callOpenAI, Server.callGoogle,
    Server.callClaude, keyed, wellFormedKey; unfold envKeys in H; rewrite H;
    cbn [bind].
  - rewrite IO. generalize (startsWith (c :: k) (js "sk-")). intro b.
    rewrite Nat.leb_antisym.
    destruct b, (List.length (c :: k) <? 20)%nat; reflexivity.
  - reflexivity.
  - rewrite IC, Nat.leb_antisym.
    destruct (List.length (c :: k) <? 20)%nat; reflexivity.
Qed.

(** What a server adapter does with a key carried by the request. *)
Lemma server_call_with_request_key (a : Server.Adapter) (env : Env)
  (apiKey model : jsstring) (fetched : completion Response) :
  trim apiKey <> [] ->
  Server.callAdapter a env (VString apiKey) model fetched
  = if wellFormedKey a (trim apiKey)
    then match a with
         | Server.Google =>
           safeModel <- Server.sanitizeGoogleModel (VString model) ;;
           url <- googleUrl safeModel (trim apiKey) ;;
           Server.readReply a fetched
         | _ => Server.readReply a fetched
         end
    else Throw (invalidKey a).
Proof.
  intro H. pose proof (resolveKey_request apiKey (envKeys a env) H) as R.
  destruct (trim apiKey) as [|c k] eqn:E; [congruence|].
  now rewrite (server_call_with_key a env _ model fetched c k R).
Qed.

(** X7: a key carried by the request takes precedence: the keys of the
    environment are not consulted, so the outcome of the call is the same
    under any two environments. *)
Theorem request_key_precedes_environment (a : Server.Adapter) (env env' : Env)
  (apiKey model : jsstring) (fetched : completion Response) :
  trim apiKey <> [] ->
  Server.callAdapter a env (VString apiKey) model fetched
  = Server.callAdapter a env' (VString apiKey) model fetched.
Proof. intro H. now rewrite !server_call_with_request_key. Qed.

Lemma request_key_precedes_environment_witness :
  trim (js "bad") <> []
  /\ Server.callAdapter Server.OpenAI no_env (VString (js "bad")) [] (Return good_openai)
     = Server.callAdapter Server.OpenAI
         {| OPENAI_API_KEY := Some some_key; GOOGLE_API_KEY := None;
            GEMINI_API_KEY := None; ANTHROPIC_API_KEY := None; OPENAI_MODEL := None;
            GOOGLE_MODEL := None; CLAUDE_MODEL := None; ANTHROPIC_MODEL := None |}
         (VString (js "bad")) [] (Return good_openai).
Proof.
  split; [discriminate|].
  apply (request_key_precedes_environment Server.OpenAI). discriminate.
Defined.

(** X8: a key of the request that has not the expected format (for OpenAI
    a prefix sk- and at least 20 code units, for Anthropic at least 20 code
    units) is refused by the server before anything is requested, whatever
    the environment holds. *)
Theorem malformed_key_refused_before_request (a : Server.Adapter) (env : Env)
  (apiKey model : jsstring) (fetched : completion Response) :
  trim apiKey <> [] -> wellFormedKey a (trim apiKey) = false ->
  Server.callAdapter a env (VString apiKey) model fetched = Throw (invalidKey a).
Proof. intros H W. now rewrite server_call_with_request_key, W. Qed.

Lemma malformed_key_refused_before_request_witness :
  trim (js " sk-short ") <> []
  /\ wellFormedKey Server.OpenAI (trim (js " sk-short ")) = false
  /\ Server.callAdapter Server.OpenAI no_env (VString (js " sk-short ")) []
       (Return good_openai)
     = Throw (invalidKey Server.OpenAI).
Proof.
  split; [discriminate|]. split; [reflexivity|].
  apply (malformed_key_refused_before_request Server.OpenAI no_env (js " sk-short ") []
           (Return good_openai)); [discriminate|reflexivity].
Defined.

Lemma server_readReply_source (a : Server.Adapter) (fetched : completion Response)
  (t : jsstring) :
  Server.readReply a fetched = Return t ->
  exists res, fetched = Return res /\ ok res = true
    /\ Server.extractText a (response_data res) = Return (VString t)
    /\ trim t <> [].
Proof.
  unfold Server.readReply. destruct fetched as [res|e]; [|discriminate].
  cbn [bind]. destruct (ok res) eqn:O; cbn [negb].
  - destruct (Server.extractText a (response_data res)) as [x|e] eqn:X; [|discriminate].
    cbn [bind]. intro H. exists res. split; [reflexivity|]. split; [exact O|].
    pose proof (server_requireText_not_blank a x t H) as B.
    destruct x; try discriminate H. simpl in H.
    destruct (trim s); [discriminate|]. injection H as ->. auto.
  - destruct (provider_error (Server.vendor a) res); discriminate.
Qed.

Lemma static_call_source (a : Server.Adapter) (key : jsstring) (model : value)
  (fetched : completion Response) (v : value) :
  Static.callAdapter a key model fetched = Return v ->
  exists res, fetched = Return res /\ ok res = true
    /\ Static.extractText a (response_data res) = Return v.
Proof.
  intro H.
  assert (R : Static.readReply a fetched = Return v).
  { destruct a; simpl in H; unfold Static.callOpenAI, Static.callGoogle,
      Static.callClaude in H; destruct key; try discriminate H; try exact H.
    destruct (Static.googleRequest _ model); [exact H | discriminate H]. }
  unfold Static.readReply in R. destruct fetched as [res|e]; [|discriminate].
  cbn [bind] in R. destruct (ok res) eqn:O; cbn [negb] in R.
  - exists res. auto.
  - destruct (provider_error (Server.vendor a) res); discriminate.
Qed.

(** X9: an adapter returns a text only if the fetch succeeded with a
    response whose status is ok, and the text is exactly what the adapter
    reads from that response; on the server it is moreover not blank.  A
    failed fetch or a response that is not ok never yields a text. *)
Theorem adapter_text_comes_from_ok_response (a : Server.Adapter)
  (fetched : completion Response) :
  (forall env apiKey model t,
     Server.callAdapter a env apiKey model fetched = Return t ->
     exists res, fetched = Return res /\ ok res = true
       /\ Server.extractText a (response_data res) = Return (VString t)
       /\ trim t <> [])
  /\ (forall key browserModel v,
        Static.callAdapter a key browserModel fetched = Return v ->
        exists res, fetched = Return res /\ ok res = true
          /\ Static.extractText a (response_data res) = Return v).
Proof.
  split.
  - intros env apiKey model t H. apply server_readReply_source.
    now apply (server_call_source a env apiKey model).
  - intros key browserModel v. apply static_call_source.
Qed.

Lemma adapter_text_comes_from_ok_response_witness :
  Server.callAdapter Server.OpenAI no_env (VString some_key) [] (Return good_openai)
  = Return (js "{}")
  /\ exists res, Return good_openai = Return res /\ ok res = true
       /\ Server.extractText Server.OpenAI (response_data res) = Return (VString (js "{}"))
       /\ trim (js "{}") <> [].
Proof.
  split; [vm_compute; reflexivity|].
  apply (proj1 (adapter_text_comes_from_ok_response Server.OpenAI (Return good_openai))
           no_env (VString some_key) [] (js "{}")).
  vm_compute. reflexivity.
Defined.

Lemma provider_error_message (a : Server.Adapter) (res : Response) :
  match vendorMessage res with
  | VString (c :: m) =>
    provider_error (Server.vendor a) res = Return (Error (c :: m))
  | v => truthy v = false ->
         provider_error (Server.vendor a) res = Return (Error (statusMessage a res))
  end.
Proof.
  unfold provider_error, vendorMessage, statusMessage.
  destruct (GetOpt (GetOpt (response_data res) (js "error")) (js "message"))
    as [| |b|n|[|c m]|items own|props]; try reflexivity;
    unfold or_else; intro H; rewrite H; reflexivity.
Qed.

Lemma readReply_reports_failures (a : Server.Adapter)
  (call read : completion Response -> completion value) :
  (forall fetched, call fetched = read fetched) ->
  (forall e, read (Throw e) = Throw e) ->
  (forall res, ok res = false ->
     read (Return res) = (e <- provider_error (Server.vendor a) res ;; Throw e)) ->
  reports_failures a call.
Proof.
  intros Rc Re Rn. split; [|split].
  - intro e. now rewrite Rc.
  - intros res c m O M. pose proof (provider_error_message a res) as P.
    rewrite M in P. now rewrite Rc, (Rn res O), P.
  - intros res O M. pose proof (provider_error_message a res) as P.
    assert (P' : provider_error (Server.vendor a) res
                 = Return (Error (statusMessage a res))).
    { destruct (vendorMessage res) as [| |b|n|[|c m]|items own|props];
        try (apply P; exact M); discriminate M. }
    now rewrite Rc, (Rn res O), P'.
Qed.

(** X10: once an adapter gets as far as the request (the key and the model
    name are accepted and the address can be built, as witnessed by a text
    it returned), a failure of the fetch is passed on unchanged, and a
    response that is not ok is turned into an Error whose message is the
    vendor's error.message when that is a non-empty string, and
    "<Vendor> API error (<status>)" when it is missing or falsy.  This
    holds of the server adapters and, under the same condition, of the
    browser adapters. *)
Theorem adapter_reports_failures (a : Server.Adapter) (env : Env) (apiKey : value)
  (model : jsstring) (res0 : Response) (t0 : jsstring) :
  Server.callAdapter a env apiKey model (Return res0) = Return t0 ->
  reports_failures a
    (fun fetched => t <- Server.callAdapter a env apiKey model fetched ;;
                    Return (VString t))
  /\ forall key browserModel res1 v1,
       Static.callAdapter a key browserModel (Return res1) = Return v1 ->
       reports_failures a (Static.callAdapter a key browserModel).
Proof.
  intro H. split.
  - apply (readReply_reports_failures a _
             (fun fetched => t <- Server.readReply a fetched ;; Return (VString t))).
    + intro fetched. now rewrite (server_call_reads_reply a env apiKey model res0 t0 H).
    + reflexivity.
    + intros res O. unfold Server.readReply. cbn [bind]. rewrite O. cbn [negb].
      now destruct (provider_error (Server.vendor a) res).
  - intros key browserModel res1 v1 H1.
    apply (readReply_reports_failures a _ (Static.readReply a)).
    + intro fetched.
      now rewrite (static_call_reads_reply a key browserModel res1 v1 H1).
    + reflexivity.
    + intros res O. unfold Static.readReply. cbn [bind]. now rewrite O.
Qed.

Lemma adapter_reports_failures_witness :
  Server.callAdapter Server.Google no_env (VString some_key) (js "gemini-1.5-flash")
    (Return good_google)
  = Return (js "{}")
  /\ Static.callAdapter Server.Google some_key (vstr "models/gemini-1.5-flash")
       (Return blank_google)
     = Return blank
  /\ Static.callAdapter Server.Google some_key (vstr "models/gemini-1.5-flash")
       (Return {| ok := false; status := 429; json := None |})
     = Throw (Error (js "Google API error (429)")).
Proof.
  assert (A : Server.callAdapter Server.Google no_env (VString some_key)
                (js "gemini-1.5-flash") (Return good_google) = Return (js "{}"))
    by (vm_compute; reflexivity).
  assert (B : Static.callAdapter Server.Google some_key (vstr "models/gemini-1.5-flash")
                (Return blank_google) = Return blank)
    by (vm_compute; reflexivity).
  split; [exact A|]. split; [exact B|].
  pose proof (adapter_reports_failures Server.Google no_env (VString some_key)
                (js "gemini-1.5-flash") good_google (js "{}") A) as T.
  destruct T as [_ T].
  destruct (T some_key (vstr "models/gemini-1.5-flash") blank_google blank B)
    as (_ & _ & S).
  exact (S {| ok := false; status := 429; json := None |} eq_refl eq_refl).
Defined.

(* ================================================================== *)
(** ** The normaliser: fixed points, idempotence and what it leaves alone *)
(* ================================================================== *)

Lemma assoc_replace_id (k : jsstring) (v : value) (props : list (jsstring * value)) :
  assoc k props = Some v -> assoc_replace k v props = props.
Proof.
  induction props as [|[k' v'] r IH]; [discriminate|]. simpl.
  destruct (str_eqb k k') eqn:E.
  - intro H. injection H as ->. apply str_eqb_eq in E. now subst k'.
  - intro H. f_equal. now apply IH.
Qed.

Lemma assoc_set_id (k : jsstring) (v : value) (props : list (jsstring * value)) :
  assoc k props = Some v -> assoc_set k v props = props.
Proof. intro H. unfold assoc_set. rewrite H. now apply assoc_replace_id. Qed.

(** Writing the value a property already has changes nothing. *)
Lemma put_same (o : value) (k : jsstring) (v : value) :
  str_eqb k (js "length") = false -> GetOpt o k = v -> v <> VUndefined ->
  put o k v = o.
Proof.
  intros L G N. destruct o as [| |b|n|s|items own|props]; try reflexivity.
  - simpl in G. rewrite L in G. simpl. f_equal. apply assoc_set_id.
    destruct (assoc k own); congruence.
  - simpl in G. simpl. f_equal. apply assoc_set_id.
    destruct (assoc k props); congruence.
Qed.

Lemma num_leb_zero_cases (s : num) :
  num_leb pZero s = true -> num_isZero s = true \/ num_ltb pZero s = true.
Proof.
  intro H. destruct (num_leb_cases _ _ H) as [L|E]; [now right|].
  left. destruct (SFcompare_Eq _ _ E) as [<-|[_ Z]]; [reflexivity|exact Z].
Qed.

Lemma max_step_zero_fixed (s : num) :
  num_leb pZero s = true -> s <> nZero -> max_step pZero s = s.
Proof.
  intros H N. rewrite max_step_zero.
  destruct (num_leb_zero_cases s H) as [Z|L]; [|now rewrite L].
  destruct s as [[|]| | |]; try discriminate; [exfalso; apply N; reflexivity|reflexivity].
Qed.

Lemma max_step_zero_of_zero (y : num) :
  num_isZero y = true -> max_step pZero y = pZero.
Proof. destruct y as [[|]| | |]; try discriminate; reflexivity. Qed.

Lemma Math_clamp_steps (lo hi x : num) :
  num_isNaN lo = false -> num_isNaN hi = false -> num_isNaN x = false ->
  Math_min hi (Math_max lo x) = min_step hi (max_step lo x)
  /\ Math_max lo (Math_min hi x) = max_step lo (min_step hi x).
Proof.
  intros Nl Nh Nx. unfold Math_min, Math_max. rewrite Nl, Nh, Nx. cbn [orb].
  rewrite (max_from_infinity lo Nl), (min_from_infinity hi Nh).
  rewrite (max_step_notNaN lo x Nl Nx), (min_step_notNaN hi x Nh Nx). cbn [orb].
  split; reflexivity.
Qed.

Lemma isFinite_notNaN (x : num) : num_isFinite x = true -> num_isNaN x = false.
Proof. destruct x; try discriminate; reflexivity. Qed.

(** A score within [0, maxScore] is a fixed point of the clamp. *)
Lemma clampScore_fixed (maxScore s : num) :
  within pZero maxScore s -> clampScore maxScore s = s.
Proof.
  intros (L0 & L1 & N).
  pose proof (num_leb_notNaN_l _ _ L1) as Ns.
  pose proof (num_leb_notNaN_r _ _ L1) as Nm.
  unfold clampScore.
  destruct (Math_clamp_steps pZero maxScore s eq_refl Nm Ns) as [_ ->].
  destruct (min_step_inside maxScore s L1) as [->|[Zy Zs]].
  - now apply max_step_zero_fixed.
  - rewrite (max_step_zero_of_zero _ Zy).
    destruct s as [[|]| | |]; try discriminate; [exfalso; apply N; reflexivity|reflexivity].
Qed.

Lemma clampScore_steps (maxScore n : num) :
  num_isNaN maxScore = false -> num_isNaN n = false ->
  clampScore maxScore n
  = if num_ltb pZero (min_step maxScore n) then min_step maxScore n else pZero.
Proof.
  intros Nm Nn. unfold clampScore.
  destruct (Math_clamp_steps pZero maxScore n eq_refl Nm Nn) as [_ ->].
  apply max_step_zero.
Qed.

(** What the clamp returns is within [0, maxScore] when the maximum is not
    negative, and finite when the number given is. *)
Lemma clampScore_within (maxScore n : num) :
  num_leb pZero maxScore = true -> num_isNaN n = false ->
  within pZero maxScore (clampScore maxScore n).
Proof.
  intros H Nn. pose proof (num_leb_notNaN_r _ _ H) as Nm.
  destruct (clampScore_bounds maxScore n H Nn) as [B0 B1].
  repeat split; auto.
  rewrite (clampScore_steps _ _ Nm Nn).
  destruct (num_ltb pZero (min_step maxScore n)) eqn:L; [|discriminate].
  intro C. rewrite C in L. discriminate.
Qed.

Lemma clampScore_finite (maxScore n : num) :
  num_leb pZero maxScore = true -> num_isFinite n = true ->
  num_isFinite (clampScore maxScore n) = true.
Proof.
  intros H F. pose proof (isFinite_notNaN n F) as Nn.
  pose proof (num_leb_notNaN_r _ _ H) as Nm.
  rewrite (clampScore_steps _ _ Nm Nn).
  destruct (num_ltb pZero (min_step maxScore n)) eqn:L; [|reflexivity].
  destruct (min_step_cases maxScore n) as [E|E]; rewrite E in *; [|exact F].
  destruct maxScore as [sm|[|]| |sm mm em]; try reflexivity; try discriminate.
  exfalso. unfold min_step in E.
  destruct n as [[|]| | |sn mn en]; try discriminate; simpl in E; discriminate.
Qed.

Lemma within_minutes_finite (m : num) :
  within five onehundredtwenty m -> num_isFinite m = true.
Proof. intros (L0 & L1 & _). destruct m as [|[|]| |]; try discriminate; reflexivity. Qed.

Lemma within_minutes_fixed (m : num) :
  within five onehundredtwenty m -> clampedMinutes m = m.
Proof.
  intro W. pose proof (within_minutes_finite m W) as F.
  destruct W as (L0 & L1 & N). unfold clampedMinutes. rewrite F.
  pose proof (isFinite_notNaN m F) as Nm.
  destruct (Math_clamp_steps (num_of_Z 5) (num_of_Z 120) m eq_refl eq_refl Nm) as [-> _].
  destruct (max_step_inside (num_of_Z 5) m L0) as [->|[_ Z]].
  - destruct (min_step_inside (num_of_Z 120) m L1) as [->|[_ Z]]; [reflexivity|].
    exfalso. destruct m as [[|]| | |]; discriminate.
  - exfalso. destruct m as [[|]| | |]; discriminate.
Qed.

Lemma clampedMinutes_within (n : num) : within five onehundredtwenty (clampedMinutes n).
Proof.
  destruct (clampedMinutes_bounds n) as [B0 B1].
  repeat split; auto.
  intro C. rewrite C in B0. discriminate.
Qed.

Lemma server_normalizeScore_fixed (maxScore : num) (r : value) (s : num) :
  objectShaped r = true ->
  GetOpt r (js "maxScore") = VNumber maxScore ->
  GetOpt r (js "score") = VNumber s -> num_isFinite s = true ->
  within pZero maxScore s ->
  Server.normalizeScore maxScore r = Return r.
Proof.
  intros H M S F W. unfold Server.normalizeScore, Server.assign.
  rewrite (Set_shaped _ _ _ _ H), (put_same r (js "maxScore") _ eq_refl M) by discriminate.
  cbn [bind]. rewrite (Get_shaped _ _ H), S. cbn [bind].
  rewrite F. cbn [negb bind].
  rewrite (Get_shaped _ _ H), S. cbn [bind ToNumber].
  rewrite (Set_shaped _ _ _ _ H).
  fold (clampScore maxScore s). rewrite (clampScore_fixed maxScore s W).
  now rewrite (put_same r (js "score") _ eq_refl S) by discriminate.
Qed.

Lemma normalizedArrays_fixed (r : value) :
  (forall k, In k arrayKeys -> isArray (GetOpt r k) = true) -> normalizedArrays r = r.
Proof.
  intro A. unfold normalizedArrays, ensuredArray.
  rewrite (A (js "strengths")) by (simpl; auto).
  rewrite (A (js "missingPoints")) by (simpl; auto).
  rewrite (A (js "improvements")) by (simpl; auto).
  now rewrite (A (js "suggestedOutline")) by (simpl; auto 6).
Qed.

Lemma shaped_truthy (x : value) : objectShaped x = true -> truthy x = true.
Proof. destruct x; try discriminate; reflexivity. Qed.

Lemma shaped_defined (x : value) : objectShaped x = true -> x <> VUndefined.
Proof. destruct x; discriminate. Qed.

Lemma ensuredObject_fixed (r : value) (k : jsstring) (dflt : value) :
  objectShaped (GetOpt r k) = true -> ensuredObject r k dflt = r.
Proof. intro H. unfold ensuredObject. now rewrite (shaped_truthy _ H), H. Qed.

Lemma server_normalizeBooklist_fixed (r : value) :
  objectShaped r = true ->
  objectShaped (GetOpt r (js "booklistAlignment")) = true ->
  isArray (GetOpt (GetOpt r (js "booklistAlignment")) (js "topics")) = true ->
  isArray (GetOpt (GetOpt r (js "booklistAlignment")) (js "refsToReview")) = true ->
  Server.normalizeBooklist r = Return r.
Proof.
  intros H Hb T R. unfold Server.normalizeBooklist.
  rewrite (ensureObject_shaped _ _ _ H), (ensuredObject_fixed _ _ _ Hb). cbn [bind].
  rewrite (inside_shaped _ _ _ H), (ensureArray_shaped _ _ Hb), T. cbn [bind].
  rewrite (put_same r (js "booklistAlignment") _ eq_refl eq_refl (shaped_defined _ Hb)).
  rewrite (inside_shaped _ _ _ H), (ensureArray_shaped _ _ Hb), R. cbn [bind].
  now rewrite (put_same r (js "booklistAlignment") _ eq_refl eq_refl (shaped_defined _ Hb)).
Qed.

Lemma server_normalizeNextDrill_fixed (r : value) (m : num) :
  objectShaped r = true ->
  objectShaped (GetOpt r (js "nextDrill")) = true ->
  isString (GetOpt (GetOpt r (js "nextDrill")) (js "prompt")) = true ->
  GetOpt (GetOpt r (js "nextDrill")) (js "timeboxMinutes") = VNumber m ->
  within five onehundredtwenty m ->
  Server.normalizeNextDrill r = Return r.
Proof.
  intros H Hd P T W. unfold Server.normalizeNextDrill.
  rewrite (ensureObject_shaped _ _ _ H), (ensuredObject_fixed _ _ _ Hd). cbn [bind].
  set (d := GetOpt r (js "nextDrill")) in *.
  rewrite (inside_shaped _ _ _ H). fold d. rewrite (Get_shaped _ _ Hd).
  cbn [bind]. destruct (GetOpt d (js "prompt")) eqn:Ep; try discriminate P.
  cbn [bind]. unfold d at 1.
  rewrite (put_same r (js "nextDrill") _ eq_refl eq_refl (shaped_defined _ Hd)).
  rewrite (inside_shaped _ _ _ H). fold d. rewrite (Get_shaped _ _ Hd), T.
  cbn [bind]. rewrite clampNumber_minutes. cbn [ToNumber bind].
  rewrite (within_minutes_fixed m W). unfold Server.assign.
  rewrite (Set_shaped _ _ _ _ Hd). cbn [bind].
  rewrite (put_same d (js "timeboxMinutes") _ eq_refl T) by discriminate. unfold d.
  now rewrite (put_same r (js "nextDrill") _ eq_refl eq_refl (shaped_defined _ Hd)).
Qed.

(** X11: a reply that is already in normal form is returned by the
    server normaliser exactly as it came: same properties, same order,
    same values. *)
Theorem well_formed_reply_unchanged (maxScore : num) (r : value) :
  normalForm maxScore r -> Server.normalizeResult maxScore r = Return r.
Proof.
  intros (H & M & (s & S & F & W) & A & (Hb & T & R) & (Hd & P & m & Tm & Wm)).
  unfold Server.normalizeResult.
  rewrite (server_normalizeScore_fixed maxScore r s H M S F W). cbn [bind].
  rewrite (server_normalizeArrays_shaped _ H), (normalizedArrays_fixed r A). cbn [bind].
  rewrite (server_normalizeBooklist_fixed r H Hb T R). cbn [bind].
  exact (server_normalizeNextDrill_fixed r m H Hd P Tm Wm).
Qed.

Lemma well_formed_reply_unchanged_witness :
  normalForm (num_of_Z 20) well_formed_reply
  /\ Server.normalizeResult (num_of_Z 20) well_formed_reply = Return well_formed_reply.
Proof.
  assert (N : normalForm (num_of_Z 20) well_formed_reply).
  { split; [reflexivity|]. split; [vm_compute; reflexivity|].
    split.
    { exists (num_of_Z 12). split; [vm_compute; reflexivity|]. split; [reflexivity|].
      repeat split; try (vm_compute; reflexivity). vm_compute. discriminate. }
    split.
    { intros k [<-|[<-|[<-|[<-|[]]]]]; vm_compute; reflexivity. }
    split.
    { repeat split; vm_compute; reflexivity. }
    split; [vm_compute; reflexivity|]. split; [vm_compute; reflexivity|].
    exists (num_of_Z 30). split; [vm_compute; reflexivity|].
    repeat split; try (vm_compute; reflexivity). vm_compute. discriminate. }
  split; [exact N|].
  apply (well_formed_reply_unchanged (num_of_Z 20) well_formed_reply). exact N.
Defined.

Lemma finiteScore_finite (v : value) : num_isFinite (finiteScore v) = true.
Proof.
  destruct v; try reflexivity. simpl. destruct (num_isFinite n) eqn:E; [exact E|reflexivity].
Qed.

Lemma stringOrEmpty_isString (v : value) : isString (stringOrEmpty v) = true.
Proof. now destruct v. Qed.

Lemma server_result_normalForm (maxScore : num) (o r : value) :
  objectShaped o = true -> num_leb pZero maxScore = true ->
  Server.normalizeResult maxScore o = Return r -> normalForm maxScore r.
Proof.
  intros H M E. pose proof (server_normalizeResult_shaped maxScore o H) as S.
  rewrite E in S. destruct S as (n & _ & S).
  destruct S as (Hr & _ & Em & Es & A1 & A2 & A3 & A4 & Eb & Ed & _).
  unfold normalForm. split; [exact Hr|]. split; [exact Em|].
  split.
  { eexists. split; [exact Es|]. split.
    - apply clampScore_finite; [exact M|apply finiteScore_finite].
    - apply clampScore_within; [exact M|apply finiteScore_notNaN]. }
  split.
  { intros k [<-|[<-|[<-|[<-|[]]]]].
    - rewrite A1. apply arrayOrEmpty_isArray.
    - rewrite A2. apply arrayOrEmpty_isArray.
    - rewrite A3. apply arrayOrEmpty_isArray.
    - rewrite A4. apply arrayOrEmpty_isArray. }
  split.
  { rewrite Eb.
    destruct (normalizedBooklist_spec (GetOpt o (js "booklistAlignment"))) as (B0 & B1 & B2).
    split; [exact B0|]. rewrite B1, B2. split; apply arrayOrEmpty_isArray. }
  rewrite Ed.
  assert (Hd : objectShaped (drillOf o) = true)
    by (unfold drillOf; now apply objectOr_shaped).
  destruct (normalizedDrill_spec (drillOf o) n Hd) as (D0 & D1 & D2 & _).
  split; [exact D0|]. split; [rewrite D1; apply stringOrEmpty_isString|].
  exists (clampedMinutes n). split; [exact D2|apply clampedMinutes_within].
Qed.

(** X12: the server normaliser is idempotent: for a parsed reply that is
    an object or array and a maximum score that is not negative, its result
    is in normal form, and normalising the result again returns it
    unchanged. *)
Theorem server_normaliser_idempotent (maxScore : num) (parsed r : value) :
  objectShaped parsed = true -> num_leb pZero maxScore = true ->
  Server.normalizeResult maxScore parsed = Return r ->
  normalForm maxScore r /\ Server.normalizeResult maxScore r = Return r.
Proof.
  intros H M E. pose proof (server_result_normalForm maxScore parsed r H M E) as N.
  split; [exact N|].
  destruct N as (Hr & Em & (s & S & F & W) & A & (Hb & T & R) & (Hd & P & m & Tm & Wm)).
  unfold Server.normalizeResult.
  rewrite (server_normalizeScore_fixed maxScore r s Hr Em S F W). cbn [bind].
  rewrite (server_normalizeArrays_shaped _ Hr), (normalizedArrays_fixed r A). cbn [bind].
  rewrite (server_normalizeBooklist_fixed r Hr Hb T R). cbn [bind].
  exact (server_normalizeNextDrill_fixed r m Hr Hd P Tm Wm).
Qed.

Lemma server_normaliser_idempotent_witness :
  objectShaped reply_with_drill = true /\ num_leb pZero (num_of_Z 20) = true
  /\ exists r, Server.normalizeResult (num_of_Z 20) reply_with_drill = Return r
       /\ normalForm (num_of_Z 20) r
       /\ Server.normalizeResult (num_of_Z 20) r = Return r.
Proof.
  split; [reflexivity|]. split; [reflexivity|].
  eexists. split; [vm_compute; reflexivity|].
  apply (server_normaliser_idempotent (num_of_Z 20) reply_with_drill);
    [reflexivity|reflexivity|vm_compute; reflexivity].
Defined.

Lemma within_numberOrZero (lo hi s : num) :
  within lo hi s -> numberOrZero s = s.
Proof.
  intros (L0 & L1 & N). unfold numberOrZero.
  pose proof (num_leb_notNaN_r _ _ L0) as Ns.
  destruct s as [[|]| | |]; try reflexivity; try discriminate Ns.
  exfalso. apply N. reflexivity.
Qed.

Lemma static_normalizeScore_fixed (maxScore : num) (r : value) (s : num) :
  objectShaped r = true ->
  GetOpt r (js "maxScore") = VNumber maxScore ->
  GetOpt r (js "score") = VNumber s -> within pZero maxScore s ->
  Static.normalizeScore maxScore r = Return r.
Proof.
  intros H M S W. unfold Static.normalizeScore, Static.assign.
  rewrite (Set_shaped _ _ _ _ H), (put_same r (js "maxScore") _ eq_refl M) by discriminate.
  cbn [bind]. rewrite (Get_shaped _ _ H), S. cbn [bind ToNumber].
  fold (numberOrZero s). rewrite (within_numberOrZero _ _ _ W).
  rewrite (Set_shaped _ _ _ _ H).
  fold (clampScore maxScore s). rewrite (clampScore_fixed maxScore s W).
  now rewrite (put_same r (js "score") _ eq_refl S) by discriminate.
Qed.

(** X13: the normaliser of the browser build is idempotent as well: for
    a parsed reply that is an object or array and a maximum score that is
    not negative, the result has maxScore set, a score within
    [0, maxScore] and arrays in the four list fields, and normalising it
    again returns it unchanged. *)
Theorem browser_normaliser_idempotent (maxScore : num) (parsed r : value) :
  objectShaped parsed = true -> num_leb pZero maxScore = true ->
  Static.normalizeResult maxScore parsed = Return r ->
  staticNormalForm maxScore r /\ Static.normalizeResult maxScore r = Return r.
Proof.
  intros H M E. pose proof (static_normalizeResult_shaped maxScore parsed H) as S.
  rewrite E in S. destruct S as (n & _ & S).
  destruct S as (Hr & _ & Em & Es & A1 & A2 & A3 & A4 & _).
  assert (W : within pZero maxScore (clampScore maxScore (numberOrZero n)))
    by (apply clampScore_within; [exact M|apply numberOrZero_notNaN]).
  assert (A : forall k, In k arrayKeys -> isArray (GetOpt r k) = true).
  { intros k [<-|[<-|[<-|[<-|[]]]]].
    - rewrite A1. apply arrayOrEmpty_isArray.
    - rewrite A2. apply arrayOrEmpty_isArray.
    - rewrite A3. apply arrayOrEmpty_isArray.
    - rewrite A4. apply arrayOrEmpty_isArray. }
  split.
  - split; [exact Hr|]. split; [exact Em|]. split; [|exact A].
    eexists. split; [exact Es|exact W].
  - unfold Static.normalizeResult.
    rewrite (static_normalizeScore_fixed maxScore r _ Hr Em Es W). cbn [bind].
    now rewrite (static_normalizeArrays_shaped _ Hr), (normalizedArrays_fixed r A).
Qed.

Lemma browser_normaliser_idempotent_witness :
  objectShaped sample_reply = true /\ num_leb pZero (num_of_Z 20) = true
  /\ exists r, Static.normalizeResult (num_of_Z 20) sample_reply = Return r
       /\ staticNormalForm (num_of_Z 20) r
       /\ Static.normalizeResult (num_of_Z 20) r = Return r.
Proof.
  split; [reflexivity|]. split; [reflexivity|].
  eexists. split; [vm_compute; reflexivity|].
  apply (browser_normaliser_idempotent (num_of_Z 20) sample_reply);
    [reflexivity|reflexivity|vm_compute; reflexivity].
Defined.

Lemma server_normalizeResult_frame (maxScore : num) (o r : value) :
  objectShaped o = true -> Server.normalizeResult maxScore o = Return r ->
  sameExcept normalizedKeys o r.
Proof.
  intros H. unfold Server.normalizeResult.
  destruct (server_normalizeScore_shaped maxScore o H) as (p1 & -> & _ & _ & F1).
  cbn [bind].
  assert (H1 : objectShaped p1 = true) by apply F1.
  rewrite (server_normalizeArrays_shaped _ H1). cbn [bind].
  destruct (normalizedArrays_spec p1 H1) as (_ & _ & _ & _ & F2).
  assert (H2 : objectShaped (normalizedArrays p1) = true) by apply F2.
  destruct (server_normalizeBooklist_shaped _ H2) as (p3 & -> & _ & F3).
  cbn [bind].
  assert (H3 : objectShaped p3 = true) by apply F3.
  pose proof (server_normalizeNextDrill_shaped p3 H3) as N. cbv zeta in N.
  destruct (ToNumber _) as [n|e] in N.
  - destruct N as (r' & -> & _ & F4). intro E. injection E as <-.
    pose proof (sameExcept_trans _ _ _ _ _ F1
                  (sameExcept_trans _ _ _ _ _ F2
                     (sameExcept_trans _ _ _ _ _ F3 F4))) as F.
    exact F.
  - rewrite N. discriminate.
Qed.

Lemma writes_refl (keys : list jsstring) (o : value) : writes keys o o.
Proof. exists []. split; [constructor | reflexivity]. Qed.

Lemma writes_put (keys : list jsstring) (o : value) (k : jsstring) (v : value) :
  In k keys -> writes keys o (put o k v).
Proof. intro H. exists [(k, v)]. split; [repeat constructor; exact H | reflexivity]. Qed.

Lemma writes_trans (keys : list jsstring) (o p r : value) :
  writes keys o p -> writes keys p r -> writes keys o r.
Proof.
  intros (l1 & F1 & ->) (l2 & F2 & ->). exists (l1 ++ l2). split.
  - apply Forall_app. now split.
  - now rewrite fold_left_app.
Qed.

Lemma writes_shaped (keys : list jsstring) (o r : value) :
  writes keys o r -> objectShaped r = objectShaped o.
Proof.
  intros (l & _ & ->). revert o. induction l as [|[k v] l IH]; intro o; [reflexivity|].
  cbn [fold_left fst snd]. rewrite IH. apply put_shaped.
Qed.

Lemma writes_items (keys : list jsstring) (o r : value) :
  writes keys o r -> itemsOf r = itemsOf o /\ isArray r = isArray o.
Proof.
  intros (l & _ & ->). revert o. induction l as [|[k v] l IH]; intro o; [now split|].
  cbn [fold_left fst snd]. destruct (IH (put o k v)) as [-> ->]. now destruct o.
Qed.

Lemma writes_other (keys : list jsstring) (o r : value) (k : jsstring) :
  writes keys o r ->
  forallb (fun k' => negb (str_eqb k k')) keys = true ->
  GetOpt r k = GetOpt o k.
Proof.
  intros (l & F & ->) K. revert o. induction F as [|[k' v] l Hk F IH]; intros o;
    [reflexivity|].
  cbn [fold_left fst snd]. rewrite IH. apply GetOpt_put_other.
  rewrite forallb_forall in K. specialize (K k' Hk). now apply negb_true_iff in K.
Qed.

Lemma assign_writes (keys : list jsstring) (o : value) (k : jsstring) (v r : value) :
  objectShaped o = true -> In k keys -> Server.assign o k v = Return r ->
  writes keys o r.
Proof.
  intros H Hk E. unfold Server.assign in E. rewrite (Set_shaped _ _ _ _ H) in E.
  injection E as <-. now apply writes_put.
Qed.

Lemma ensureArray_writes (keys : list jsstring) (o : value) (k : jsstring) (r : value) :
  objectShaped o = true -> In k keys -> Server.ensureArray o k = Return r ->
  writes keys o r.
Proof.
  intros H Hk E. rewrite (ensureArray_shaped _ _ H) in E. injection E as <-.
  destruct (isArray (GetOpt o k)); [apply writes_refl | now apply writes_put].
Qed.

Lemma ensureObject_writes (keys : list jsstring) (o : value) (k : jsstring)
  (dflt r : value) :
  objectShaped o = true -> In k keys -> Server.ensureObject o k dflt = Return r ->
  writes keys o r.
Proof.
  intros H Hk E. rewrite (ensureObject_shaped _ _ _ H) in E. injection E as <-.
  unfold ensuredObject.
  destruct (truthy (GetOpt o k) && objectShaped (GetOpt o k));
    [apply writes_refl | now apply writes_put].
Qed.

Lemma inside_writes (keys : list jsstring) (o : value) (k : jsstring)
  (f : value -> completion value) (r : value) :
  objectShaped o = true -> In k keys -> Server.inside o k f = Return r ->
  writes keys o r.
Proof.
  intros H Hk E. rewrite (inside_shaped _ _ _ H) in E.
  destruct (f (GetOpt o k)) as [x'|]; [|discriminate E]. cbn [bind] in E.
  injection E as <-. now apply writes_put.
Qed.

(** One statement of the normaliser after the other. *)
Ltac next_write lemma :=
  match goal with
  | H : objectShaped ?o = true, W : writes ?keys ?o0 ?o
    |- bind ?c _ = Return _ -> _ =>
    let o' := fresh "o" in
    let E := fresh "E" in
    let W' := fresh "W" in
    destruct c as [o'|] eqn:E; cbn [bind]; [|discriminate];
    assert (W' : writes keys o o')
      by (eapply lemma; [exact H | | exact E]; simpl; tauto);
    let H' := fresh "H" in
    assert (H' : objectShaped o' = true) by (now rewrite (writes_shaped _ _ _ W'));
    pose proof (writes_trans _ _ _ _ W W');
    clear W W' H E
  end.

Lemma server_normalizeScore_writes (maxScore : num) (o r : value) :
  objectShaped o = true -> Server.normalizeScore maxScore o = Return r ->
  writes normalizedKeys o r.
Proof.
  intro H. pose proof (writes_refl normalizedKeys o) as W.
  unfold Server.normalizeScore.
  next_write assign_writes.
  destruct (Get o0 (js "score")) as [sc|]; cbn [bind]; [|discriminate].
  match goal with
  | |- bind ?c _ = _ -> _ => destruct c as [o2|] eqn:E2; cbn [bind]
  end; [|discriminate].
  assert (W2 : writes normalizedKeys o0 o2).
  { assert (A : forall p, Server.assign o0 (js "score") (VNumber pZero) = Return p ->
                          writes normalizedKeys o0 p)
      by (intros p Ep; eapply assign_writes; [eassumption | | exact Ep]; simpl; tauto).
    destruct sc; try (now apply A).
    destruct (negb (num_isFinite n)); [now apply A|].
    injection E2 as <-. apply writes_refl. }
  assert (H2 : objectShaped o2 = true) by (now rewrite (writes_shaped _ _ _ W2)).
  match goal with
  | W1 : writes normalizedKeys o o0 |- _ =>
    pose proof (writes_trans _ _ _ _ W1 W2) as W; clear W1 W2 E2
  end.
  destruct (Get o2 (js "score")) as [sc'|]; cbn [bind]; [|discriminate].
  destruct (ToNumber sc') as [n|]; cbn [bind]; [|discriminate].
  intro E. eapply writes_trans; [exact W|].
  eapply assign_writes; [exact H2 | | exact E]; simpl; tauto.
Qed.

Lemma server_normalizeArrays_writes (o r : value) :
  objectShaped o = true -> Server.normalizeArrays o = Return r ->
  writes normalizedKeys o r.
Proof.
  intro H. pose proof (writes_refl normalizedKeys o) as W.
  unfold Server.normalizeArrays. do 3 next_write ensureArray_writes.
  intro E. eapply writes_trans; [eassumption|].
  eapply ensureArray_writes; [eassumption | | exact E]; simpl; tauto.
Qed.

Lemma server_normalizeBooklist_writes (o r : value) :
  objectShaped o = true -> Server.normalizeBooklist o = Return r ->
  writes normalizedKeys o r.
Proof.
  intro H. pose proof (writes_refl normalizedKeys o) as W.
  unfold Server.normalizeBooklist.
  next_write ensureObject_writes. next_write inside_writes.
  intro E. eapply writes_trans; [eassumption|].
  eapply inside_writes; [eassumption | | exact E]; simpl; tauto.
Qed.

Lemma server_normalizeNextDrill_writes (o r : value) :
  objectShaped o = true -> Server.normalizeNextDrill o = Return r ->
  writes normalizedKeys o r.
Proof.
  intro H. pose proof (writes_refl normalizedKeys o) as W.
  unfold Server.normalizeNextDrill.
  next_write ensureObject_writes. next_write inside_writes.
  intro E. eapply writes_trans; [eassumption|].
  eapply inside_writes; [eassumption | | exact E]; simpl; tauto.
Qed.

(** The server normaliser assigns to the eight names and does nothing
    else. *)
Lemma server_normalizeResult_writes (maxScore : num) (o r : value) :
  objectShaped o = true -> Server.normalizeResult maxScore o = Return r ->
  writes normalizedKeys o r.
Proof.
  intro H. unfold Server.normalizeResult.
  destruct (Server.normalizeScore maxScore o) as [o1|] eqn:E1; cbn [bind];
    [|discriminate].
  pose proof (server_normalizeScore_writes _ _ _ H E1) as W1.
  assert (H1 : objectShaped o1 = true) by (now rewrite (writes_shaped _ _ _ W1)).
  destruct (Server.normalizeArrays o1) as [o2|] eqn:E2; cbn [bind]; [|discriminate].
  pose proof (server_normalizeArrays_writes _ _ H1 E2) as W2.
  assert (H2 : objectShaped o2 = true) by (now rewrite (writes_shaped _ _ _ W2)).
  destruct (Server.normalizeBooklist o2) as [o3|] eqn:E3; cbn [bind]; [|discriminate].
  pose proof (server_normalizeBooklist_writes _ _ H2 E3) as W3.
  assert (H3 : objectShaped o3 = true) by (now rewrite (writes_shaped _ _ _ W3)).
  intro E4. pose proof (server_normalizeNextDrill_writes _ _ H3 E4) as W4.
  exact (writes_trans _ _ _ _ W1 (writes_trans _ _ _ _ W2 (writes_trans _ _ _ _ W3 W4))).
Qed.

(** X14: the server normaliser touches nothing but the fields it
    normalises.  Its result is the parsed reply after a sequence of
    assignments to the eight names it writes (maxScore, score, the four
    lists, booklistAlignment and nextDrill), and nothing else: an array
    keeps its elements and stays an array, and every other property of the
    reply (the rationale, and any property the contract does not name)
    keeps its value.  What is left under booklistAlignment is the incoming
    object (the default when there is none) with only topics and
    refsToReview written, and under nextDrill the incoming object (or the
    default) with only prompt and timeboxMinutes written. *)
Theorem server_normaliser_keeps_other_properties (maxScore : num) (parsed r : value) :
  objectShaped parsed = true -> Server.normalizeResult maxScore parsed = Return r ->
  writes normalizedKeys parsed r
  /\ itemsOf r = itemsOf parsed
  /\ isArray r = isArray parsed
  /\ (forall k, forallb (fun k' => negb (str_eqb k k')) normalizedKeys = true ->
                GetOpt r k = GetOpt parsed k)
  /\ writes [js "topics"; js "refsToReview"]
       (objectOr (GetOpt parsed (js "booklistAlignment")) Server.emptyBooklist)
       (GetOpt r (js "booklistAlignment"))
  /\ writes [js "prompt"; js "timeboxMinutes"] (drillOf parsed)
       (GetOpt r (js "nextDrill")).
Proof.
  intros H E.
  pose proof (server_normalizeResult_writes maxScore parsed r H E) as W.
  pose proof (server_normalizeResult_shaped maxScore parsed H) as S.
  rewrite E in S. destruct S as (n & _ & S).
  destruct S as (_ & _ & _ & _ & _ & _ & _ & _ & Eb & Ed & _).
  split; [exact W|]. split; [apply (writes_items _ _ _ W)|].
  split; [apply (writes_items _ _ _ W)|].
  split; [intros k K; now apply (writes_other normalizedKeys)|]. split.
  - rewrite Eb. unfold normalizedBooklist, ensuredArray.
    set (b := objectOr (GetOpt parsed (js "booklistAlignment")) Server.emptyBooklist).
    eapply writes_trans with (p := if isArray (GetOpt b (js "topics")) then b
                                   else put b (js "topics") empty_array).
    + destruct (isArray (GetOpt b (js "topics")));
        [apply writes_refl | apply writes_put; simpl; tauto].
    + match goal with
      | |- writes _ ?x (if ?c then _ else _) =>
        destruct c; [apply writes_refl | apply writes_put; simpl; tauto]
      end.
  - rewrite Ed. unfold normalizedDrill.
    eapply writes_trans; [|apply writes_put; simpl; tauto].
    destruct (GetOpt (drillOf parsed) (js "prompt"));
      try (apply writes_put; simpl; tauto). apply writes_refl.
Qed.

Lemma server_normaliser_keeps_other_properties_witness :
  objectShaped (VArray [VNumber (num_of_Z 1)] []) = true
  /\ Server.normalizeResult (num_of_Z 20) (VArray [VNumber (num_of_Z 1)] [])
     = Return (VArray [VNumber (num_of_Z 1)] (arrayFields (num_of_Z 20)))
  /\ itemsOf (VArray [VNumber (num_of_Z 1)] (arrayFields (num_of_Z 20)))
     = itemsOf (VArray [VNumber (num_of_Z 1)] []).
Proof.
  assert (E : Server.normalizeResult (num_of_Z 20) (VArray [VNumber (num_of_Z 1)] [])
              = Return (VArray [VNumber (num_of_Z 1)] (arrayFields (num_of_Z 20))))
    by (vm_compute; reflexivity).
  split; [reflexivity|]. split; [exact E|].
  exact (proj1 (proj2 (server_normaliser_keeps_other_properties (num_of_Z 20)
                         (VArray [VNumber (num_of_Z 1)] []) _ eq_refl E))).
Defined.

Lemma order_through_zero (n m : num) :
  num_leb n m = true -> num_leb m pZero = true -> num_ltb pZero n = false.
Proof.
  destruct n as [[|]|[|]| |[|] ? ?], m as [[|]|[|]| |[|] ? ?]; simpl;
    intros A B; try reflexivity; try discriminate A; try discriminate B.
Qed.

(** The clamp of the score never gives a negative number, and gives zero
    when the maximum is zero or negative. *)
Lemma clampScore_sign (maxScore n : num) :
  num_isNaN maxScore = false -> num_isNaN n = false ->
  num_leb pZero (clampScore maxScore n) = true
  /\ (num_leb maxScore pZero = true -> clampScore maxScore n = pZero).
Proof.
  intros Nm Nn. rewrite (clampScore_steps _ _ Nm Nn).
  destruct (num_ltb pZero (min_step maxScore n)) eqn:L.
  - split; [now apply num_ltb_leb|]. intro M. exfalso.
    pose proof (min_step_le maxScore n Nm) as B.
    rewrite (order_through_zero _ _ B M) in L. discriminate.
  - split; [reflexivity|reflexivity].
Qed.

Lemma maxScoreOf_notNaN (question : Question) (maxScore : num) :
  Server.maxScoreOf question = Return maxScore -> num_isNaN maxScore = false.
Proof.
  unfold Server.maxScoreOf. destruct (ToNumber (points question)) as [n|e]; [|discriminate].
  cbn [bind]. intro H. injection H as <-.
  destruct n as [[|]|[|]| |[|] ? ?]; reflexivity.
Qed.

(** X15: whatever points the question carries (missing, not numeric,
    negative), the score of a normalised result is a number that is not
    negative, in both builds; when the maximum score computed from the
    points is zero or negative the score is zero. *)
Theorem score_never_negative (question : Question) (maxScore : num) (parsed : value) :
  Server.maxScoreOf question = Return maxScore -> objectShaped parsed = true ->
  (forall r, Server.normalizeResult maxScore parsed = Return r ->
     exists s, GetOpt r (js "score") = VNumber s /\ num_leb pZero s = true
       /\ (num_leb maxScore pZero = true -> s = pZero))
  /\ (forall r, Static.normalizeResult maxScore parsed = Return r ->
        exists s, GetOpt r (js "score") = VNumber s /\ num_leb pZero s = true
          /\ (num_leb maxScore pZero = true -> s = pZero)).
Proof.
  intros Q H. pose proof (maxScoreOf_notNaN question maxScore Q) as Nm. split.
  - intros r E. pose proof (server_normalizeResult_shaped maxScore parsed H) as S.
    rewrite E in S. destruct S as (n & _ & S).
    destruct S as (_ & _ & _ & Es & _).
    eexists. split; [exact Es|].
    apply clampScore_sign; [exact Nm|apply finiteScore_notNaN].
  - intros r E. pose proof (static_normalizeResult_shaped maxScore parsed H) as S.
    rewrite E in S. destruct S as (n & _ & S).
    destruct S as (_ & _ & _ & Es & _).
    eexists. split; [exact Es|].
    apply clampScore_sign; [exact Nm|apply numberOrZero_notNaN].
Qed.

Lemma score_never_negative_witness :
  Server.maxScoreOf {| id := js "q1"; section := js "A"; points := VUndefined;
                       text := js "?"; booklistTopics := None; noteHeading := None |}
  = Return pZero
  /\ objectShaped sample_reply = true
  /\ exists r, Server.normalizeResult pZero sample_reply = Return r
       /\ exists s, GetOpt r (js "score") = VNumber s /\ num_leb pZero s = true
            /\ (num_leb pZero pZero = true -> s = pZero).
Proof.
  split; [reflexivity|]. split; [reflexivity|].
  eexists. split; [vm_compute; reflexivity|].
  apply (proj1 (score_never_negative
           {| id := js "q1"; section := js "A"; points := VUndefined;
              text := js "?"; booklistTopics := None; noteHeading := None |}
           pZero sample_reply eq_refl eq_refl)).
  vm_compute. reflexivity.
Defined.

(* ================================================================== *)
(** ** More about the JSON extractor *)
(* ================================================================== *)

(** X16: white space around the model's text is irrelevant to the
    extractor: it returns the same value with and without it. *)
Theorem safeJsonParse_ignores_padding (pre s post : jsstring) :
  forallb isWhiteSpace pre = true -> forallb isWhiteSpace post = true ->
  safeJsonParse (VString (pre ++ s ++ post)) = safeJsonParse (VString s).
Proof.
  intros Hpre Hpost. unfold safeJsonParse.
  now rewrite (trim_padding pre s post Hpre Hpost).
Qed.

Lemma safeJsonParse_ignores_padding_witness :
  forallb isWhiteSpace [c_nl] = true /\ forallb isWhiteSpace (js "  ") = true
  /\ safeJsonParse (VString ([c_nl] ++ sample_text ++ js "  "))
     = safeJsonParse (VString sample_text).
Proof.
  split; [reflexivity|]. split; [reflexivity|].
  apply (safeJsonParse_ignores_padding [c_nl] sample_text (js "  ")); reflexivity.
Defined.

Lemma startsWith_before_closing_app (w post : jsstring) :
  w <> [] -> startsWith w fence = false ->
  startsWith (w ++ closing ++ post) fence = false.
Proof.
  intros Hne H. destruct w as [|a [|b [|c r]]]; [congruence| | |].
  - simpl. now destruct (a =? c_backtick)%N.
  - simpl. destruct (a =? c_backtick)%N; [|reflexivity].
    now destruct (b =? c_backtick)%N.
  - simpl in *. exact H.
Qed.

Lemma closes_inside_app (w post : jsstring) :
  w <> [] -> noFence w = true -> endsClean w = true ->
  closes (w ++ closing ++ post) = false.
Proof.
  induction w as [|c r IH]; intros Hne Hf Hc; [congruence|].
  apply noFence_tail in Hf as [Hs Hr].
  unfold closes. simpl app. simpl trimStart.
  destruct (isWhiteSpace c) eqn:W.
  - destruct r as [|c2 r2]; [simpl in Hc; now rewrite W in Hc|].
    apply IH; [discriminate | exact Hr | exact (endsClean_tail _ _ Hc)].
  - now apply (startsWith_before_closing_app (c :: r)).
Qed.

Lemma capture_fenced_app (s post : jsstring) :
  noFence s = true -> endsClean s = true ->
  capture (s ++ closing ++ post) = Some s.
Proof.
  induction s as [|c r IH]; intros Hf Hc; [reflexivity|].
  pose proof (closes_inside_app (c :: r) post) as Cl.
  change ((c :: r) ++ closing ++ post) with (c :: r ++ closing ++ post) in *.
  rewrite capture_cons, Cl by (auto; discriminate).
  rewrite IH; [reflexivity | now apply noFence_tail in Hf | ].
  exact (endsClean_tail _ _ Hc).
Qed.

Lemma fenced_app (s post : jsstring) :
  fenced s ++ post
  = c_backtick :: c_backtick :: c_backtick :: 106%N :: 115%N :: 111%N :: 110%N
      :: c_nl :: s ++ closing ++ post.
Proof.
  unfold fenced, fence, closing. change (js "json") with [106%N; 115%N; 111%N; 110%N].
  simpl. do 8 f_equal. rewrite <- !app_assoc. reflexivity.
Qed.

Lemma fenceMatch_fenced_app (c : char16) (r post : jsstring) :
  isWhiteSpace c = false -> noFence (c :: r) = true -> endsClean (c :: r) = true ->
  fenceMatch (fenced (c :: r) ++ post) = Some (c :: r).
Proof.
  intros W Hf Hc. rewrite fenced_app.
  pose proof (capture_fenced_app (c :: r) post Hf Hc) as C.
  set (rest := (c :: r) ++ closing ++ post) in *.
  assert (A : after_spaces rest = Some (c :: r)).
  { unfold rest. simpl app. unfold after_spaces; fold after_spaces. rewrite W.
    exact C. }
  clearbody rest.
  unfold fenceMatch, match_here. simpl startsWith. simpl skipn.
  unfold after_word. simpl startsWith_i. simpl skipn.
  unfold after_spaces; fold after_spaces. simpl isWhiteSpace. cbv iota.
  now rewrite A.
Qed.

Lemma fenceMatch_skip (pre s : jsstring) :
  has_char c_backtick pre = false -> fenceMatch (pre ++ s) = fenceMatch s.
Proof.
  induction pre as [|x r IH]; intro H; [reflexivity|].
  apply has_char_cons in H as [Hx Hr].
  simpl app. unfold fenceMatch; fold fenceMatch. unfold match_here.
  assert (S : startsWith (x :: r ++ s) fence = false).
  { simpl. rewrite N.eqb_sym in Hx. unfold c_backtick in *. now rewrite N.eqb_sym, Hx. }
  rewrite S. now apply IH.
Qed.

(** X17: a fenced block is found in the middle of prose.  For a JSON
    text [s] of the value [v] (trimmed, without a run of three backticks),
    put in a json fence after any prose without a backtick and before
    anything at all, the extractor returns [v] whenever the text as a whole
    is not JSON. *)
Theorem fenced_block_found_in_prose (v : value) (s pre post : jsstring) :
  JSON_parse s = Some v -> trim s = s -> includes s fence = false ->
  has_char c_backtick pre = false ->
  JSON_parse (trim (pre ++ fenced s ++ post)) = None ->
  safeJsonParse (VString (pre ++ fenced s ++ post)) = v.
Proof.
  intros Hp Ht Hf Hpre Hn.
  destruct s as [|c r]; [discriminate|].
  destruct (trim_fixed _ Ht) as (Hs & He).
  pose proof (trimStart_head _ _ Hs) as W.
  pose proof (trimEnd_endsClean _ He) as Hc.
  pose proof (includes_noFence _ Hf) as Hnf.
  assert (T : trim (pre ++ fenced (c :: r) ++ post)
              = trimStart pre ++ fenced (c :: r) ++ trimEnd post).
  { rewrite fenced_shape.
    set (m := c_backtick :: c_backtick :: js "json" ++ [c_nl] ++ (c :: r)
                ++ [c_nl; c_backtick; c_backtick]).
    clearbody m.
    assert (E1 : forall a b : jsstring,
               a ++ (c_backtick :: m ++ [c_backtick]) ++ b
               = (a ++ c_backtick :: m) ++ c_backtick :: b).
    { intros a b. simpl. rewrite <- !app_assoc. reflexivity. }
    rewrite !E1. unfold trim. rewrite <- app_assoc. simpl app.
    rewrite (trimStart_app_clean pre c_backtick _ eq_refl).
    change (trimStart pre ++ c_backtick :: m ++ c_backtick :: post)
      with (trimStart pre ++ (c_backtick :: m) ++ c_backtick :: post).
    rewrite app_assoc.
    now rewrite (trimEnd_app_clean _ c_backtick post eq_refl). }
  unfold safeJsonParse. rewrite T in *. rewrite Hn.
  assert (P2 : parseFenced (trimStart pre ++ fenced (c :: r) ++ trimEnd post) = Some v).
  { unfold parseFenced.
    rewrite (fenceMatch_skip _ _ (has_char_trimStart _ _ Hpre)).
    rewrite (fenceMatch_fenced_app _ _ _ W Hnf Hc). now rewrite Ht. }
  rewrite P2.
  destruct (trimStart pre ++ fenced (c :: r) ++ trimEnd post) eqn:E; [|reflexivity].
  exfalso. apply (f_equal (@List.length _)) in E.
  rewrite !length_app in E. unfold fenced in E. rewrite !length_app in E.
  simpl in E. lia.
Qed.

Lemma fenced_block_found_in_prose_witness :
  JSON_parse sample_text = Some sample_reply /\ trim sample_text = sample_text
  /\ includes sample_text fence = false
  /\ has_char c_backtick (js "Here is my grading: ") = false
  /\ JSON_parse (trim (js "Here is my grading: " ++ fenced sample_text
                         ++ js " Let me know if you need more."))
     = None
  /\ safeJsonParse (VString (js "Here is my grading: " ++ fenced sample_text
                               ++ js " Let me know if you need more."))
     = sample_reply.
Proof.
  split; [vm_compute; reflexivity|]. split; [vm_compute; reflexivity|].
  split; [vm_compute; reflexivity|]. split; [vm_compute; reflexivity|].
  split; [vm_compute; reflexivity|].
  apply (fenced_block_found_in_prose sample_reply sample_text
           (js "Here is my grading: ") (js " Let me know if you need more."));
    vm_compute; reflexivity.
Defined.

(* ================================================================== *)
(** ** The grade endpoint *)
(* ================================================================== *)

(** handleGrade first reads the request, then answers it. *)
Lemma handleGrade_after_reading (env : Env)
  (bank : jsstring -> completion (list Question))
  (notes : jsstring -> completion jsstring)
  (fetched : completion Response) (body : value) :
  match readGradeRequest env body with
  | Throw e => Server.handleGrade env bank notes fetched body = Throw e
  | Return rq =>
    Server.handleGrade env bank notes fetched body
    = match req_setId rq, req_questionId rq, req_answer rq with
      | [], _, _ => Return (Server.sendError 400 "Missing setId")
      | _, [], _ => Return (Server.sendError 400 "Missing questionId")
      | _, _, [] => Return (Server.sendError 400 "Missing answer")
      | _, _, _ =>
        questions <- bank (req_setId rq) ;;
        match find (fun q => str_eqb (id q) (req_questionId rq)) questions with
        | None => Return (Server.sendError 404 "Question not found")
        | Some question =>
          maxScore <- Server.maxScoreOf question ;;
          notesMd <- notes (req_setId rq) ;;
          raw <- Server.callAdapter (Server.selectAdapter (req_provider rq)) env
                   (VString (req_apiKey rq)) (req_model rq) fetched ;;
          Server.gradeReply maxScore raw
        end
      end
  end.
Proof.
  unfold readGradeRequest, Server.handleGrade.
  repeat match goal with
         | |- match bind ?c _ with _ => _ end =>
           destruct c; cbn [bind]; [|reflexivity]
         end.
  cbn [req_setId req_questionId req_answer req_provider req_apiKey req_model].
  do 3 match goal with
       | |- _ = match ?s with [] => _ | _ :: _ => _ end => destruct s; [reflexivity|]
       end.
  destruct (bank _) as [qs|e]; [|reflexivity]. cbn [bind].
  destruct (find _ qs) as [q|]; [|reflexivity].
  destruct (Server.maxScoreOf q) as [m|e]; [|reflexivity]. cbn [bind].
  destruct (notes _) as [md|e]; [|reflexivity]. cbn [bind].
  destruct (snippetsOf md q). reflexivity.
Qed.



Lemma find_absent {A : Type} (f : A -> bool) (l : list A) :
  (forall x, In x l -> f x = false) -> find f l = None.
Proof.
  induction l as [|a l IH]; intro H; [reflexivity|]. simpl.
  rewrite (H a (or_introl eq_refl)). apply IH. intros x Hx. apply H. now right.
Qed.

(** X19: a valid request for a question that the bank of the set does not
    hold is answered with status 404 without any call to a model; a failure
    to read the bank is passed on as it is. *)
Theorem unknown_question_not_found (env : Env) (body : value) (rq : GradeRequest)
  (bank : jsstring -> completion (list Question)) :
  readGradeRequest env body = Return rq ->
  req_setId rq <> [] -> req_questionId rq <> [] -> req_answer rq <> [] ->
  forall notes fetched,
    match bank (req_setId rq) with
    | Throw e => Server.handleGrade env bank notes fetched body = Throw e
    | Return questions =>
      (forall q, In q questions -> id q <> req_questionId rq) ->
      Server.handleGrade env bank notes fetched body
      = Return (Server.sendError 404 "Question not found")
    end.
Proof.
  intros R Hs Hq Ha notes fetched.
  pose proof (handleGrade_after_reading env bank notes fetched body) as S.
  rewrite R in S. rewrite S.
  destruct (req_setId rq); [congruence|].
  destruct (req_questionId rq) eqn:Eq; [congruence|].
  destruct (req_answer rq); [congruence|].
  destruct (bank _) as [questions|e]; [|reflexivity]. cbn [bind].
  intro N. rewrite find_absent; [reflexivity|].
  intros q Hin. apply str_eqb_neq. now apply N.
Qed.

Lemma unknown_question_not_found_witness :
  exists rq,
    readGradeRequest no_env (grade_body "s1" "q9" "my answer") = Return rq
    /\ Server.handleGrade no_env sample_bank no_notes (Throw TypeError)
         (grade_body "s1" "q9" "my answer")
       = Return (Server.sendError 404 "Question not found").
Proof.
  eexists. split; [vm_compute; reflexivity|].
  apply (unknown_question_not_found no_env (grade_body "s1" "q9" "my answer") _
           sample_bank ltac:(vm_compute; reflexivity) ltac:(discriminate)
           ltac:(discriminate) ltac:(discriminate) no_notes (Throw TypeError)).
  intros q [<-|[]]. vm_compute. discriminate.
Defined.

Lemma server_gradeReply_code (maxScore : num) (raw : jsstring) (reply : Server.Reply) :
  Server.gradeReply maxScore raw = Return reply -> Server.code reply = 200.
Proof.
  unfold Server.gradeReply. destruct (negb _).
  - intro H. now injection H as <-.
  - destruct (Server.normalizeResult _ _); [|discriminate].
    cbn [bind]. intro H. now injection H as <-.
Qed.

Lemma handleGrade_source (env : Env)
  (bank : jsstring -> completion (list Question))
  (notes : jsstring -> completion jsstring)
  (fetched : completion Response) (body : value) (reply : Server.Reply) :
  Server.handleGrade env bank notes fetched body = Return reply ->
  (Server.code reply = 200 \/ Server.code reply = 400 \/ Server.code reply = 404)
  /\ (Server.code reply = 200 ->
      exists rq questions question maxScore notesMd res raw,
        readGradeRequest env body = Return rq
        /\ bank (req_setId rq) = Return questions
        /\ In question questions /\ id question = req_questionId rq
        /\ Server.maxScoreOf question = Return maxScore
        /\ notes (req_setId rq) = Return notesMd
        /\ fetched = Return res /\ ok res = true
        /\ Server.extractText (Server.selectAdapter (req_provider rq))
             (response_data res) = Return (VString raw)
        /\ trim raw <> []
        /\ Server.gradeReply maxScore raw = Return reply).
Proof.
  intro H.
  pose proof (handleGrade_after_reading env bank notes fetched body) as S.
  destruct (readGradeRequest env body) as [rq|e]; [|congruence].
  rewrite S in H. clear S.
  destruct (req_setId rq) eqn:Es; [injection H as <-; split; [auto|discriminate]|].
  destruct (req_questionId rq) eqn:Eq; [injection H as <-; split; [auto|discriminate]|].
  destruct (req_answer rq) eqn:Ea; [injection H as <-; split; [auto|discriminate]|].
  rewrite <- Es, <- Eq in H.
  destruct (bank _) as [questions|e] eqn:Eb; [|discriminate]. cbn [bind] in H.
  destruct (find _ questions) as [question|] eqn:Ef;
    [|injection H as <-; split; [auto|discriminate]].
  destruct (Server.maxScoreOf question) as [maxScore|e] eqn:Em; [|discriminate].
  cbn [bind] in H.
  destruct (notes _) as [notesMd|e] eqn:En; [|discriminate]. cbn [bind] in H.
  destruct (Server.callAdapter _ env _ _ fetched) as [raw|e] eqn:Ec; [|discriminate].
  cbn [bind] in H.
  split; [left; now apply (server_gradeReply_code maxScore raw)|]. intros _.
  apply find_some in Ef as [Hin Hid]. apply str_eqb_eq in Hid.
  apply server_call_source, server_readReply_source in Ec.
  destruct Ec as (res & -> & O & X & B).
  exists rq, questions, question, maxScore, notesMd, res, raw.
  repeat split; auto.
Qed.

(** X20: handleGrade answers with status 200, 400 or 404 and nothing
    else, and a 200 always has a source: the request named a question of the
    bank, the notes of the set could be looked up, the fetch succeeded with
    a response whose status was ok, the adapter took a text from it that is
    not blank, and the reply is what the extractor and the normaliser make
    of that text. *)
Theorem graded_reply_has_a_source (env : Env)
  (bank : jsstring -> completion (list Question))
  (notes : jsstring -> completion jsstring)
  (fetched : completion Response) (body : value) (reply : Server.Reply) :
  Server.handleGrade env bank notes fetched body = Return reply ->
  (Server.code reply = 200 \/ Server.code reply = 400 \/ Server.code reply = 404)
  /\ (Server.code reply = 200 ->
      exists rq questions question maxScore notesMd res raw,
        readGradeRequest env body = Return rq
        /\ bank (req_setId rq) = Return questions
        /\ In question questions /\ id question = req_questionId rq
        /\ Server.maxScoreOf question = Return maxScore
        /\ notes (req_setId rq) = Return notesMd
        /\ fetched = Return res /\ ok res = true
        /\ Server.extractText (Server.selectAdapter (req_provider rq))
             (response_data res) = Return (VString raw)
        /\ trim raw <> []
        /\ Server.gradeReply maxScore raw = Return reply).
Proof. apply handleGrade_source. Qed.

Lemma graded_reply_has_a_source_witness :
  exists reply,
    Server.handleGrade no_env sample_bank no_notes (Return good_openai)
      (VObject [(js "setId", vstr "s1"); (js "questionId", vstr "q1");
                (js "apiKey", VString some_key); (js "answer", vstr "my answer")])
    = Return reply
    /\ (Server.code reply = 200 \/ Server.code reply = 400 \/ Server.code reply = 404).
Proof.
  eexists. split; [vm_compute; reflexivity|].
  apply (graded_reply_has_a_source no_env sample_bank no_notes (Return good_openai)
           (VObject [(js "setId", vstr "s1"); (js "questionId", vstr "q1");
                     (js "apiKey", VString some_key); (js "answer", vstr "my answer")])).
  vm_compute. reflexivity.
Defined.

Lemma receive_total (maxBytes : Z) (chunks : list (list N)) :
  forall size received,
    size <= maxBytes ->
    receive maxBytes chunks size received
    = if size + totalBytes chunks <=? maxBytes
      then {| settled := Return (List.concat (rev received) ++ List.concat chunks);
              destroyed := false |}
      else {| settled := Throw (Error (js "Request body too large"));
              destroyed := true |}.
Proof.
  unfold totalBytes.
  induction chunks as [|chunk rest IH]; intros size received Hs.
  - simpl. rewrite app_nil_r.
    destruct (size + 0 <=? maxBytes) eqn:E; [reflexivity|].
    apply Z.leb_gt in E. lia.
  - cbn [receive List.concat]. rewrite length_app, Nat2Z.inj_add.
    destruct (maxBytes <? size + Z.of_nat (List.length chunk)) eqn:E.
    + apply Z.ltb_lt in E.
      destruct (_ <=? maxBytes) eqn:E'; [|reflexivity].
      apply Z.leb_le in E'. lia.
    + apply Z.ltb_ge in E. rewrite (IH _ _ E).
      rewrite Z.add_assoc. cbn [rev]. rewrite concat_app. cbn [List.concat].
      rewrite app_nil_r, <- app_assoc. reflexivity.
Qed.

Lemma readRequestBody_cases (chunks : list (list N)) (maxBytes : Z) :
  0 <= maxBytes ->
  readRequestBody chunks maxBytes
  = if totalBytes chunks <=? maxBytes
    then Return (List.concat chunks)
    else Throw (Error (js "Request body too large")).
Proof.
  intro H. unfold readRequestBody. rewrite receive_total by exact H. cbn [app Z.add].
  now destruct (totalBytes chunks <=? maxBytes).
Qed.

(** The socket is destroyed exactly when the body exceeds the limit. *)
Lemma socketDestroyed_cases (chunks : list (list N)) (maxBytes : Z) :
  0 <= maxBytes ->
  socketDestroyed chunks maxBytes = negb (totalBytes chunks <=? maxBytes).
Proof.
  intro H. unfold socketDestroyed. rewrite receive_total by exact H. cbn [Z.add].
  now destruct (totalBytes chunks <=? maxBytes).
Qed.

(** X21: readRequestBody accepts a body exactly when its total size does
    not exceed the limit, however the bytes are split into chunks: it then
    returns the bytes in order, and otherwise fails with
    "Request body too large". *)
Theorem readRequestBody_limit (chunks : list (list N)) (maxBytes : Z) :
  0 <= maxBytes ->
  readRequestBody chunks maxBytes
  = if totalBytes chunks <=? maxBytes
    then Return (List.concat chunks)
    else Throw (Error (js "Request body too large")).
Proof. apply readRequestBody_cases. Qed.

Lemma readRequestBody_limit_witness :
  0 <= 3
  /\ readRequestBody [[1%N; 2%N]; [3%N; 4%N]] 3
     = if totalBytes [[1%N; 2%N]; [3%N; 4%N]] <=? 3
       then Return (List.concat [[1%N; 2%N]; [3%N; 4%N]])
       else Throw (Error (js "Request body too large")).
Proof.
  split; [lia|]. apply (readRequestBody_limit [[1%N; 2%N]; [3%N; 4%N]] 3). lia.
Defined.

Lemma handleGrade_code (env : Env)
  (bank : jsstring -> completion (list Question))
  (notes : jsstring -> completion jsstring)
  (fetched : completion Response) (body : value) (reply : Server.Reply) :
  Server.handleGrade env bank notes fetched body = Return reply ->
  Server.code reply = 200 \/ Server.code reply = 400 \/ Server.code reply = 404.
Proof. intro H. now apply (handleGrade_source env bank notes fetched body). Qed.

(** X22: what the listener of the grade route writes, and whether the
    client can receive it.  The status written is 200, 400, 404 or 500.  A
    body above the limit of 1,000,000 bytes is answered 500
    "Request body too large", but readRequestBody has destroyed the socket
    of the request by then, so that reply reaches nobody.  In every other
    case the reply is written on the intact socket: 500 "Invalid JSON" for
    a body that is not JSON; otherwise the reply of handleGrade, or, when
    handleGrade raises (reading the bank or the notes, or calling the
    model), status 500 with the message of the Error. *)
Theorem grade_endpoint_always_replies (engine : exn -> jsstring) (env : Env)
  (bank : jsstring -> completion (list Question))
  (notes : jsstring -> completion jsstring)
  (fetched : completion Response) (utf8 : list N -> jsstring)
  (chunks : list (list N)) :
  let exchange := gradeListener engine env bank notes fetched utf8 chunks in
  gradeStatus (Server.code (written exchange))
  /\ (1000000 < totalBytes chunks ->
      onSocket exchange = false
      /\ written exchange = Server.sendError 500 "Request body too large")
  /\ (totalBytes chunks <= 1000000 ->
      onSocket exchange = true
      /\ match JSON_parse (utf8 (List.concat chunks)) with
         | None => written exchange = Server.sendError 500 "Invalid JSON"
         | Some body =>
           match Server.handleGrade env bank notes fetched body with
           | Return r => written exchange = r
           | Throw (Error (c :: m)) =>
             written exchange
             = Server.sendJson 500 (VObject [(js "error", VString (c :: m))])
           | Throw _ => Server.code (written exchange) = 500
           end
         end).
Proof.
  intro exchange. subst exchange. unfold gradeListener, readJson.
  cbn [written onSocket].
  rewrite (socketDestroyed_cases chunks 1000000) by lia.
  rewrite (readRequestBody_cases chunks 1000000) by lia.
  destruct (totalBytes chunks <=? 1000000) eqn:E; cbn [bind negb].
  - apply Z.leb_le in E. split; [|split; [lia|intros _; split; [reflexivity|]]].
    + destruct (JSON_parse _) as [body|]; cbn [bind].
      * destruct (Server.handleGrade _ _ _ _ body) as [r|e] eqn:H.
        -- destruct (handleGrade_code _ _ _ _ _ _ H) as [C|[C|C]];
             unfold gradeStatus; rewrite C; auto.
        -- right. right. right. reflexivity.
      * right. right. right. reflexivity.
    + destruct (JSON_parse _) as [body|]; cbn [bind]; [|vm_compute; reflexivity].
      destruct (Server.handleGrade _ _ _ _ body) as [r|[| | |[|c m]]]; reflexivity.
  - apply Z.leb_gt in E. split; [|split; [intros _; split; [reflexivity|]|lia]].
    + right. right. right. reflexivity.
    + vm_compute. reflexivity.
Qed.

Lemma grade_endpoint_always_replies_witness :
  totalBytes [] <= 1000000
  /\ onSocket (gradeListener (fun _ => []) no_env sample_bank no_notes (Throw TypeError)
                 (fun _ => js "not json") []) = true
  /\ written (gradeListener (fun _ => []) no_env sample_bank no_notes (Throw TypeError)
                 (fun _ => js "not json") [])
     = Server.sendError 500 "Invalid JSON".
Proof.
  assert (L : totalBytes [] <= 1000000) by (vm_compute; discriminate).
  split; [exact L|].
  exact (proj2 (proj2
    (grade_endpoint_always_replies (fun _ => []) no_env sample_bank no_notes
       (Throw TypeError) (fun _ => js "not json") [])) L).
Defined.

(* ================================================================== *)
(** ** The environment file *)
(* ================================================================== *)

Lemma env_get_app (k : jsstring) (env more : ProcessEnv) :
  env_get k (env ++ more)
  = match env_get k env with Some v => Some v | None => env_get k more end.
Proof.
  induction env as [|[k' v'] r IH]; [reflexivity|]. simpl.
  destruct (str_eqb k k'); [reflexivity|exact IH].
Qed.

Lemma setenv_app (key value : jsstring) (env : ProcessEnv) :
  setenv key value env = env ++ setenv key value [].
Proof. unfold setenv. destruct (cstring key); [now rewrite app_nil_r | reflexivity]. Qed.

Lemma env_get_setenv (k key value : jsstring) :
  env_get k (setenv key value [])
  = match cstring key with
    | [] => None
    | name => if str_eqb k name then Some (cstring value) else None
    end.
Proof. unfold setenv. now destruct (cstring key). Qed.

(** One line of the file: what it appends to the environment. *)
Lemma loadEnvLine_cases (env : ProcessEnv) (line : jsstring) :
  loadEnvLine env line
  = env ++ match parseEnvLine line with
           | Some (key, value) =>
             if inherited key then []
             else match env_get (cstring key) env with
                  | Some _ => []
                  | None => setenv key value []
                  end
           | None => []
           end.
Proof.
  unfold loadEnvLine, env_has, getenv, inherited.
  destruct (parseEnvLine line) as [[key value]|]; [|now rewrite app_nil_r].
  destruct (existsb (str_eqb key) objectPrototypeKeys);
    destruct (env_get (cstring key) env); rewrite ?app_nil_r; try reflexivity.
  apply setenv_app.
Qed.

Lemma loadEnvLines_lookup (lines : list jsstring) :
  forall (env : ProcessEnv) (k : jsstring),
    env_get k (fold_left loadEnvLine lines env)
    = match env_get k env with
      | Some v => Some v
      | None => env_get k (lineAssignments lines)
      end.
Proof.
  induction lines as [|line rest IH]; intros env k.
  - simpl. now destruct (env_get k env).
  - cbn [fold_left]. rewrite IH, loadEnvLine_cases.
    unfold lineAssignments; cbn [flat_map]; fold (lineAssignments rest).
    rewrite !env_get_app.
    destruct (env_get k env) as [v|] eqn:Ek; [reflexivity|].
    destruct (parseEnvLine line) as [[key value]|]; [|reflexivity].
    destruct (inherited key); [reflexivity|].
    destruct (env_get (cstring key) env) as [w|] eqn:Ec; [|reflexivity].
    cbn [env_get]. rewrite env_get_setenv.
    destruct (cstring key) as [|c name]; [reflexivity|].
    destruct (str_eqb k (c :: name)) eqn:E; [|reflexivity].
    apply str_eqb_eq in E. subst k. congruence.
Qed.

Lemma loadEnvLines_lookup_file (file : option jsstring) (env : ProcessEnv) (k : jsstring) :
  env_get k (loadDotEnv file env) = lookupAfterLoad file env k.
Proof.
  unfold lookupAfterLoad. destruct file as [raw|]; simpl.
  - apply loadEnvLines_lookup.
  - now destruct (env_get k env).
Qed.


Lemma env_has_app (k : jsstring) (env more : ProcessEnv) :
  env_has k env = true -> env_has k (env ++ more) = true.
Proof.
  unfold env_has, getenv. rewrite env_get_app.
  destruct (env_get (cstring k) env); [reflexivity|]. intro H. rewrite H.
  now destruct (env_get (cstring k) more).
Qed.

Lemma env_has_loadEnvLine (k : jsstring) (env : ProcessEnv) (line : jsstring) :
  env_has k env = true -> env_has k (loadEnvLine env line) = true.
Proof. intro H. rewrite loadEnvLine_cases. now apply env_has_app. Qed.

Lemma env_has_fold (k : jsstring) (lines : list jsstring) :
  forall env, env_has k env = true -> env_has k (fold_left loadEnvLine lines env) = true.
Proof.
  induction lines as [|line rest IH]; intros env H; [exact H|].
  simpl. apply IH. now apply env_has_loadEnvLine.
Qed.

(** Once a line is read, its name is there, unless it cannot be set. *)
Lemma env_has_own (env : ProcessEnv) (line key value : jsstring) :
  parseEnvLine line = Some (key, value) ->
  env_has key (loadEnvLine env line) = true \/ cstring key = [].
Proof.
  intro P. unfold loadEnvLine. rewrite P.
  destruct (env_has key env) eqn:E; [now left|].
  unfold setenv. destruct (cstring key) as [|c name] eqn:C; [now right|]. left.
  unfold env_has, getenv. rewrite env_get_app, C.
  destruct (env_get (c :: name) env); [reflexivity|]. cbn [env_get].
  now rewrite str_eqb_refl.
Qed.

Lemma env_has_loaded (lines : list jsstring) :
  forall env line key value,
    In line lines -> parseEnvLine line = Some (key, value) ->
    env_has key (fold_left loadEnvLine lines env) = true \/ cstring key = [].
Proof.
  induction lines as [|l rest IH]; intros env line key value Hin P; [destruct Hin|].
  simpl. destruct Hin as [->|Hin].
  - destruct (env_has_own env line key value P) as [H|H]; [left|now right].
    now apply env_has_fold.
  - now apply (IH _ line key value).
Qed.

Lemma loadEnvLines_noop (lines : list jsstring) (env : ProcessEnv) :
  (forall line key value,
     In line lines -> parseEnvLine line = Some (key, value) ->
     env_has key env = true \/ cstring key = []) ->
  fold_left loadEnvLine lines env = env.
Proof.
  induction lines as [|l rest IH]; intro H; [reflexivity|].
  simpl. assert (E : loadEnvLine env l = env).
  { unfold loadEnvLine. destruct (parseEnvLine l) as [[key value]|] eqn:P; [|reflexivity].
    destruct (H l key value (or_introl eq_refl) P) as [-> | C]; [reflexivity|].
    unfold setenv. rewrite C. now destruct (env_has key env). }
  rewrite E. apply IH. intros line key value Hin. apply H. now right.
Qed.

(** X24: loading the environment file twice is the same as loading it
    once. *)
Theorem loadDotEnv_idempotent (file : option jsstring) (env : ProcessEnv) :
  loadDotEnv file (loadDotEnv file env) = loadDotEnv file env.
Proof.
  destruct file as [raw|]; [|reflexivity]. simpl.
  apply loadEnvLines_noop. intros line key value Hin P.
  now apply (env_has_loaded _ env line key value).
Qed.

(** The variable an adapter looks up first. *)
Lemma keyName_lookup (a : Server.Adapter) (env : Env) :
  exists others, envKeys a env = primaryKey a env :: others.
Proof. destruct a; simpl; eauto. Qed.

Lemma serverEnv_primaryKey (a : Server.Adapter) (atStart : ProcessEnv)
  (file : option jsstring) :
  primaryKey a (serverEnv atStart file) = lookupAfterLoad file atStart (keyName a).
Proof.
  rewrite <- loadEnvLines_lookup_file.
  destruct a; unfold primaryKey, serverEnv, getenv;
    cbn [OPENAI_API_KEY GOOGLE_API_KEY ANTHROPIC_API_KEY keyName];
    match goal with
    | |- env_get (cstring ?n) _ = _ =>
      assert (C : cstring n = n) by (vm_compute; reflexivity); now rewrite C
    end.
Qed.

(** X25: a key defined in the .env file reaches the adapter.  When the
    request carries no key (only white space) and the environment the
    server is started in does not set the variable the adapter looks up
    first (OPENAI_API_KEY, GOOGLE_API_KEY, ANTHROPIC_API_KEY), but the file
    defines it with a value that is not empty, then the server started with
    that file calls the model with the key of the file, exactly as it does
    with the same key carried by the request: a key of the wrong format is
    refused, and otherwise the request is made. *)
Theorem dotenv_key_reaches_adapter (a : Server.Adapter) (atStart : ProcessEnv)
  (raw apiKey model : jsstring) (fetched : completion Response)
  (c : char16) (k : jsstring) :
  trim apiKey = [] ->
  env_get (keyName a) atStart = None ->
  env_get (keyName a) (dotenvAssignments raw) = Some (c :: k) ->
  Server.callAdapter a (serverEnv atStart (Some raw)) (VString apiKey) model fetched
  = keyed a (c :: k) model fetched.
Proof.
  intros Hk Hs Hf. apply server_call_with_key.
  rewrite resolveKey_string, Hk.
  destruct (keyName_lookup a (serverEnv atStart (Some raw))) as (others & ->).
  rewrite serverEnv_primaryKey. unfold lookupAfterLoad. rewrite Hs, Hf.
  cbn [fold_left]. now rewrite or_else_fold_truthy.
Qed.

Lemma dotenv_key_reaches_adapter_witness :
  trim (js " ") = []
  /\ env_get (keyName Server.OpenAI) [(js "GOOGLE_API_KEY", js "from-env")] = None
  /\ env_get (keyName Server.OpenAI) (dotenvAssignments sample_dotenv)
     = Some (115%N :: tl (js "sk-from-the-file-0123456789"))
  /\ Server.callAdapter Server.OpenAI
       (serverEnv [(js "GOOGLE_API_KEY", js "from-env")] (Some sample_dotenv))
       (VString (js " ")) (js "gpt-4o-mini") (Return good_openai)
     = Return (js "{}").
Proof.
  assert (T : trim (js " ") = []) by (vm_compute; reflexivity).
  assert (S : env_get (keyName Server.OpenAI) [(js "GOOGLE_API_KEY", js "from-env")]
              = None) by (vm_compute; reflexivity).
  assert (F : env_get (keyName Server.OpenAI) (dotenvAssignments sample_dotenv)
              = Some (115%N :: tl (js "sk-from-the-file-0123456789")))
    by (vm_compute; reflexivity).
  split; [exact T|]. split; [exact S|]. split; [exact F|].
  pose proof (dotenv_key_reaches_adapter Server.OpenAI
                [(js "GOOGLE_API_KEY", js "from-env")] sample_dotenv (js " ")
                (js "gpt-4o-mini") (Return good_openai) 115%N
                (tl (js "sk-from-the-file-0123456789")) T S F) as W.
  assert (K : keyed Server.OpenAI (115%N :: tl (js "sk-from-the-file-0123456789"))
                (js "gpt-4o-mini") (Return good_openai) = Return (js "{}"))
    by (vm_compute; reflexivity).
  exact (eq_trans W K).
Defined.

Example dotenv_scenario :
  let env := serverEnv [(js "GOOGLE_API_KEY", js "from-env")] (Some sample_dotenv) in
  OPENAI_API_KEY env = Some (js "sk-from-the-file-0123456789")
  /\ GOOGLE_API_KEY env = Some (js "from-env")
  /\ Server.DEFAULT_OPENAI_MODEL env = js "gpt-4o-mini".
Proof. repeat apply conj; vm_compute; reflexivity. Qed.

(* ================================================================== *)
(** ** The sections taken from the notes *)
(* ================================================================== *)

Lemma startsWith_prefix (pat post : jsstring) : startsWith (pat ++ post) pat = true.
Proof.
  induction pat as [|p pat IH]; [reflexivity|]. simpl. now rewrite N.eqb_refl.
Qed.

(** What indexOf computes: the least position at which the pattern starts,
    or -1 when there is none. *)
Lemma indexOf_from_cases (s pat : jsstring) :
  forall i,
    (indexOf_from i s pat = -1 -> 0 <= i ->
     forall n, startsWith (skipn n s) pat = false)
    /\ (0 <= i -> indexOf_from i s pat <> -1 ->
        exists n, (n <= List.length s)%nat
          /\ indexOf_from i s pat = i + Z.of_nat n
          /\ startsWith (skipn n s) pat = true
          /\ forall m, (m < n)%nat -> startsWith (skipn m s) pat = false).
Proof.
  induction s as [|c r IH]; intro i.
  - cbn [indexOf_from]. destruct (startsWith [] pat) eqn:E.
    + split; [intros; lia|]. intros Hi _. exists 0%nat.
      repeat split; [simpl; lia|lia|exact E|intros; lia].
    + split; [|congruence]. intros _ _ n. now rewrite skipn_nil.
  - cbn [indexOf_from]. destruct (startsWith (c :: r) pat) eqn:E.
    + split; [intros; lia|]. intros Hi _. exists 0%nat.
      repeat split; [simpl; lia|lia|exact E|intros; lia].
    + destruct (IH (i + 1)) as [A B]. split.
      * intros H Hi [|n]; [exact E|]. simpl. apply A; [exact H|lia].
      * intros Hi H. destruct (B ltac:(lia) H) as (n & Ln & En & Sn & Mn).
        exists (S n). repeat split; [simpl; lia|lia|exact Sn|].
        intros [|m] Hm; [exact E|]. simpl. apply Mn. lia.
Qed.

Lemma occurs_at (pat s : jsstring) :
  occurs pat s <-> exists n, startsWith (skipn n s) pat = true.
Proof.
  split.
  - intros (pre & post & ->). exists (List.length pre).
    rewrite skipn_app, skipn_all, Nat.sub_diag. simpl. apply startsWith_prefix.
  - intros (n & H). apply startsWith_app in H.
    exists (firstn n s), (skipn (List.length pat) (skipn n s)).
    rewrite <- H. now rewrite firstn_skipn.
Qed.

Lemma skipn_past (pre rest : jsstring) : skipn (List.length pre) (pre ++ rest) = rest.
Proof. induction pre as [|c r IH]; [reflexivity|exact IH]. Qed.

(** indexOf finds the first occurrence. *)
Lemma indexOf_from_first (s pat : jsstring) (i : Z) :
  0 <= i ->
  if indexOf_from i s pat =? -1 then ~ occurs pat s
  else exists pre rest,
      s = pre ++ pat ++ rest
      /\ indexOf_from i s pat = i + Z.of_nat (List.length pre)
      /\ forall pre' rest', s = pre' ++ pat ++ rest' ->
                            (List.length pre <= List.length pre')%nat.
Proof.
  intro Hi. destruct (indexOf_from_cases s pat i) as [A B].
  destruct (indexOf_from i s pat =? -1) eqn:E.
  - apply Z.eqb_eq in E. intro O. apply occurs_at in O as (n & Hn).
    rewrite (A E Hi n) in Hn. discriminate.
  - apply Z.eqb_neq in E. destruct (B Hi E) as (n & Ln & En & Sn & Mn).
    pose proof (startsWith_app _ _ Sn) as S.
    exists (firstn n s), (skipn (List.length pat) (skipn n s)).
    rewrite firstn_length_le by exact Ln.
    split; [rewrite <- S; now rewrite firstn_skipn|]. split; [exact En|].
    intros pre' rest' E'.
    destruct (Nat.le_gt_cases n (List.length pre')) as [L|L]; [exact L|].
    exfalso. specialize (Mn _ L). rewrite E', skipn_past in Mn.
    now rewrite startsWith_prefix in Mn.
Qed.

Lemma trim_from_clean (c d : char16) (m rest : jsstring) :
  isWhiteSpace c = false -> isWhiteSpace d = false ->
  trim ((c :: m ++ [d]) ++ rest) = (c :: m ++ [d]) ++ trimEnd rest.
Proof.
  intros Wc Wd. unfold trim. simpl app. cbn [trimStart]. rewrite Wc.
  rewrite <- app_assoc. simpl app.
  change (c :: m ++ d :: rest) with ((c :: m) ++ d :: rest).
  rewrite (trimEnd_app_clean _ d rest Wd).
  simpl. now rewrite <- app_assoc.
Qed.

Lemma extractBooklistSection_spec (md : jsstring) :
  match extractBooklistSection md with
  | None => ~ occurs booklistMarker md
  | Some section =>
    exists pre rest,
      md = pre ++ booklistMarker ++ rest
      /\ (forall pre' rest', md = pre' ++ booklistMarker ++ rest' ->
            (List.length pre <= List.length pre')%nat)
      /\ section = booklistMarker ++ trimEnd rest
  end.
Proof.
  unfold extractBooklistSection, indexOf.
  pose proof (indexOf_from_first md booklistMarker 0 ltac:(lia)) as F.
  destruct (indexOf_from 0 md booklistMarker =? -1); [exact F|].
  destruct F as (pre & rest & E & I & M).
  exists pre, rest. split; [exact E|]. split; [exact M|].
  rewrite I. unfold slice_from. rewrite Z.add_0_l, Nat2Z.id.
  rewrite E at 1. rewrite skipn_past.
  assert (C : exists c m d, booklistMarker = c :: m ++ [d]
                            /\ isWhiteSpace c = false /\ isWhiteSpace d = false).
  { exists 35%N, (removelast (tl booklistMarker)), 65289%N.
    split; [vm_compute; reflexivity|]. split; reflexivity. }
  destruct C as (c & m & d & -> & Wc & Wd).
  now apply trim_from_clean.
Qed.

(** X26: extractBooklistSection returns null exactly when the notes do
    not contain the booklist heading; otherwise it returns the notes from
    the first occurrence of that heading to the end, without trailing white
    space, so the section always starts with the heading. *)
Theorem booklist_section_from_first_marker (md : jsstring) :
  match extractBooklistSection md with
  | None => ~ occurs booklistMarker md
  | Some section =>
    exists pre rest,
      md = pre ++ booklistMarker ++ rest
      /\ (forall pre' rest', md = pre' ++ booklistMarker ++ rest' ->
            (List.length pre <= List.length pre')%nat)
      /\ section = booklistMarker ++ trimEnd rest
  end.
Proof. apply extractBooklistSection_spec. Qed.

Lemma sample_notes_marker : occurs booklistMarker sample_notes.
Proof.
  exists (js "# Notes" ++ [c_nl] ++ js "## Validity" ++ [c_nl]
            ++ js "Internal and external." ++ [c_nl]),
         ([c_nl] ++ js "- Babbie (2020)" ++ [c_nl]).
  vm_compute. reflexivity.
Qed.

Lemma booklist_section_from_first_marker_witness :
  occurs booklistMarker sample_notes
  /\ exists section pre rest,
       extractBooklistSection sample_notes = Some section
       /\ sample_notes = pre ++ booklistMarker ++ rest
       /\ section = booklistMarker ++ trimEnd rest.
Proof.
  split; [exact sample_notes_marker|].
  pose proof sample_notes_marker as O.
  pose proof (booklist_section_from_first_marker sample_notes) as S.
  destruct (extractBooklistSection sample_notes) as [section|]; [|contradiction].
  destruct S as (pre & rest & E & _ & Es).
  now exists section, pre, rest.
Defined.

Lemma no_occurrence_before (p rest : jsstring) (bound e : nat) :
  p <> [] -> (e <= bound)%nat ->
  (forall m, (m < bound)%nat -> startsWith (skipn m rest) p = false) ->
  ~ occurs p (firstn e rest).
Proof.
  intros Hp He Hm (a & b & E).
  assert (L : (List.length a + List.length p + List.length b <= e)%nat).
  { apply (f_equal (@List.length _)) in E. rewrite !length_app in E.
    pose proof (firstn_le_length e rest). lia. }
  assert (Lp : (0 < List.length p)%nat) by (destruct p; [congruence|simpl; lia]).
  specialize (Hm (List.length a) ltac:(lia)).
  rewrite <- (firstn_skipn e rest), E in Hm.
  rewrite <- !app_assoc, skipn_past in Hm.
  now rewrite startsWith_prefix in Hm.
Qed.

(** Where a note section stops: at the first of the two patterns after
    the heading, or at the end of the text. *)
Lemma section_stop (rest p2 p3 : jsstring) (sf : Z) :
  0 <= sf -> p2 <> [] -> p3 <> [] ->
  let i2 := indexOf_from sf rest p2 in
  let i3 := indexOf_from sf rest p3 in
  let len := sf + Z.of_nat (List.length rest) in
  let e2 := if negb (i2 =? -1) then Z.min len i2 else len in
  let e3 := if negb (i3 =? -1) then Z.min e2 i3 else e2 in
  exists e : nat,
    (e <= List.length rest)%nat /\ e3 = sf + Z.of_nat e
    /\ ~ occurs p2 (firstn e rest) /\ ~ occurs p3 (firstn e rest)
    /\ (skipn e rest = [] \/ startsWith (skipn e rest) p2 = true
        \/ startsWith (skipn e rest) p3 = true).
Proof.
  intros Hsf Hp2 Hp3 i2 i3 len e2 e3.
  destruct (indexOf_from_cases rest p2 sf) as [A2 B2].
  destruct (indexOf_from_cases rest p3 sf) as [A3 B3].
  fold i2 in A2, B2. fold i3 in A3, B3.
  assert (C2 : exists b2 : nat,
             (forall m, (m < b2)%nat -> startsWith (skipn m rest) p2 = false)
             /\ ((i2 = -1 /\ (List.length rest < b2)%nat)
                 \/ (i2 = sf + Z.of_nat b2 /\ (b2 <= List.length rest)%nat
                     /\ startsWith (skipn b2 rest) p2 = true))).
  { destruct (Z.eq_dec i2 (-1)) as [E|E].
    - exists (S (List.length rest)). split; [intros; now apply A2|left; split; [exact E|lia]].
    - destruct (B2 Hsf E) as (n & Ln & En & Sn & Mn). exists n. split; [exact Mn|].
      right. auto. }
  assert (C3 : exists b3 : nat,
             (forall m, (m < b3)%nat -> startsWith (skipn m rest) p3 = false)
             /\ ((i3 = -1 /\ (List.length rest < b3)%nat)
                 \/ (i3 = sf + Z.of_nat b3 /\ (b3 <= List.length rest)%nat
                     /\ startsWith (skipn b3 rest) p3 = true))).
  { destruct (Z.eq_dec i3 (-1)) as [E|E].
    - exists (S (List.length rest)). split; [intros; now apply A3|left; split; [exact E|lia]].
    - destruct (B3 Hsf E) as (n & Ln & En & Sn & Mn). exists n. split; [exact Mn|].
      right. auto. }
  destruct C2 as (b2 & M2 & D2). destruct C3 as (b3 & M3 & D3).
  exists (Nat.min (List.length rest) (Nat.min b2 b3)).
  split; [lia|]. split.
  { subst e3 e2 len.
    destruct D2 as [[E2 L2]|(E2 & L2 & _)]; destruct D3 as [[E3 L3]|(E3 & L3 & _)];
      rewrite E2, E3;
      repeat match goal with
             | |- context [?x =? -1] =>
               let Q := fresh in
               destruct (x =? -1) eqn:Q;
               [apply Z.eqb_eq in Q|apply Z.eqb_neq in Q]; try lia
             end;
      cbn [negb]; lia. }
  split; [apply (no_occurrence_before p2 rest b2); [exact Hp2|lia|exact M2]|].
  split; [apply (no_occurrence_before p3 rest b3); [exact Hp3|lia|exact M3]|].
  destruct (Nat.le_gt_cases (List.length rest) (Nat.min b2 b3)) as [L|L].
  - left. rewrite Nat.min_l by exact L. apply skipn_all.
  - rewrite Nat.min_r by lia.
    destruct (Nat.le_gt_cases b2 b3) as [L'|L'].
    + rewrite Nat.min_l by exact L'. right. left.
      destruct D2 as [[_ L2]|(_ & _ & S2)]; [lia|exact S2].
    + rewrite Nat.min_r by lia. right. right.
      destruct D3 as [[_ L3]|(_ & _ & S3)]; [lia|exact S3].
Qed.

(** X27: extractNoteSection returns null when no heading is given or
    when the notes do not contain it.  Otherwise the section is the trimmed
    text from the first occurrence of the heading up to the next heading of
    level two or three (a line feed followed by "## " or "### "), or to
    the end of the notes: after the heading the section contains neither
    pattern, and what follows it in the notes is nothing or starts with one
    of them. *)
Theorem note_section_bounds (md : jsstring) :
  extractNoteSection md None = None /\ extractNoteSection md (Some []) = None
  /\ forall c h,
       match extractNoteSection md (Some (c :: h)) with
       | None => ~ occurs (c :: h) md
       | Some section =>
         exists pre body post,
           md = pre ++ (c :: h) ++ body ++ post
           /\ (forall pre' rest', md = pre' ++ (c :: h) ++ rest' ->
                 (List.length pre <= List.length pre')%nat)
           /\ section = trim ((c :: h) ++ body)
           /\ ~ occurs h2 body /\ ~ occurs h3 body
           /\ (post = [] \/ startsWith post h2 = true \/ startsWith post h3 = true)
       end.
Proof.
  split; [reflexivity|]. split; [reflexivity|]. intros c h.
  unfold extractNoteSection, indexOf, indexOf_at.
  set (H := c :: h).
  pose proof (indexOf_from_first md H 0 ltac:(lia)) as F.
  destruct (indexOf_from 0 md H =? -1); [exact F|].
  destruct F as (pre & rest & E & I & M). rewrite I.
  set (sf := 0 + Z.of_nat (List.length pre) + str_length H).
  assert (Sf : Z.to_nat sf = (List.length (pre ++ H))%nat).
  { subst sf. unfold str_length. rewrite length_app. lia. }
  assert (R : skipn (Z.to_nat sf) md = rest).
  { rewrite Sf, E, app_assoc. apply skipn_past. }
  rewrite R.
  assert (Len : str_length md = sf + Z.of_nat (List.length rest)).
  { subst sf. unfold str_length. rewrite E, !length_app. lia. }
  rewrite Len.
  destruct (section_stop rest h2 h3 sf ltac:(subst sf; unfold str_length; lia)
              ltac:(discriminate) ltac:(discriminate))
    as (e & Le & Ee & N2 & N3 & P).
  cbv zeta in Ee. rewrite Ee.
  exists pre, (firstn e rest), (skipn e rest).
  split; [now rewrite firstn_skipn|]. split; [exact M|].
  split; [|auto].
  f_equal. unfold slice.
  replace (Z.to_nat (0 + Z.of_nat (List.length pre))) with (List.length pre) by lia.
  replace (Z.to_nat (sf + Z.of_nat e - (0 + Z.of_nat (List.length pre))))
    with (List.length H + e)%nat by (subst sf; unfold str_length; lia).
  rewrite E, skipn_past. apply firstn_app_2.
Qed.

Lemma note_section_bounds_witness :
  extractNoteSection sample_notes (Some (js "## Validity"))
  = Some (js "## Validity" ++ [c_nl] ++ js "Internal and external.")
  /\ ~ occurs (js "## Reliability") sample_notes.
Proof.
  split; [vm_compute; reflexivity|].
  pose proof (proj2 (proj2 (note_section_bounds sample_notes)) 35%N
                (tl (js "## Reliability"))) as S.
  match type of S with
  | match ?x with _ => _ end =>
    assert (E : x = None) by (vm_compute; reflexivity); rewrite E in S
  end.
  assert (J : js "## Reliability" = 35%N :: tl (js "## Reliability"))
    by (vm_compute; reflexivity).
  rewrite J. exact S.
Defined.

(* ================================================================== *)
(** ** What the prompt carries and how the result is shown *)
(* ================================================================== *)

Lemma occurs_in_joined (x p sep : jsstring) (parts : list jsstring) :
  In p parts -> occurs x p -> occurs x (join sep parts).
Proof. intros Hin O. eapply occurs_trans; [exact O|now apply occurs_join]. Qed.

Lemma server_part_in_prompt (question : Question) (answer : jsstring) (maxScore : num)
  (elapsedSeconds : value) (notesSnippet booklistSnippet : option jsstring)
  (x p : jsstring) :
  In p (Server.userParts question answer maxScore elapsedSeconds notesSnippet
          booklistSnippet) ->
  occurs x p ->
  occurs x (userMessage (Server.buildGradingMessages question answer maxScore
                           elapsedSeconds notesSnippet booklistSnippet)).
Proof. apply occurs_in_joined. Qed.

Lemma static_part_in_prompt (question : Question) (answer : jsstring) (maxScore : num)
  (elapsedSeconds : value) (x p : jsstring) :
  In p (Static.userParts question answer maxScore elapsedSeconds) ->
  occurs x p ->
  occurs x (userMessage (Static.buildGradingMessages question answer maxScore
                           elapsedSeconds)).
Proof. apply occurs_in_joined. Qed.

Lemma occurs_app_mid (x a b : jsstring) : occurs x (a ++ x ++ b).
Proof. now exists a, b. Qed.

Lemma occurs_at_end (x a : jsstring) : occurs x (a ++ x).
Proof. exists a, []. now rewrite app_nil_r. Qed.

(** X28: the user message of the prompt carries the context it is given:
    the section and the text of the question, every booklist topic of the
    question, and the time block when the elapsed time is a number, in both
    builds; the server's message also carries the note section and the
    booklist section when they are not empty. *)
Theorem prompt_carries_context (question : Question) (answer : jsstring)
  (maxScore : num) (elapsedSeconds : value) (notesSnippet booklistSnippet : option jsstring) :
  let server := userMessage (Server.buildGradingMessages question answer maxScore
                               elapsedSeconds notesSnippet booklistSnippet) in
  let browser := userMessage (Static.buildGradingMessages question answer maxScore
                                elapsedSeconds) in
  (occurs (section question) server /\ occurs (text question) server
   /\ occurs (section question) browser /\ occurs (text question) browser)
  /\ (forall topics t, booklistTopics question = Some topics -> In t topics ->
        occurs t server /\ occurs t browser)
  /\ (forall n, elapsedSeconds = VNumber n ->
        occurs (timeBlock n) server /\ occurs (timeBlock n) browser)
  /\ (forall c s, notesSnippet = Some (c :: s) -> occurs (c :: s) server)
  /\ (forall c s, booklistSnippet = Some (c :: s) -> occurs (c :: s) server).
Proof.
  intros server browser. subst server browser.
  split; [|split; [|split; [|split]]].
  - repeat split.
    + eapply server_part_in_prompt; [apply in_or_app; left; left; reflexivity|].
      apply occurs_app_r, occurs_app_l, occurs_refl.
    + eapply server_part_in_prompt; [apply in_or_app; left; left; reflexivity|].
      rewrite !app_assoc. apply occurs_at_end.
    + eapply static_part_in_prompt; [apply in_or_app; left; left; reflexivity|].
      apply occurs_app_r, occurs_app_l, occurs_refl.
    + eapply static_part_in_prompt; [apply in_or_app; left; left; reflexivity|].
      rewrite !app_assoc. apply occurs_at_end.
  - intros topics t E Hin. destruct topics as [|t0 ts]; [destruct Hin|].
    assert (O : occurs t ([c_nl] ++ js "【題目對應書單主題】" ++ [c_nl] ++ js "- "
                            ++ join ([c_nl] ++ js "- ") (t0 :: ts))).
    { do 4 apply occurs_app_r. now apply occurs_join. }
    split.
    + eapply server_part_in_prompt; [|exact O].
      unfold Server.userParts. rewrite E.
      apply in_or_app. right. apply in_or_app. left. left. reflexivity.
    + eapply static_part_in_prompt; [|exact O].
      unfold Static.userParts. rewrite E.
      apply in_or_app. right. apply in_or_app. left. left. reflexivity.
  - intros n ->.
    assert (O : occurs (timeBlock n)
                  ([c_nl] ++ js "【作答時間】" ++ [c_nl] ++ NumberToString n
                     ++ js " 秒（僅供參考）")).
    { apply occurs_at_end. }
    split.
    + eapply server_part_in_prompt; [|exact O]. unfold Server.userParts.
      apply in_or_app. right. apply in_or_app. right. apply in_or_app. left.
      left. reflexivity.
    + eapply static_part_in_prompt; [|exact O]. unfold Static.userParts.
      apply in_or_app. right. apply in_or_app. right. apply in_or_app. left.
      left. reflexivity.
  - intros c s ->.
    eapply server_part_in_prompt.
    + unfold Server.userParts. do 4 (apply in_or_app; right).
      apply in_or_app. left. left. reflexivity.
    + rewrite !app_assoc. apply occurs_at_end.
  - intros c s ->.
    eapply server_part_in_prompt.
    + unfold Server.userParts. do 5 (apply in_or_app; right).
      apply in_or_app. left. left. reflexivity.
    + rewrite !app_assoc. apply occurs_at_end.
Qed.

Lemma prompt_carries_context_witness :
  booklistTopics sample_question = Some [js "validity"]
  /\ In (js "validity") [js "validity"]
  /\ occurs (js "validity")
       (userMessage (Server.buildGradingMessages sample_question (js "my answer")
                       (num_of_Z 20) (VNumber pZero) None None)).
Proof.
  split; [reflexivity|]. split; [now left|].
  pose proof (prompt_carries_context sample_question (js "my answer")
                (num_of_Z 20) (VNumber pZero) None None) as P.
  cbv zeta in P. destruct P as (_ & T & _).
  destruct (T [js "validity"] (js "validity") eq_refl (or_introl eq_refl)) as [A _].
  exact A.
Defined.

Lemma server_booklist_part (question : Question) (answer : jsstring) (maxScore : num)
  (elapsedSeconds : value) (notesSnippet : option jsstring) (c : char16) (s : jsstring) :
  In ([c_nl] ++ js "【官方書單對照（可引用；不可杜撰）】" ++ [c_nl] ++ c :: s)
     (Server.userParts question answer maxScore elapsedSeconds notesSnippet
        (Some (c :: s))).
Proof.
  unfold Server.userParts. do 5 (apply in_or_app; right).
  apply in_or_app. left. left. reflexivity.
Qed.

(** X29: whenever the notes of the set contain the official booklist
    heading, the section that starts at it is extracted and quoted in the
    user message of the server's prompt. *)
Theorem booklist_of_notes_reaches_prompt (notesMd : jsstring) (question : Question)
  (answer : jsstring) (maxScore : num) (elapsedSeconds : value) :
  occurs booklistMarker notesMd ->
  exists rest,
    snd (snippetsOf notesMd question) = Some (booklistMarker ++ rest)
    /\ occurs (booklistMarker ++ rest)
         (userMessage
            (Server.buildGradingMessages question answer maxScore elapsedSeconds
               (fst (snippetsOf notesMd question)) (snd (snippetsOf notesMd question)))).
Proof.
  intro O. pose proof (extractBooklistSection_spec notesMd) as S.
  assert (N : notesMd <> []).
  { destruct O as (pre & post & ->). destruct pre; discriminate. }
  unfold snippetsOf. destruct notesMd as [|c0 md0]; [congruence|].
  cbn [fst snd].
  destruct (extractBooklistSection (c0 :: md0)) as [sec|]; [|contradiction].
  destruct S as (pre & rest & _ & _ & ->).
  exists (trimEnd rest). split; [reflexivity|].
  assert (M : exists c m, booklistMarker = c :: m).
  { exists 35%N, (tl booklistMarker). vm_compute. reflexivity. }
  destruct M as (c & m & Em). rewrite Em.
  change ((c :: m) ++ trimEnd rest) with (c :: (m ++ trimEnd rest)).
  eapply server_part_in_prompt; [apply server_booklist_part|].
  do 3 apply occurs_app_r. apply occurs_refl.
Qed.

Lemma booklist_of_notes_reaches_prompt_witness :
  occurs booklistMarker sample_notes
  /\ exists rest,
       snd (snippetsOf sample_notes sample_question) = Some (booklistMarker ++ rest)
       /\ occurs (booklistMarker ++ rest)
            (userMessage
               (Server.buildGradingMessages sample_question (js "my answer")
                  (num_of_Z 20) (VNumber pZero)
                  (fst (snippetsOf sample_notes sample_question))
                  (snd (snippetsOf sample_notes sample_question)))).
Proof.
  split; [exact sample_notes_marker|].
  exact (booklist_of_notes_reaches_prompt sample_notes sample_question (js "my answer")
           (num_of_Z 20) (VNumber pZero) sample_notes_marker).
Defined.

Lemma ToString_primitive (v : value) :
  primitive v = true -> exists s, ToString v = Return s.
Proof. destruct v; try discriminate; intros _; eexists; reflexivity. Qed.

Lemma join_values_primitive (sep : jsstring) (items : list value) :
  forallb primitive items = true -> exists s, join_values sep items = Return s.
Proof.
  induction items as [|x r IH]; intro H; [now eexists|].
  simpl in H. apply andb_prop in H as [Hx Hr].
  destruct (IH Hr) as (sr & Er). cbn [join_values].
  assert (X : exists sx, match x with
                         | VUndefined | VNull => Return []
                         | _ => ToString x
                         end = Return sx).
  { destruct x; try discriminate Hx; eexists; reflexivity. }
  destruct X as (sx & ->). cbn [bind].
  destruct r; [now eexists|]. rewrite Er. cbn [bind]. now eexists.
Qed.

Lemma listBlock_plain (title : string) (v : value) :
  plainList v = true -> exists block, App.listBlock title (arrayOrEmpty v) = Return block.
Proof.
  intro P. unfold arrayOrEmpty. destruct (isArray v) eqn:A.
  - destruct v as [| |b|n|s|items own|props]; try discriminate A.
    simpl in P. apply andb_prop in P as [Pi Po].
    destruct own; [|discriminate]. unfold App.listBlock.
    destruct (truthy (App.lengthOpt (VArray items []))); [|now eexists].
    unfold App.joinCall. cbn [has_key assoc].
    destruct (join_values_primitive (c_nl :: js "- ") items Pi) as (s & ->).
    cbn [bind]. now eexists.
  - unfold App.listBlock.
    assert (E : truthy (App.lengthOpt empty_array) = false) by (vm_compute; reflexivity).
    rewrite E. now eexists.
Qed.

(** X30: what the browser normaliser returns can always be shown.  For a
    parsed reply that is an object or array, whose rationale is a primitive
    and whose strengths and improvements, when they are arrays, hold
    primitives, renderResult succeeds on the normalised result: the lists
    it joins are arrays even when the model sent something else. *)
Theorem normalised_result_renders (maxScore : num) (parsed r : value) :
  objectShaped parsed = true ->
  primitive (GetOpt parsed (js "rationale")) = true ->
  plainList (GetOpt parsed (js "strengths")) = true ->
  plainList (GetOpt parsed (js "improvements")) = true ->
  Static.normalizeResult maxScore parsed = Return r ->
  exists shown, App.renderResult r = Return (Some shown).
Proof.
  intros H Pr Ps Pi E.
  pose proof (static_normalizeResult_shaped maxScore parsed H) as S.
  rewrite E in S. destruct S as (n & _ & S).
  destruct S as (Hr & _ & Em & Es & A1 & _ & A3 & _ & (_ & _ & G)).
  assert (Er : GetOpt r (js "rationale") = GetOpt parsed (js "rationale"))
    by (apply G; reflexivity).
  unfold App.renderResult. rewrite (shaped_truthy r Hr). cbn [negb].
  rewrite !(Get_shaped r _ Hr), Es, Em, Er, A1, A3. cbn [bind ToString].
  destruct (ToString_primitive _ Pr) as (rt & ->). cbn [bind].
  destruct (listBlock_plain "**Strengths**:" _ Ps) as (b1 & ->). cbn [bind].
  destruct (listBlock_plain "**Improvements**:" _ Pi) as (b2 & ->). cbn [bind].
  now eexists.
Qed.

Lemma normalised_result_renders_witness :
  exists r,
    Static.normalizeResult (num_of_Z 20)
      (VObject [(js "score", VNumber (num_of_Z 25)); (js "rationale", VString (js "ok"));
                (js "strengths", VString (js "clear"))])
    = Return r
    /\ (exists shown, App.renderResult r = Return (Some shown))
    /\ App.renderResult
         (VObject [(js "score", VNumber (num_of_Z 25)); (js "rationale", VString (js "ok"));
                   (js "strengths", VString (js "clear"))])
       = Throw TypeError.
Proof.
  eexists. split; [vm_compute; reflexivity|]. split; [|vm_compute; reflexivity].
  apply (normalised_result_renders (num_of_Z 20)
           (VObject [(js "score", VNumber (num_of_Z 25)); (js "rationale", VString (js "ok"));
                     (js "strengths", VString (js "clear"))]));
    vm_compute; reflexivity.
Defined.
